(** * Midder: a shallow embedding of the event emitter and its operation chains

    The development follows [src/operation.ts] (operation chains) and
    [src/model.ts] (the emitter).

    - JavaScript values are a small inductive type; numbers are integers
      ([Z]), so [NaN] and fractions are left out.
    - The [Map]s of the emitter are [gmap]s keyed by the event name; the
      [Set] of listeners of a name and the wildcard array are lists in
      insertion order (every [on] adds a fresh object, so the set never
      merges two entries).
    - A handler is a reference to a function object; what calling it does is
      a parameter of the development: it reads and writes a user state and
      returns or throws.  Handlers do not call back into the emitter.
    - Every method is a computation in a state-and-exception monad over the
      heap: the emitter, the user state, the platform's clock and timer
      table, and the trace of calls and console output.
    - [setTimeout] puts the debounce closure into the timer table, due
      after the delay that the platform grants: [delay] itself from 1 to
      2^31-1, and 1 for every other number; [advance] lets time pass and
      fires what is due. *)

From Stdlib Require Import ZArith String List Bool Lia.
From stdpp Require Import base option list strings gmap pretty.

Local Open Scope string_scope.
Local Open Scope list_scope.
Local Open Scope Z_scope.
#[local] Set Warnings "-register-all".

(** ** Values *)

Inductive value : Type :=
  | VUndefined
  | VNull
  | VBool (b : bool)
  | VNum (n : Z)
  | VStr (s : string)
  | VObj (fields : list (string * value)).

(** [!x] is [negb (truthy x)]. *)
Definition truthy (v : value) : bool :=
  match v with
  | VUndefined | VNull => false
  | VBool b => b
  | VNum n => negb (n =? 0)
  | VStr s => negb (String.eqb s "")
  | VObj _ => true
  end.

(** [x === undefined] *)
Definition is_undefined (v : value) : bool :=
  match v with VUndefined => true | _ => false end.

(** [new Error(message)] *)
Definition Error (message : string) : value :=
  VObj [("message", VStr message)].

(** The envelope handed to wildcard listeners: [{ type: event, data }]. *)
Definition envelope (event : string) (data : value) : value :=
  VObj [("type", VStr event); ("data", data)].

(** A number read out of a [Map] and used as a condition: absent
    ([undefined]) and [0] are both falsy. *)
Definition truthy_num (o : option Z) : bool :=
  match o with
  | Some n => negb (n =? 0)
  | None => false
  end.

(** A string used as a condition: absent and the empty string are falsy. *)
Definition truthy_str (o : option string) : bool :=
  match o with
  | Some s => negb (String.eqb s "")
  | None => false
  end.

(** ** Function objects, listeners and steps *)

(** A function object is known by its reference: [l.handler !== idOrHandler]
    compares references. *)
Definition fn : Type := positive.
Bind Scope positive_scope with fn.

Inductive completion (A : Type) : Type :=
  | Normal (a : A)
  | Throw (e : value).
Arguments Normal {A} a.
Arguments Throw {A} e.

Record ListenerWithId : Type := {
  l_id : string;
  l_handler : fn
}.

Inductive StepType : Type := transform_t | filter_t | tap_t.

Definition StepType_name (t : StepType) : string :=
  match t with
  | transform_t => "transform"
  | filter_t => "filter"
  | tap_t => "tap"
  end.

Record OperationStep : Type := {
  s_type : StepType;
  s_handler : fn
}.

Record OperationChain : Type := {
  eventType : string;
  steps : list OperationStep
}.

(** ** The emitter object *)

Record EventEmitter : Type := {
  maxListeners : Z;
  listeners : gmap string (list ListenerWithId);
  wildcardListeners : list ListenerWithId;
  operationChains : gmap string OperationChain;
  debounceTimers : gmap string positive;
  debounceDelays : gmap string Z;
  throttleTimers : gmap string Z;
  throttleDelays : gmap string Z;
  idCounter : nat
}.

Definition set_maxListeners (x : Z) (e : EventEmitter) : EventEmitter :=
  {| maxListeners := x; listeners := listeners e;
     wildcardListeners := wildcardListeners e; operationChains := operationChains e;
     debounceTimers := debounceTimers e; debounceDelays := debounceDelays e;
     throttleTimers := throttleTimers e; throttleDelays := throttleDelays e;
     idCounter := idCounter e |}.

Definition set_listeners (x : gmap string (list ListenerWithId)) (e : EventEmitter)
  : EventEmitter :=
  {| maxListeners := maxListeners e; listeners := x;
     wildcardListeners := wildcardListeners e; operationChains := operationChains e;
     debounceTimers := debounceTimers e; debounceDelays := debounceDelays e;
     throttleTimers := throttleTimers e; throttleDelays := throttleDelays e;
     idCounter := idCounter e |}.

Definition set_wildcardListeners (x : list ListenerWithId) (e : EventEmitter)
  : EventEmitter :=
  {| maxListeners := maxListeners e; listeners := listeners e;
     wildcardListeners := x; operationChains := operationChains e;
     debounceTimers := debounceTimers e; debounceDelays := debounceDelays e;
     throttleTimers := throttleTimers e; throttleDelays := throttleDelays e;
     idCounter := idCounter e |}.

Definition set_operationChains (x : gmap string OperationChain) (e : EventEmitter)
  : EventEmitter :=
  {| maxListeners := maxListeners e; listeners := listeners e;
     wildcardListeners := wildcardListeners e; operationChains := x;
     debounceTimers := debounceTimers e; debounceDelays := debounceDelays e;
     throttleTimers := throttleTimers e; throttleDelays := throttleDelays e;
     idCounter := idCounter e |}.

Definition set_debounceTimers (x : gmap string positive) (e : EventEmitter)
  : EventEmitter :=
  {| maxListeners := maxListeners e; listeners := listeners e;
     wildcardListeners := wildcardListeners e; operationChains := operationChains e;
     debounceTimers := x; debounceDelays := debounceDelays e;
     throttleTimers := throttleTimers e; throttleDelays := throttleDelays e;
     idCounter := idCounter e |}.

Definition set_debounceDelays (x : gmap string Z) (e : EventEmitter) : EventEmitter :=
  {| maxListeners := maxListeners e; listeners := listeners e;
     wildcardListeners := wildcardListeners e; operationChains := operationChains e;
     debounceTimers := debounceTimers e; debounceDelays := x;
     throttleTimers := throttleTimers e; throttleDelays := throttleDelays e;
     idCounter := idCounter e |}.

Definition set_throttleTimers (x : gmap string Z) (e : EventEmitter) : EventEmitter :=
  {| maxListeners := maxListeners e; listeners := listeners e;
     wildcardListeners := wildcardListeners e; operationChains := operationChains e;
     debounceTimers := debounceTimers e; debounceDelays := debounceDelays e;
     throttleTimers := x; throttleDelays := throttleDelays e;
     idCounter := idCounter e |}.

Definition set_throttleDelays (x : gmap string Z) (e : EventEmitter) : EventEmitter :=
  {| maxListeners := maxListeners e; listeners := listeners e;
     wildcardListeners := wildcardListeners e; operationChains := operationChains e;
     debounceTimers := debounceTimers e; debounceDelays := debounceDelays e;
     throttleTimers := throttleTimers e; throttleDelays := x;
     idCounter := idCounter e |}.

Definition set_idCounter (x : nat) (e : EventEmitter) : EventEmitter :=
  {| maxListeners := maxListeners e; listeners := listeners e;
     wildcardListeners := wildcardListeners e; operationChains := operationChains e;
     debounceTimers := debounceTimers e; debounceDelays := debounceDelays e;
     throttleTimers := throttleTimers e; throttleDelays := throttleDelays e;
     idCounter := x |}.

(** ** The platform: clock, timers, console *)

(** A pending [setTimeout].  The only callback the emitter ever schedules
    is the debounce closure of [emit], which captures [event] and [data]. *)
Record Timer : Type := {
  t_id : positive;
  t_due : Z;
  t_event : string;
  t_data : value
}.

(** What can be seen from outside: calls of function objects with their
    argument, console output, abort listeners attached to a signal. *)
Inductive Effect : Type :=
  | Called (h : fn) (arg : value)
  | Warned (msg : string)
  | Errored (msg : string) (err : value)
  | AbortListenerAdded (sig : positive) (event : string) (id : string).

Record AbortSignal : Type := {
  sig_ref : positive;
  aborted : bool
}.

(** ** A table of handlers for the examples *)

Module Handlers.

(** The user state counts the calls of function object 5. *)
Definition U : Type := nat.

(** 1 and 2 are listeners that just return; 3 always throws; 4 is a
    predicate that is always false; 5 throws on its first call and returns
    its argument afterwards; 6 adds one to a number; 7 tells whether a number
    is below 5. *)
Definition call (h : fn) (arg : value) (u : U) : completion value * U :=
  match h with
  | 3%positive => (Throw (Error "boom"), u)
  | 4%positive => (Normal (VBool false), u)
  | 5%positive =>
      match u with
      | O => (Throw (Error "not ready"), 1%nat)
      | S _ => (Normal arg, S u)
      end
  | 6%positive =>
      match arg with
      | VNum n => (Normal (VNum (n + 1)), u)
      | _ => (Normal arg, u)
      end
  | 7%positive =>
      match arg with
      | VNum n => (Normal (VBool (n <? 5)), u)
      | _ => (Normal (VBool false), u)
      end
  | _ => (Normal VUndefined, u)
  end.

End Handlers.

Section Midder.

(** The state that the bodies of handlers read and write, and what calling
    the function object [h] on an argument does to it.  Handlers do not call
    back into the emitter. *)
Variable U : Type.
Variable call : fn -> value -> U -> completion value * U.

Record State : Type := {
  this : EventEmitter;
  user : U;
  clock : Z;
  timers : list Timer;
  nextTimer : positive;
  trace : list Effect
}.

Definition with_this (e : EventEmitter) (s : State) : State :=
  {| this := e; user := user s; clock := clock s; timers := timers s;
     nextTimer := nextTimer s; trace := trace s |}.

Definition with_user (u : U) (s : State) : State :=
  {| this := this s; user := u; clock := clock s; timers := timers s;
     nextTimer := nextTimer s; trace := trace s |}.

Definition with_clock (c : Z) (s : State) : State :=
  {| this := this s; user := user s; clock := c; timers := timers s;
     nextTimer := nextTimer s; trace := trace s |}.

Definition with_timers (ts : list Timer) (n : positive) (s : State) : State :=
  {| this := this s; user := user s; clock := clock s; timers := ts;
     nextTimer := n; trace := trace s |}.

Definition log (ev : Effect) (s : State) : State :=
  {| this := this s; user := user s; clock := clock s; timers := timers s;
     nextTimer := nextTimer s; trace := trace s ++ [ev] |}.

(** ** State and exceptions *)

Definition M (A : Type) : Type := State -> completion A * State.

Definition ret {A} (a : A) : M A := fun s => (Normal a, s).

Definition bind {A B} (m : M A) (k : A -> M B) : M B :=
  fun s =>
    match m s with
    | (Normal a, s') => k a s'
    | (Throw e, s') => (Throw e, s')
    end.

Definition throw {A} (e : value) : M A := fun s => (Throw e, s).

(** [try { m } catch (error) { h error }] *)
Definition try_catch {A} (m : M A) (h : value -> M A) : M A :=
  fun s =>
    match m s with
    | (Normal a, s') => (Normal a, s')
    | (Throw e, s') => h e s'
    end.

Definition get : M State := fun s => (Normal s, s).
Definition modify (f : State -> State) : M unit := fun s => (Normal tt, f s).

Notation "'let*' x := m 'in' k" := (bind m (fun x => k))
  (at level 10, x name, m at level 200, k at level 200).

(** Calling a function object: the call is recorded, the body runs on the
    user state and either returns or throws. *)
Definition apply_fn (h : fn) (arg : value) : M value :=
  fun s =>
    let s0 := log (Called h arg) s in
    let '(c, u) := call h arg (user s0) in
    (c, with_user u s0).

Definition console_warn (msg : string) : M unit := modify (log (Warned msg)).
Definition console_error (msg : string) (err : value) : M unit :=
  modify (log (Errored msg err)).

(** [Date.now()] *)
Definition Date_now : M Z := fun s => (Normal (clock s), s).

(** The delay that the platform's [setTimeout] grants: a delay above
    2^31-1 or below 1 is set to 1. *)
Definition TIMEOUT_MAX : Z := 2147483647.

Definition timer_delay (delay : Z) : Z :=
  if (1 <=? delay) && (delay <=? TIMEOUT_MAX) then delay else 1.

(** [setTimeout(() => ..., delay)] for the debounce closure. *)
Definition setTimeout (event : string) (data : value) (delay : Z) : M positive :=
  fun s =>
    let t := {| t_id := nextTimer s; t_due := clock s + timer_delay delay;
                t_event := event; t_data := data |} in
    (Normal (nextTimer s), with_timers (timers s ++ [t]) (Pos.succ (nextTimer s)) s).

Definition clearTimeout (id : positive) : M unit :=
  modify (fun s =>
    with_timers (filter (fun t => negb (Pos.eqb (t_id t) id)) (timers s)) (nextTimer s) s).

(** ** OperationChain (operation.ts) *)

Definition chain_transform (c : OperationChain) (handler : fn) : OperationChain :=
  {| eventType := eventType c;
     steps := steps c ++ [{| s_type := transform_t; s_handler := handler |}] |}.

Definition chain_filter (c : OperationChain) (handler : fn) : OperationChain :=
  {| eventType := eventType c;
     steps := steps c ++ [{| s_type := filter_t; s_handler := handler |}] |}.

Definition chain_tap (c : OperationChain) (handler : fn) : OperationChain :=
  {| eventType := eventType c;
     steps := steps c ++ [{| s_type := tap_t; s_handler := handler |}] |}.

Definition compose (c otherChain : OperationChain) : OperationChain :=
  {| eventType := eventType c; steps := steps c ++ steps otherChain |}.

(** How one turn of the loop of [execute] ends: with the running value for
    the next step, or by [return undefined]. *)
Inductive LoopExit : Type :=
  | Continue (result : value)
  | ReturnUndefined.

(** The body of the [for] loop of [execute]: the [switch] inside [try], and
    the [catch] clause. *)
Definition execute_step (step : OperationStep) (result : value) : M LoopExit :=
  try_catch
    (match s_type step with
     | transform_t =>
         let* r := apply_fn (s_handler step) result in
         ret (Continue r)
     | filter_t =>
         let* r := apply_fn (s_handler step) result in
         if negb (truthy r) then ret ReturnUndefined else ret (Continue result)
     | tap_t =>
         let* _ := apply_fn (s_handler step) result in
         ret (Continue result)
     end)
    (fun error =>
       let* _ := console_error
                   ("Error in operation step " +:+ StepType_name (s_type step) +:+ ":")
                   error in
       match s_type step with
       | transform_t => ret ReturnUndefined
       | _ => ret (Continue result)
       end).

Fixpoint execute_loop (ss : list OperationStep) (result : value) : M LoopExit :=
  match ss with
  | [] => ret (Continue result)
  | step :: rest =>
      let* x := execute_step step result in
      match x with
      | Continue result' => execute_loop rest result'
      | ReturnUndefined => ret ReturnUndefined
      end
  end.

Definition execute (c : OperationChain) (eventData : value) : M value :=
  let* x := execute_loop (steps c) eventData in
  match x with
  | Continue result => ret result
  | ReturnUndefined => ret VUndefined
  end.

(** ** EventEmitter (model.ts) *)

Definition get_this : M EventEmitter := fun s => (Normal (this s), s).

Definition update_this (f : EventEmitter -> EventEmitter) : M unit :=
  modify (fun s => with_this (f (this s)) s).

(** The field initialisers of the class, with the cap that the constructor
    assigns. *)
Definition empty_emitter (cap : Z) : EventEmitter :=
  {| maxListeners := cap;
     listeners := ∅;
     wildcardListeners := [];
     operationChains := ∅;
     debounceTimers := ∅;
     debounceDelays := ∅;
     throttleTimers := ∅;
     throttleDelays := ∅;
     idCounter := 0 |}.

(** [new EventEmitter(config)].  [None] is a call without argument, which
    takes the default [{ maxListeners: 10 }]; [Some None] is a configuration
    object without the option. *)
Definition new_EventEmitter (config : option (option Z)) : completion EventEmitter :=
  let config_maxListeners :=
    match config with
    | None => Some 10
    | Some c => c
    end in
  if truthy_num config_maxListeners && (default 0 config_maxListeners <? 0)
  then Throw (Error "maxListeners cannot be negative")
  else Normal
    (empty_emitter
       (if truthy_num config_maxListeners then default 0 config_maxListeners else 10)).

Definition listenerCount (e : EventEmitter) (event : string) : Z :=
  if String.eqb event "*" then Z.of_nat (length (wildcardListeners e))
  else
    match listeners e !! event with
    | Some ls => Z.of_nat (length ls)
    | None => 0
    end.

Definition addEventListener_abort (sg : AbortSignal) (event id : string) : M unit :=
  modify (log (AbortListenerAdded (sig_ref sg) event id)).

Definition on (event : string) (listener : fn) (signal : option AbortSignal) : M string :=
  let* e := get_this in
  let id := pretty (idCounter e) in
  let* _ := update_this (set_idCounter (S (idCounter e))) in
  if match signal with Some sg => aborted sg | None => false end then ret id
  else
    let* _ :=
      if String.eqb event "*" then
        if (0 <? maxListeners e)
           && (maxListeners e <=? Z.of_nat (length (wildcardListeners e)))
        then console_warn "Max listeners exceeded for wildcard event"
        else ret tt
      else
        if (0 <? maxListeners e) && (maxListeners e <=? listenerCount e event)
        then console_warn ("Max listeners exceeded for event: " +:+ event)
        else ret tt in
    let listenerWithId := {| l_id := id; l_handler := listener |} in
    if String.eqb event "*" then
      let* _ := update_this (fun e =>
                  set_wildcardListeners (wildcardListeners e ++ [listenerWithId]) e) in
      let* _ := match signal with
                | Some sg => addEventListener_abort sg event id
                | None => ret tt
                end in
      ret id
    else
      let* _ := update_this (fun e =>
                  let existingListeners := default [] (listeners e !! event) in
                  set_listeners
                    (<[event := existingListeners ++ [listenerWithId]]> (listeners e))
                    e) in
      let* _ := match signal with
                | Some sg => addEventListener_abort sg event id
                | None => ret tt
                end in
      ret id.

(** The predicate of the [filter] calls in [off]: keep what differs from
    [idOrHandler], an id (a string) or a handler (a function object). *)
Definition off_keeps (idOrHandler : string + fn) (l : ListenerWithId) : bool :=
  match idOrHandler with
  | inl id => negb (String.eqb (l_id l) id)
  | inr handler => negb (Pos.eqb (l_handler l) handler)
  end.

Definition off (event : string) (idOrHandler : string + fn) : M bool :=
  let* e := get_this in
  if String.eqb event "*" then
    let before := length (wildcardListeners e) in
    let filtered := filter (fun l => off_keeps idOrHandler l = true) (wildcardListeners e) in
    let* _ := update_this (set_wildcardListeners filtered) in
    ret (negb (Nat.eqb (length filtered) before))
  else
    match listeners e !! event with
    | None => ret false
    | Some ls =>
        let filtered := filter (fun l => off_keeps idOrHandler l = true) ls in
        if Nat.eqb (length filtered) (length ls) then ret false
        else
          let* _ := update_this (fun e =>
                      set_listeners (<[event := filtered]> (listeners e)) e) in
          ret true
    end.

(** [chain ? chain.execute(data) : data] *)
Definition run_chain (chain : option OperationChain) (data : value) : M value :=
  match chain with
  | Some c => execute c data
  | None => ret data
  end.

(** The loop over the snapshot of the per-name listeners. *)
Fixpoint for_listeners (ls : list ListenerWithId) (event : string) (processedData : value)
  : M unit :=
  match ls with
  | [] => ret tt
  | l :: rest =>
      let* _ :=
        try_catch
          (let* _ := apply_fn (l_handler l) processedData in ret tt)
          (fun error =>
             console_error ("Error in event listener for " +:+ event +:+ ":") error) in
      for_listeners rest event processedData
  end.

(** One turn of the loop over the wildcard listeners; [called] is the
    variable of [_emitInternal], the result is its value after the turn. *)
Definition wildcard_turn (chain : option OperationChain) (event : string) (data : value)
    (l : ListenerWithId) (called : bool) : M bool :=
  try_catch
    (let* wildcardData := run_chain chain data in
     if negb (is_undefined wildcardData) then
       let* _ := apply_fn (l_handler l) (envelope event wildcardData) in
       ret true
     else ret called)
    (fun error =>
       let* _ := console_error ("Error in wildcard listener for " +:+ event +:+ ":") error in
       ret called).

Fixpoint for_wildcards (ls : list ListenerWithId) (chain : option OperationChain)
    (event : string) (data : value) (called : bool) : M bool :=
  match ls with
  | [] => ret called
  | l :: rest =>
      let* called' := wildcard_turn chain event data l called in
      for_wildcards rest chain event data called'
  end.

(** [_emitInternal]: the early [return false], the per-name block with its
    own [return false] when the processed payload is [undefined], and the
    loop over the wildcard listeners, which starts with [called] as the
    per-name block left it. *)
Definition _emitInternal (event : string) (data : value) : M bool :=
  let* e := get_this in
  let listeners := listeners e !! event in
  let chain := operationChains e !! event in
  if negb (bool_decide (is_Some listeners)) && Nat.eqb (length (wildcardListeners e)) 0
  then ret false
  else
    match listeners with
    | Some ls =>
        if Nat.ltb 0 (length ls) then
          let* processedData := run_chain chain data in
          if is_undefined processedData then ret false
          else
            let* _ := for_listeners ls event processedData in
            for_wildcards (wildcardListeners e) chain event data true
        else for_wildcards (wildcardListeners e) chain event data false
    | None => for_wildcards (wildcardListeners e) chain event data false
    end.

(** The throttle part of [emit] (the [if (throttleDelay)] block); [true]
    means that its [return false] was taken. *)
Definition throttle_gate (event : string) (throttleDelay : option Z) : M bool :=
  if truthy_num throttleDelay then
    let* currentTime := Date_now in
    let* e := get_this in
    let lastThrottleTime := throttleTimers e !! event in
    if truthy_num lastThrottleTime
       && (currentTime - default 0 lastThrottleTime <? default 0 throttleDelay)
    then ret true
    else
      let* _ := update_this (fun e =>
                  set_throttleTimers (<[event := currentTime]> (throttleTimers e)) e) in
      ret false
  else ret false.

(** The rest of [emit]: the [if (debounceDelay)] block and the final
    [return this._emitInternal(event, data)]. *)
Definition debounce_or_deliver (event : string) (data : value) (debounceDelay : option Z)
  : M bool :=
  if truthy_num debounceDelay then
    let* e := get_this in
    let* _ := match debounceTimers e !! event with
              | Some existingTimer => clearTimeout existingTimer
              | None => ret tt
              end in
    let* newTimer := setTimeout event data (default 0 debounceDelay) in
    let* _ := update_this (fun e =>
                set_debounceTimers (<[event := newTimer]> (debounceTimers e)) e) in
    ret true
  else _emitInternal event data.

Definition emit (event : string) (data : value) : M bool :=
  let* e := get_this in
  let debounceDelay := debounceDelays e !! event in
  let throttleDelay := throttleDelays e !! event in
  let* dropped := throttle_gate event throttleDelay in
  if dropped then ret false
  else debounce_or_deliver event data debounceDelay.

(** The closure given to [setTimeout] by [emit]. *)
Definition debounce_callback (event : string) (data : value) : M unit :=
  let* _ := update_this (fun e => set_debounceTimers (delete event (debounceTimers e)) e) in
  let* _ := _emitInternal event data in
  ret tt.

Definition emitToListener (event : string) (data : value) (listenerId : string) : M bool :=
  let* e := get_this in
  match listeners e !! event with
  | None => ret false
  | Some ls =>
      match List.find (fun l => String.eqb (l_id l) listenerId) ls with
      | None => ret false
      | Some targetListener =>
          let chain := operationChains e !! event in
          let* processedData := run_chain chain data in
          if is_undefined processedData then ret false
          else
            try_catch
              (let* _ := apply_fn (l_handler targetListener) processedData in
               ret true)
              (fun error =>
                 let* _ := console_error
                   ("Error in specific listener " +:+ listenerId +:+ " for " +:+ event +:+ ":")
                   error in
                 ret false)
      end
  end.

(** [for (const timer of this.debounceTimers.values()) clearTimeout(timer)];
    the order in which the timers are cancelled does not matter. *)
Fixpoint clear_all (ts : list positive) : M unit :=
  match ts with
  | [] => ret tt
  | timer :: rest => let* _ := clearTimeout timer in clear_all rest
  end.

Definition removeAllListeners (event : option string) : M unit :=
  if truthy_str event then
    let event := default "" event in
    let* _ := update_this (fun e => set_listeners (delete event (listeners e)) e) in
    let* e := get_this in
    let* _ := match debounceTimers e !! event with
              | Some timer =>
                  let* _ := clearTimeout timer in
                  update_this (fun e => set_debounceTimers (delete event (debounceTimers e)) e)
              | None => ret tt
              end in
    update_this (fun e => set_throttleTimers (delete event (throttleTimers e)) e)
  else
    let* _ := update_this (set_listeners ∅) in
    let* _ := update_this (set_wildcardListeners []) in
    let* e := get_this in
    let* _ := clear_all (map snd (map_to_list (debounceTimers e))) in
    let* _ := update_this (set_debounceTimers ∅) in
    update_this (set_throttleTimers ∅).

Definition removeAllOperations (event : option string) : M unit :=
  if truthy_str event then
    let event := default "" event in
    let* _ := update_this (fun e => set_operationChains (delete event (operationChains e)) e) in
    let* _ := update_this (fun e => set_debounceDelays (delete event (debounceDelays e)) e) in
    let* _ := update_this (fun e => set_throttleDelays (delete event (throttleDelays e)) e) in
    let* e := get_this in
    let* _ := match debounceTimers e !! event with
              | Some timer =>
                  let* _ := clearTimeout timer in
                  update_this (fun e => set_debounceTimers (delete event (debounceTimers e)) e)
              | None => ret tt
              end in
    update_this (fun e => set_throttleTimers (delete event (throttleTimers e)) e)
  else
    let* _ := update_this (set_operationChains ∅) in
    let* _ := update_this (set_debounceDelays ∅) in
    let* _ := update_this (set_throttleDelays ∅) in
    let* e := get_this in
    let* _ := clear_all (map snd (map_to_list (debounceTimers e))) in
    let* _ := update_this (set_debounceTimers ∅) in
    update_this (set_throttleTimers ∅).

Definition removeDebounce (event : string) : M unit :=
  let* _ := update_this (fun e => set_debounceDelays (delete event (debounceDelays e)) e) in
  let* e := get_this in
  match debounceTimers e !! event with
  | Some timer =>
      let* _ := clearTimeout timer in
      update_this (fun e => set_debounceTimers (delete event (debounceTimers e)) e)
  | None => ret tt
  end.

Definition removeThrottle (event : string) : M unit :=
  let* _ := update_this (fun e => set_throttleDelays (delete event (throttleDelays e)) e) in
  update_this (fun e => set_throttleTimers (delete event (throttleTimers e)) e).

Definition getOperation (event : string) : M (option OperationChain) :=
  let* e := get_this in ret (operationChains e !! event).

Definition getMaxListeners : M Z :=
  let* e := get_this in ret (maxListeners e).

Definition setMaxListeners (n : Z) : M unit :=
  if n <? 0 then throw (Error "maxListeners cannot be negative")
  else update_this (set_maxListeners n).

Definition _setOperation (event : string) (chain : OperationChain) : M unit :=
  update_this (fun e => set_operationChains (<[event := chain]> (operationChains e)) e).

Definition _setDebounce (event : string) (delayMs : Z) : M unit :=
  update_this (fun e => set_debounceDelays (<[event := delayMs]> (debounceDelays e)) e).

Definition _setThrottle (event : string) (delayMs : Z) : M unit :=
  update_this (fun e => set_throttleDelays (<[event := delayMs]> (throttleDelays e)) e).

(** ** OperationChainBuilder (operation.ts); its emitter is [this] *)

Record OperationChainBuilder : Type := {
  b_event : string;
  b_chain : OperationChain
}.

Definition operation (event : string) : M OperationChainBuilder :=
  let* e := get_this in
  let existingChain :=
    default {| eventType := event; steps := [] |} (operationChains e !! event) in
  ret {| b_event := event; b_chain := existingChain |}.

Definition builder_step (mk : OperationChain -> fn -> OperationChain)
    (b : OperationChainBuilder) (handler : fn) : M OperationChainBuilder :=
  let* bound := getOperation (b_event b) in
  let currentChain := default (b_chain b) bound in
  let newChain := mk currentChain handler in
  let* _ := _setOperation (b_event b) newChain in
  ret {| b_event := b_event b; b_chain := newChain |}.

Definition builder_transform := builder_step chain_transform.
Definition builder_filter := builder_step chain_filter.
Definition builder_tap := builder_step chain_tap.

Definition builder_debounce (b : OperationChainBuilder) (delayMs : Z)
  : M OperationChainBuilder :=
  let* _ := _setDebounce (b_event b) delayMs in ret b.

Definition builder_throttle (b : OperationChainBuilder) (delayMs : Z)
  : M OperationChainBuilder :=
  let* _ := _setThrottle (b_event b) delayMs in ret b.

(** ** The timer queue of the platform *)

(** The pending timer that fires next: the earliest due one, the one
    scheduled first among equals. *)
Fixpoint next_timer (ts : list Timer) : option Timer :=
  match ts with
  | [] => None
  | t :: rest =>
      match next_timer rest with
      | Some t' => if t_due t' <? t_due t then Some t' else Some t
      | None => Some t
      end
  end.

(** Firing a timer: it leaves the table, the clock stands at its due time
    (or later), its callback runs. *)
Definition fire (t : Timer) : M unit :=
  let* _ := modify (fun s =>
              with_clock (Z.max (clock s) (t_due t))
                (with_timers (filter (fun t' => negb (Pos.eqb (t_id t') (t_id t))) (timers s))
                   (nextTimer s) s)) in
  debounce_callback (t_event t) (t_data t).

(** Let time pass until [until]: the timers that are due by then fire in
    order; the result lists them.  No callback of the emitter schedules a
    timer, so the table's length bounds the number of turns. *)
Fixpoint run_due (fuel : nat) (until : Z) : M (list Timer) :=
  match fuel with
  | O => ret []
  | S fuel' =>
      let* s := get in
      match next_timer (timers s) with
      | Some t =>
          if t_due t <=? until then
            let* _ := fire t in
            let* fired := run_due fuel' until in
            ret (t :: fired)
          else ret []
      | None => ret []
      end
  end.

Definition advance (until : Z) : M (list Timer) :=
  let* s := get in
  let* fired := run_due (length (timers s)) until in
  let* _ := modify (fun s => with_clock (Z.max (clock s) until) s) in
  ret fired.

(** ** States and predicates used in the statements *)

Ltac unfold_m :=
  unfold get_this, update_this, console_error, console_warn, Date_now;
  unfold bind, ret, throw, try_catch, modify, get.

(** The state right after the handler of [step] was called on [v] and left
    the user state [u]. *)
Definition after_call (step : OperationStep) (v : value) (u : U) (s : State) : State :=
  with_user u (log (Called (s_handler step) v) s).

(** The same when the handler threw [e]: the [catch] clause reported it. *)
Definition after_throw (step : OperationStep) (v e : value) (u : U) (s : State) : State :=
  log (Errored ("Error in operation step " +:+ StepType_name (s_type step) +:+ ":") e)
      (after_call step v u s).

(** The state after a handler call differs from the one before only in the
    user state and the trace. *)
Definition same_frame (s s' : State) : Prop :=
  this s' = this s /\ clock s' = clock s /\ timers s' = timers s
  /\ nextTimer s' = nextTimer s.

(** *** Targeted emission *)

(** Another timing configuration and another state of the platform's clock
    and timers, everything else as in [s]. *)
Definition with_timing (dt : gmap string positive) (dd tt td : gmap string Z)
    (c : Z) (ts : list Timer) (n : positive) (s : State) : State :=
  {| this := set_debounceTimers dt
               (set_debounceDelays dd
                  (set_throttleTimers tt (set_throttleDelays td (this s))));
     user := user s; clock := c; timers := ts; nextTimer := n; trace := trace s |}.

Definition on_state {A} (f : State -> State) (p : completion A * State)
  : completion A * State :=
  (fst p, f (snd p)).

(** What [emitToListener] reports about the failure of the handler. *)
Definition specific_listener_error (listenerId event : string) : string :=
  "Error in specific listener " +:+ listenerId +:+ " for " +:+ event +:+ ":".

(** *** Unsubscribing *)

(** The registrations that [off] looks at for [event]: the wildcard array
    or the set of the name (none when the name has no entry). *)
Definition registrations (e : EventEmitter) (event : string) : list ListenerWithId :=
  if String.eqb event "*" then wildcardListeners e
  else default [] (listeners e !! event).

(** *** Removing all listeners of a name *)

(** What [removeAllListeners(event)] leaves behind for a name that is a
    truthy string. *)
Definition without_listeners (event : string) (s : State) : State :=
  {| this :=
       set_throttleTimers (delete event (throttleTimers (this s)))
         (set_debounceTimers (delete event (debounceTimers (this s)))
            (set_listeners (delete event (listeners (this s))) (this s)));
     user := user s;
     clock := clock s;
     timers :=
       match debounceTimers (this s) !! event with
       | Some timer => filter (fun t => negb (Pos.eqb (t_id t) timer)) (timers s)
       | None => timers s
       end;
     nextTimer := nextTimer s;
     trace := trace s |}.

(** *** The gates of [emit] *)

(** The condition under which the throttle block of [emit] returns false. *)
Definition throttled (e : EventEmitter) (now : Z) (event : string) : bool :=
  truthy_num (throttleDelays e !! event)
  && truthy_num (throttleTimers e !! event)
  && (now - default 0 (throttleTimers e !! event) <? default 0 (throttleDelays e !! event)).

(** The state in which an emission that was not dropped goes on: the
    throttle block, when the delay is truthy, has recorded the time. *)
Definition stamped (event : string) (s : State) : State :=
  if truthy_num (throttleDelays (this s) !! event)
  then with_this (set_throttleTimers (<[event := clock s]> (throttleTimers (this s)))
                    (this s)) s
  else s.

(** The state after the debounce block of [emit] for the configured
    [delay]: the pending timer of the name is cancelled, a new one is
    scheduled, due after the delay that the platform grants, and recorded. *)
Definition deferred (event : string) (data : value) (delay : Z) (s : State) : State :=
  let pending :=
    match debounceTimers (this s) !! event with
    | Some existingTimer =>
        filter (fun t => negb (Pos.eqb (t_id t) existingTimer)) (timers s)
    | None => timers s
    end in
  {| this := set_debounceTimers (<[event := nextTimer s]> (debounceTimers (this s))) (this s);
     user := user s;
     clock := clock s;
     timers := pending ++ [{| t_id := nextTimer s; t_due := clock s + timer_delay delay;
                              t_event := event; t_data := data |}];
     nextTimer := Pos.succ (nextTimer s);
     trace := trace s |}.

(** *** Computations that return and leave the emitter and the timers alone *)

Definition returns {A} (m : M A) : Prop :=
  forall s, exists a s', m s = (Normal a, s').

Definition keeps_frame {A} (m : M A) : Prop :=
  forall s, same_frame s (snd (m s)).

(** *** Suppression and the wildcard pass *)

Definition wildcard_listener_error (event : string) : string :=
  "Error in wildcard listener for " +:+ event +:+ ":".

(** *** A fresh heap *)

(** The heap in which the emitter [e] has just been constructed. *)
Definition initial_state (e : EventEmitter) (u : U) : State :=
  {| this := e; user := u; clock := 0; timers := []; nextTimer := 1%positive;
     trace := [] |}.

(** *** Debounce *)

(** A producer that emits [event] at the given times with the given
    payloads; before each emission time passes up to it and the timers that
    came due have fired.  The result lists what the calls of [emit] returned
    and the timers that fired. *)
Fixpoint emit_at (event : string) (calls : list (Z * value)) : M (list bool * list Timer) :=
  match calls with
  | [] => ret ([], [])
  | (t, data) :: rest =>
      let* fired := advance t in
      let* r := emit event data in
      let* x := emit_at event rest in
      ret (r :: fst x, fired ++ snd x)
  end.

(** The producer, and then time passing until [until]. *)
Definition emit_at_then_wait (event : string) (calls : list (Z * value)) (until : Z)
  : M (list bool * list Timer) :=
  let* x := emit_at event calls in
  let* fired := advance until in
  ret (fst x, snd x ++ fired).

(** Each emission of the burst comes less than [D] after the one before. *)
Fixpoint spaced (D : Z) (t0 : Z) (calls : list (Z * value)) : Prop :=
  match calls with
  | [] => True
  | (t, _) :: rest => t0 <= t < t0 + D /\ spaced D t rest
  end.

(** The timers on the platform are the ones the emitter has on record:
    each pending timer is the recorded one of its name, ids are not shared
    and are below the next id to hand out. *)
Definition timers_recorded (s : State) : Prop :=
  (forall t, In t (timers s) -> debounceTimers (this s) !! t_event t = Some (t_id t))
  /\ NoDup (map t_id (timers s))
  /\ (forall t, In t (timers s) -> (t_id t < nextTimer s)%positive).

(** The state in which the callback of the fired timer [t] starts. *)
Definition at_firing (t : Timer) (s : State) : State :=
  {| this := set_debounceTimers (delete (t_event t) (debounceTimers (this s))) (this s);
     user := user s;
     clock := Z.max (clock s) (t_due t);
     timers := filter (fun t' => negb (Pos.eqb (t_id t') (t_id t))) (timers s);
     nextTimer := nextTimer s;
     trace := trace s |}.

(** All fields of the emitter but the record of pending debounce timers. *)
Definition same_settings (e e' : EventEmitter) : Prop :=
  e' = set_debounceTimers (debounceTimers e') e.

(** What letting time pass until [until] does, from [s] to [s'] with the
    timers [fired]: the timers that fired were due, those left are not due
    yet, none was added; the emitter lost the records of the names whose
    timer fired and nothing else. *)
Definition passed (until : Z) (s : State) (fired : list Timer) (s' : State) : Prop :=
  timers_recorded s'
  /\ Permutation (timers s) (fired ++ timers s')
  /\ Forall (fun t => t_due t <= until) fired
  /\ Forall (fun t => until < t_due t) (timers s')
  /\ (forall ev, (forall t, In t fired -> t_event t <> ev) ->
        debounceTimers (this s') !! ev = debounceTimers (this s) !! ev)
  /\ (forall t, In t fired -> debounceTimers (this s') !! t_event t = None)
  /\ same_settings (this s) (this s')
  /\ nextTimer s' = nextTimer s
  /\ clock s <= clock s' <= Z.max (clock s) until.

(** The deferred emission of [event] with [data] is pending, due at
    [t0 + D], and on the emitter's record. *)
Definition armed (event : string) (D t0 : Z) (data : value) (s : State) : Prop :=
  exists tid,
    debounceTimers (this s) !! event = Some tid
    /\ In {| t_id := tid; t_due := t0 + D; t_event := event; t_data := data |} (timers s).

(** ** The claims as the specification words them, where the code differs *)

(** C1 as stated: when the per-name evaluation gives [undefined], the
    per-name delivery is skipped ([called] stays false) and the loop over the
    wildcard listeners still runs. *)
Definition wildcards_after_suppression_as_stated : Prop :=
  forall event data ls s s1,
    listeners (this s) !! event = Some ls -> ls <> [] ->
    wildcardListeners (this s) <> [] ->
    run_chain (operationChains (this s) !! event) data s = (Normal VUndefined, s1) ->
    _emitInternal event data s
    = for_wildcards (wildcardListeners (this s)) (operationChains (this s) !! event)
        event data false s1.


(** C5 as stated, its first part: with a debounce delay [D] set for the
    name, every emission that is not dropped returns true and schedules a
    deferred emission of the payload, to fire [D] after the call. *)
Definition debounce_as_stated : Prop :=
  forall event data D s,
    debounceDelays (this s) !! event = Some D ->
    throttled (this s) (clock s) event = false ->
    fst (emit event data s) = Normal true
    /\ exists tid,
         In {| t_id := tid; t_due := clock s + D; t_event := event; t_data := data |}
            (timers (snd (emit event data s))).

(** C6 as stated: with a throttle delay [D] set for the name and the last
    fire recorded at [L], an emission before [L + D] returns false and
    changes nothing, a later one records the current time. *)
Definition throttle_as_stated : Prop :=
  forall event data D L s,
    throttleDelays (this s) !! event = Some D ->
    throttleTimers (this s) !! event = Some L ->
    (clock s - L < D -> emit event data s = (Normal false, s))
    /\ (D <= clock s - L ->
         throttleTimers (this (snd (emit event data s))) !! event = Some (clock s)).

(** C8 as stated: for every name, the wildcard name among them,
    [removeAllListeners(name)] removes the listeners registered under that
    name and what is recorded for it, and leaves the rest alone. *)
Definition removeAllListeners_as_stated : Prop :=
  forall event s,
    let s1 := snd (removeAllListeners (Some event) s) in
    registrations (this s1) event = []
    /\ debounceTimers (this s1) !! event = None
    /\ throttleTimers (this s1) !! event = None
    /\ operationChains (this s1) = operationChains (this s)
    /\ debounceDelays (this s1) = debounceDelays (this s)
    /\ throttleDelays (this s1) = throttleDelays (this s)
    /\ (forall other, other <> event ->
          registrations (this s1) other = registrations (this s) other).

(** ** Scenarios, built with the public methods from a fresh emitter *)

(** The state after running [m] in [s]. *)
Definition after {A} (m : M A) (s : State) : State := snd (m s).

Definition fresh (u : U) : State := initial_state (empty_emitter 10) u.

(** [emitter.operation("e").debounce(delay)] *)
Definition debounced (delay : Z) (u : U) : State :=
  after (let* b := operation "e" in builder_debounce b delay) (fresh u).

(** [operation("e").throttle(10)], an emission at time 100, then
    [operation("e").throttle(delay)], and the clock at [now]. *)
Definition rethrottled (delay now : Z) (u : U) : State :=
  after (let* b := operation "e" in
         let* _ := builder_throttle b 10 in
         let* _ := advance 100 in
         let* _ := emit "e" (VNum 1) in
         let* _ := builder_throttle b delay in
         advance now) (fresh u).

(** [operation("n").transform(inc).filter(small)], the listener [l] on "n"
    and the wildcard listener [w]. *)
Definition numbers (inc small l w : fn) (u : U) : State :=
  after (let* b := operation "n" in
         let* b := builder_transform b inc in
         let* _ := builder_filter b small in
         let* _ := on "n" l None in
         on "*" w None) (fresh u).

(** A chain with the one transform [h] on "e", the listener [l] on "e" and
    the wildcard listener [w]. *)
Definition with_wildcard (h l w : fn) (u : U) : State :=
  after (let* b := operation "e" in
         let* _ := builder_transform b h in
         let* _ := on "e" l None in
         on "*" w None) (fresh u).

(** The listener [l] on "a" and on the empty name, the wildcard listener
    [w]. *)
Definition two_names (l w : fn) (u : U) : State :=
  after (let* _ := on "a" l None in
         let* _ := on "" l None in
         on "*" w None) (fresh u).

(** [l] on "e", a debounce delay of 10 for "e". *)
Definition debounced_listener (l : fn) (u : U) : State :=
  after (let* b := operation "e" in
         let* _ := builder_debounce b 10 in
         on "e" l None) (fresh u).

(** [n] calls of [on(event, h)]. *)
Fixpoint on_times (n : nat) (event : string) (h : fn) : M unit :=
  match n with
  | O => ret tt
  | S n' => let* _ := on event h None in on_times n' event h
  end.

(** [h] subscribed twice to "e", [h'] once in between. *)
Definition subscribed_twice (h h' : fn) (u : U) : State :=
  after (let* _ := on "e" h None in
         let* _ := on "e" h' None in
         on "e" h None) (fresh u).

(** ** Sequences of calls *)

(** The calls of function objects that a trace records, in order. *)
Fixpoint calls_of (tr : list Effect) : list (fn * value) :=
  match tr with
  | [] => []
  | Called h arg :: rest => (h, arg) :: calls_of rest
  | _ :: rest => calls_of rest
  end.

(** The builder method that appends a step of the given type. *)
Definition builder_add (b : OperationChainBuilder) (step : OperationStep)
  : M OperationChainBuilder :=
  match s_type step with
  | transform_t => builder_transform b (s_handler step)
  | filter_t => builder_filter b (s_handler step)
  | tap_t => builder_tap b (s_handler step)
  end.

(** A fluent chain of builder calls, each on the builder that the one
    before returned. *)
Fixpoint build (b : OperationChainBuilder) (ss : list OperationStep)
  : M OperationChainBuilder :=
  match ss with
  | [] => ret b
  | step :: rest => let* b' := builder_add b step in build b' rest
  end.

(** One call of a public method, or time passing. *)
Inductive Op : Type :=
  | Op_on (event : string) (listener : fn) (signal : option AbortSignal)
  | Op_off (event : string) (idOrHandler : string + fn)
  | Op_emit (event : string) (data : value)
  | Op_emitToListener (event : string) (data : value) (listenerId : string)
  | Op_removeAllListeners (event : option string)
  | Op_removeAllOperations (event : option string)
  | Op_removeDebounce (event : string)
  | Op_removeThrottle (event : string)
  | Op_setMaxListeners (n : Z)
  | Op_step (event : string) (step : OperationStep)
  | Op_debounce (event : string) (delayMs : Z)
  | Op_throttle (event : string) (delayMs : Z)
  | Op_advance (until : Z).

(** The state that a call leaves, whether it returned or threw. *)
Definition do_op (o : Op) (s : State) : State :=
  match o with
  | Op_on event listener signal => snd (on event listener signal s)
  | Op_off event idOrHandler => snd (off event idOrHandler s)
  | Op_emit event data => snd (emit event data s)
  | Op_emitToListener event data listenerId => snd (emitToListener event data listenerId s)
  | Op_removeAllListeners event => snd (removeAllListeners event s)
  | Op_removeAllOperations event => snd (removeAllOperations event s)
  | Op_removeDebounce event => snd (removeDebounce event s)
  | Op_removeThrottle event => snd (removeThrottle event s)
  | Op_setMaxListeners n => snd (setMaxListeners n s)
  | Op_step event step => snd ((let* b := operation event in builder_add b step) s)
  | Op_debounce event delayMs =>
      snd ((let* b := operation event in builder_debounce b delayMs) s)
  | Op_throttle event delayMs =>
      snd ((let* b := operation event in builder_throttle b delayMs) s)
  | Op_advance until => snd (advance until s)
  end.

Definition run_ops (ops : list Op) (s : State) : State :=
  fold_left (fun s o => do_op o s) ops s.

(** [l] is registered in the slot [slot]: the set of a name, or the
    wildcard array ([None]). *)
Definition registered (e : EventEmitter) (slot : option string) (l : ListenerWithId)
  : Prop :=
  match slot with
  | Some event => exists ls, listeners e !! event = Some ls /\ In l ls
  | None => In l (wildcardListeners e)
  end.

(** The ids of the registered listeners were issued by this emitter's
    counter, each sits in one slot, and no slot holds an id twice. *)
Definition ids_issued (e : EventEmitter) : Prop :=
  (forall slot l, registered e slot l ->
     exists k, (k < idCounter e)%nat /\ l_id l = pretty k)
  /\ (forall slot1 slot2 l1 l2,
        registered e slot1 l1 -> registered e slot2 l2 -> l_id l1 = l_id l2 ->
        slot1 = slot2)
  /\ (forall event ls, listeners e !! event = Some ls -> NoDup (map l_id ls))
  /\ NoDup (map l_id (wildcardListeners e)).

(** The emitter [e'] holds no listener that [e] did not hold, and its
    counter is not behind. *)
Definition shrinks (e e' : EventEmitter) : Prop :=
  (forall event ls', listeners e' !! event = Some ls' ->
     exists ls, listeners e !! event = Some ls /\ sublist ls' ls)
  /\ sublist (wildcardListeners e') (wildcardListeners e)
  /\ (idCounter e <= idCounter e')%nat.

(** The slot in which [on(event, ...)] registers: the wildcard array for
    "*", the set of the name otherwise. *)
Definition slot_of (event : string) : option string :=
  if String.eqb event "*" then None else Some event.

(** [signal?.aborted] *)
Definition is_aborted (signal : option AbortSignal) : bool :=
  match signal with
  | Some sg => aborted sg
  | None => false
  end.

(** The condition under which [on] warns, and the text of the warning. *)
Definition cap_reached (e : EventEmitter) (event : string) : bool :=
  (0 <? maxListeners e) && (maxListeners e <=? listenerCount e event).

Definition cap_warning (event : string) : string :=
  if String.eqb event "*" then "Max listeners exceeded for wildcard event"
  else "Max listeners exceeded for event: " +:+ event.

(** The same listeners in the same slots, and the same counter. *)
Definition same_registry (e e' : EventEmitter) : Prop :=
  listeners e' = listeners e
  /\ wildcardListeners e' = wildcardListeners e
  /\ idCounter e' = idCounter e.

(** A chain all of whose steps are taps, and the calls that one evaluation
    of it on [d] makes. *)
Definition only_taps (c : OperationChain) : bool :=
  forallb (fun st => match s_type st with tap_t => true | _ => false end) (steps c).

Definition tap_calls (c : OperationChain) (d : value) : list (fn * value) :=
  map (fun st => (s_handler st, d)) (steps c).

(** Every debounce timer on the emitter's record is pending on the
    platform, under the name it is recorded for. *)
Definition records_pending (s : State) : Prop :=
  forall ev id, debounceTimers (this s) !! ev = Some id ->
    exists t, In t (timers s) /\ t_id t = id /\ t_event t = ev.

(** * Properties *)

(** ** Operation chains *)

Lemma execute_step_throw step v e u s :
  call (s_handler step) v (user s) = (Throw e, u) ->
  execute_step step v s =
    (Normal (match s_type step with
             | transform_t => ReturnUndefined
             | _ => Continue v
             end), after_throw step v e u s).
Proof.
  intros Hc. unfold execute_step, apply_fn. unfold_m.
  unfold after_throw, after_call.
  destruct (s_type step) eqn:Ht; simpl; rewrite Hc; reflexivity.
Qed.

Lemma execute_step_return step v r u s :
  call (s_handler step) v (user s) = (Normal r, u) ->
  execute_step step v s =
    (Normal (match s_type step with
             | transform_t => Continue r
             | filter_t => if truthy r then Continue v else ReturnUndefined
             | tap_t => Continue v
             end), after_call step v u s).
Proof.
  intros Hc. unfold execute_step, apply_fn. unfold_m.
  destruct (s_type step) eqn:Ht; simpl; rewrite Hc; try reflexivity.
  destruct (truthy r); reflexivity.
Qed.

Lemma execute_step_normal step v s :
  exists x s', execute_step step v s = (Normal x, s').
Proof.
  destruct (call (s_handler step) v (user s)) as [[r|e] u] eqn:Hc.
  - rewrite (execute_step_return _ _ _ _ _ Hc). eauto.
  - rewrite (execute_step_throw _ _ _ _ _ Hc). eauto.
Qed.

Lemma execute_loop_normal ss : forall v s,
  exists x s', execute_loop ss v s = (Normal x, s').
Proof.
  induction ss as [|step rest IH]; intros v s; simpl.
  - unfold ret. eauto.
  - unfold bind. destruct (execute_step_normal step v s) as (x & s' & ->).
    destruct x as [v'|]; [apply IH | unfold ret; eauto].
Qed.

Lemma execute_normal c d s : exists r s', execute c d s = (Normal r, s').
Proof.
  unfold execute, bind. destruct (execute_loop_normal (steps c) d s) as (x & s' & ->).
  destruct x; unfold ret; eauto.
Qed.

Lemma execute_loop_app pre post : forall d s,
  execute_loop (pre ++ post) d s =
    match execute_loop pre d s with
    | (Normal (Continue v), s1) => execute_loop post v s1
    | other => other
    end.
Proof.
  induction pre as [|step rest IH]; intros d s; simpl; [reflexivity|].
  unfold bind. destruct (execute_step_normal step d s) as (x & s' & ->).
  destruct x as [v'|]; [apply IH | reflexivity].
Qed.

Lemma same_frame_refl s : same_frame s s.
Proof. repeat split. Qed.

Lemma same_frame_trans s1 s2 s3 :
  same_frame s1 s2 -> same_frame s2 s3 -> same_frame s1 s3.
Proof. unfold same_frame. intuition congruence. Qed.

Lemma execute_step_frame step v s :
  same_frame s (snd (execute_step step v s)).
Proof.
  destruct (call (s_handler step) v (user s)) as [[r|e] u] eqn:Hc.
  - rewrite (execute_step_return _ _ _ _ _ Hc). repeat split.
  - rewrite (execute_step_throw _ _ _ _ _ Hc). repeat split.
Qed.

Lemma execute_loop_frame ss : forall v s,
  same_frame s (snd (execute_loop ss v s)).
Proof.
  induction ss as [|step rest IH]; intros v s; simpl.
  - apply same_frame_refl.
  - unfold bind. pose proof (execute_step_frame step v s) as Hf.
    destruct (execute_step step v s) as [[[v'|]|e] s1]; simpl in *; auto.
    eapply same_frame_trans; [exact Hf | apply IH].
Qed.

Lemma execute_frame c d s : same_frame s (snd (execute c d s)).
Proof.
  unfold execute, bind. pose proof (execute_loop_frame (steps c) d s) as Hf.
  destruct (execute_loop (steps c) d s) as [[[v'|]|e] s1]; simpl in *; auto.
Qed.

Lemma run_chain_normal chain d s : exists r s', run_chain chain d s = (Normal r, s').
Proof. destruct chain; simpl; [apply execute_normal | unfold ret; eauto]. Qed.

Lemma run_chain_frame chain d s : same_frame s (snd (run_chain chain d s)).
Proof. destruct chain; simpl; [apply execute_frame | apply same_frame_refl]. Qed.

Lemma nonempty_ltb {A} (ls : list A) : ls <> [] -> Nat.ltb 0 (length ls) = true.
Proof using. destruct ls; [congruence | reflexivity]. Qed.

(** When the evaluation for the per-name pass gives [undefined],
    [_emitInternal] is over. *)
Lemma emitInternal_suppressed event data ls s s1 :
  listeners (this s) !! event = Some ls ->
  ls <> [] ->
  run_chain (operationChains (this s) !! event) data s = (Normal VUndefined, s1) ->
  _emitInternal event data s = (Normal false, s1).
Proof.
  intros Hl Hne Hrun. unfold _emitInternal. unfold_m. rewrite Hl.
  rewrite bool_decide_eq_true_2 by eauto. simpl.
  rewrite (nonempty_ltb _ Hne), Hrun. reflexivity.
Qed.

Lemma wildcard_turn_suppressed chain event data l called s s1 :
  run_chain chain data s = (Normal VUndefined, s1) ->
  wildcard_turn chain event data l called s = (Normal called, s1).
Proof. intros Hrun. unfold wildcard_turn. unfold_m. rewrite Hrun. reflexivity. Qed.

Lemma emitToListener_suppressed event data id ls l s s1 :
  listeners (this s) !! event = Some ls ->
  List.find (fun l => String.eqb (l_id l) id) ls = Some l ->
  run_chain (operationChains (this s) !! event) data s = (Normal VUndefined, s1) ->
  emitToListener event data id s = (Normal false, s1).
Proof.
  intros Hl Hf Hrun. unfold emitToListener. unfold_m.
  rewrite Hl, Hf, Hrun. reflexivity.
Qed.

(** C4: [execute] never throws; a raising transform ends the evaluation
    with [undefined] and no later step runs; past a raising filter or tap
    the evaluation goes on with the remaining steps and the running value
    unchanged; a raising filter leaves the loop as a filter that returned
    true does. *)
Theorem execute_failure_policy :
  (forall c d s, exists r s', execute c d s = (Normal r, s'))
  /\ (forall c pre step post eventData v e u s s1,
        steps c = pre ++ step :: post ->
        execute_loop pre eventData s = (Normal (Continue v), s1) ->
        call (s_handler step) v (user s1) = (Throw e, u) ->
        match s_type step with
        | transform_t =>
            execute c eventData s = (Normal VUndefined, after_throw step v e u s1)
        | _ =>
            execute c eventData s =
              execute {| eventType := eventType c; steps := post |} v
                (after_throw step v e u s1)
        end)
  /\ (forall h v s,
        match call h v (user s) with
        | (Throw _, _) =>
            fst (execute_step {| s_type := filter_t; s_handler := h |} v s)
            = Normal (Continue v)
        | (Normal r, _) =>
            fst (execute_step {| s_type := filter_t; s_handler := h |} v s)
            = Normal (if truthy r then Continue v else ReturnUndefined)
        end).
Proof.
  split; [apply execute_normal|]. split.
  - intros c pre step post eventData v e u s s1 Hsteps Hpre Hcall.
    assert (Hloop : execute_loop (steps c) eventData s =
              match s_type step with
              | transform_t => (Normal ReturnUndefined, after_throw step v e u s1)
              | _ => execute_loop post v (after_throw step v e u s1)
              end).
    { rewrite Hsteps, execute_loop_app, Hpre. simpl. unfold bind.
      rewrite (execute_step_throw _ _ _ _ _ Hcall). destruct (s_type step); reflexivity. }
    unfold execute, bind. rewrite Hloop. simpl. destruct (s_type step); reflexivity.
  - intros h v s.
    destruct (call h v (user s)) as [[r|e] u] eqn:Hcall.
    + rewrite (execute_step_return {| s_type := filter_t; s_handler := h |} v r u s Hcall).
      reflexivity.
    + rewrite (execute_step_throw {| s_type := filter_t; s_handler := h |} v e u s Hcall).
      reflexivity.
Qed.

(** C9: when the filter at position [length pre] returns a falsy value,
    [execute] returns [undefined] in the state right after that call, so no
    later step ran; and each place that evaluates the chain then invokes no
    listener: the per-name pass, a wildcard turn, a targeted emission. *)
Theorem filter_false_suppresses c pre h post eventData v r u s s1 :
  steps c = pre ++ {| s_type := filter_t; s_handler := h |} :: post ->
  execute_loop pre eventData s = (Normal (Continue v), s1) ->
  call h v (user s1) = (Normal r, u) ->
  truthy r = false ->
  let s2 := after_call {| s_type := filter_t; s_handler := h |} v u s1 in
  execute c eventData s = (Normal VUndefined, s2)
  /\ trace s2 = trace s1 ++ [Called h v]
  /\ (forall event ls,
        operationChains (this s) !! event = Some c ->
        listeners (this s) !! event = Some ls -> ls <> [] ->
        _emitInternal event eventData s = (Normal false, s2))
  /\ (forall event l called,
        wildcard_turn (Some c) event eventData l called s = (Normal called, s2))
  /\ (forall event id ls l,
        operationChains (this s) !! event = Some c ->
        listeners (this s) !! event = Some ls ->
        List.find (fun l => String.eqb (l_id l) id) ls = Some l ->
        emitToListener event eventData id s = (Normal false, s2)).
Proof.
  intros Hsteps Hpre Hcall Hr s2.
  assert (Hex : execute c eventData s = (Normal VUndefined, s2)).
  { unfold execute, bind. rewrite Hsteps, execute_loop_app, Hpre. simpl.
    unfold bind.
    rewrite (execute_step_return {| s_type := filter_t; s_handler := h |} v r u s1 Hcall).
    simpl. rewrite Hr. reflexivity. }
  split; [exact Hex|]. split; [reflexivity|]. split; [|split].
  - intros event ls Hc Hl Hne. eapply emitInternal_suppressed; eauto.
    rewrite Hc. exact Hex.
  - intros event l called. apply wildcard_turn_suppressed. exact Hex.
  - intros event id ls l Hc Hl Hf. eapply emitToListener_suppressed; eauto.
    rewrite Hc. exact Hex.
Qed.

(** ** Targeted emission *)

Section Retimed.

Variables (dt : gmap string positive) (dd tt td : gmap string Z).
Variables (c : Z) (ts : list Timer) (n : positive).

Let rt := with_timing dt dd tt td c ts n.

Lemma execute_step_retimed step v s :
  execute_step step v (rt s) = on_state rt (execute_step step v s).
Proof.
  destruct (call (s_handler step) v (user s)) as [[r|e] u] eqn:Hc.
  - rewrite (execute_step_return step v r u s Hc).
    rewrite (execute_step_return step v r u (rt s) Hc). reflexivity.
  - rewrite (execute_step_throw step v e u s Hc).
    rewrite (execute_step_throw step v e u (rt s) Hc). reflexivity.
Qed.

Lemma execute_loop_retimed ss : forall v s,
  execute_loop ss v (rt s) = on_state rt (execute_loop ss v s).
Proof.
  induction ss as [|step rest IH]; intros v s; simpl; [reflexivity|].
  unfold bind. rewrite execute_step_retimed.
  destruct (execute_step step v s) as [[[v'|]|e] s1]; simpl; auto.
Qed.

Lemma run_chain_retimed chain d s :
  run_chain chain d (rt s) = on_state rt (run_chain chain d s).
Proof.
  destruct chain as [ch|]; simpl; [|reflexivity].
  unfold execute, bind. rewrite execute_loop_retimed.
  destruct (execute_loop (steps ch) d s) as [[[v'|]|e] s1]; reflexivity.
Qed.

Lemma emitToListener_retimed event data listenerId s :
  emitToListener event data listenerId (rt s)
  = on_state rt (emitToListener event data listenerId s).
Proof.
  unfold emitToListener. unfold_m. simpl.
  destruct (listeners (this s) !! event) as [ls|]; [|reflexivity].
  destruct (List.find _ ls) as [l|]; [|reflexivity].
  rewrite run_chain_retimed.
  destruct (run_chain (operationChains (this s) !! event) data s) as [[v|e] s1];
    [|reflexivity].
  simpl. destruct (is_undefined v); [reflexivity|].
  unfold apply_fn. simpl. destruct (call (l_handler l) v (user s1)) as [[r|e] u]; reflexivity.
Qed.

End Retimed.

Lemma emitToListener_frame event data listenerId s :
  same_frame s (snd (emitToListener event data listenerId s)).
Proof.
  unfold emitToListener. unfold_m.
  destruct (listeners (this s) !! event) as [ls|]; [|apply same_frame_refl].
  destruct (List.find _ ls) as [l|]; [|apply same_frame_refl].
  pose proof (run_chain_frame (operationChains (this s) !! event) data s) as Hf.
  destruct (run_chain (operationChains (this s) !! event) data s) as [[v|e] s1];
    simpl in *; [|exact Hf].
  destruct (is_undefined v); [exact Hf|].
  unfold apply_fn. simpl. destruct (call (l_handler l) v (user s1)) as [[r|e] u];
    simpl; exact Hf.
Qed.

Lemma find_id_some (ls : list ListenerWithId) listenerId l :
  List.find (fun l => String.eqb (l_id l) listenerId) ls = Some l ->
  In l ls /\ l_id l = listenerId.
Proof using.
  intros Hf. apply List.find_some in Hf as [Hin Heq].
  split; [exact Hin | apply String.eqb_eq; exact Heq].
Qed.

Lemma find_id_none (ls : list ListenerWithId) listenerId :
  List.find (fun l => String.eqb (l_id l) listenerId) ls = None ->
  forall l, In l ls -> l_id l <> listenerId.
Proof using.
  intros Hf l Hin Heq. pose proof (List.find_none _ _ Hf l Hin) as Hn. simpl in Hn.
  apply String.eqb_neq in Hn. contradiction.
Qed.

(** C7: targeted emission does not look at the timing configuration, the
    clock or the timers and schedules nothing; it calls at most the
    listener of the event whose id matches; it returns false when there is
    none, when the evaluation of the chain gives [undefined] and when the
    handler throws, and true when the handler returns. *)
Theorem emitToListener_spec event data listenerId s :
  (forall dt dd tt td c ts n,
      emitToListener event data listenerId (with_timing dt dd tt td c ts n s)
      = on_state (with_timing dt dd tt td c ts n)
          (emitToListener event data listenerId s))
  /\ same_frame s (snd (emitToListener event data listenerId s))
  /\ (listeners (this s) !! event = None ->
       emitToListener event data listenerId s = (Normal false, s))
  /\ (forall ls,
        listeners (this s) !! event = Some ls ->
        (forall l, In l ls -> l_id l <> listenerId) ->
        emitToListener event data listenerId s = (Normal false, s))
  /\ (forall ls l,
        listeners (this s) !! event = Some ls ->
        List.find (fun l => String.eqb (l_id l) listenerId) ls = Some l ->
        In l ls /\ l_id l = listenerId
        /\ exists v s1,
            run_chain (operationChains (this s) !! event) data s = (Normal v, s1)
            /\ match v, call (l_handler l) v (user s1) with
               | VUndefined, _ =>
                   emitToListener event data listenerId s = (Normal false, s1)
               | _, (Normal _, u) =>
                   emitToListener event data listenerId s
                   = (Normal true, with_user u (log (Called (l_handler l) v) s1))
               | _, (Throw e, u) =>
                   emitToListener event data listenerId s
                   = (Normal false,
                      log (Errored (specific_listener_error listenerId event) e)
                        (with_user u (log (Called (l_handler l) v) s1)))
               end).
Proof.
  split; [intros; apply emitToListener_retimed|].
  split; [apply emitToListener_frame|].
  split; [|split].
  - intros Hl. unfold emitToListener. unfold_m. rewrite Hl. reflexivity.
  - intros ls Hl Hno. unfold emitToListener. unfold_m. rewrite Hl.
    destruct (List.find _ ls) as [l|] eqn:Hf; [|reflexivity].
    apply find_id_some in Hf as [Hin Hid]. destruct (Hno l Hin Hid).
  - intros ls l Hl Hf. destruct (find_id_some _ _ _ Hf) as [Hin Hid].
    split; [exact Hin|]. split; [exact Hid|].
    destruct (run_chain_normal (operationChains (this s) !! event) data s)
      as (v & s1 & Hrun).
    exists v, s1. split; [exact Hrun|].
    unfold emitToListener. unfold_m. rewrite Hl, Hf, Hrun.
    unfold apply_fn, specific_listener_error. simpl.
    destruct v; simpl; try reflexivity;
      destruct (call (l_handler l) _ (user s1)) as [[r|e] u]; reflexivity.
Qed.

(** ** Unsubscribing *)

Lemma with_this_id s : with_this (this s) s = s.
Proof. destruct s; reflexivity. Qed.

Lemma set_wildcardListeners_id e : set_wildcardListeners (wildcardListeners e) e = e.
Proof using. destruct e; reflexivity. Qed.

Lemma filter_length_eq {A} (P : A -> Prop) `{!forall x, Decision (P x)} (l : list A) :
  length (filter P l) = length l -> filter P l = l.
Proof using.
  induction l as [|x l IH]; [reflexivity|].
  rewrite filter_cons. destruct (decide (P x)); simpl; intros Hlen.
  - f_equal. apply IH. lia.
  - pose proof (length_filter P l). lia.
Qed.

Lemma filter_idem {A} (P : A -> Prop) `{!forall x, Decision (P x)} (l : list A) :
  filter P (filter P l) = filter P l.
Proof using.
  induction l as [|x l IH]; [reflexivity|].
  rewrite filter_cons. destruct (decide (P x)) as [Hp|Hp]; [|exact IH].
  rewrite filter_cons. destruct (decide (P x)); [|contradiction]. f_equal. exact IH.
Qed.

Lemma off_keeps_handler handler l :
  off_keeps (inr handler) l = true <-> l_handler l <> handler.
Proof using.
  simpl. rewrite negb_true_iff. split.
  - intros Hne Heq. rewrite Heq, Pos.eqb_refl in Hne. discriminate.
  - intros Hne. apply Pos.eqb_neq. exact Hne.
Qed.

(** [off] leaves in place exactly the registrations that [off_keeps]
    accepts, and repeating it changes nothing more. *)
Lemma off_registrations event idOrHandler s :
  let kept := filter (fun l => off_keeps idOrHandler l = true)
                (registrations (this s) event) in
  exists s1,
    off event idOrHandler s
      = (Normal (negb (Nat.eqb (length kept) (length (registrations (this s) event)))), s1)
    /\ registrations (this s1) event = kept
    /\ off event idOrHandler s1 = (Normal false, s1).
Proof.
  unfold registrations, off. unfold_m.
  destruct (String.eqb event "*") eqn:Hw.
  - eexists. split; [reflexivity|]. simpl. split; [reflexivity|].
    rewrite filter_idem, Nat.eqb_refl. reflexivity.
  - destruct (listeners (this s) !! event) as [ls|] eqn:Hl; simpl.
    + destruct (Nat.eqb (length (filter _ ls)) (length ls)) eqn:Hlen.
      * exists s. split; [reflexivity|]. rewrite Hl. simpl.
        apply Nat.eqb_eq, filter_length_eq in Hlen. rewrite Hlen.
        split; [reflexivity|]. rewrite Nat.eqb_refl. reflexivity.
      * eexists. split; [reflexivity|]. simpl. rewrite lookup_insert_eq. simpl.
        split; [reflexivity|]. rewrite filter_idem, Nat.eqb_refl. reflexivity.
    + exists s. split; [reflexivity|]. rewrite Hl. simpl. split; reflexivity.
Qed.

Lemma removed_iff_registered handler (ls : list ListenerWithId) :
  negb (Nat.eqb (length (filter (fun l => l_handler l <> handler) ls)) (length ls))
  = existsb (fun l => Pos.eqb (l_handler l) handler) ls.
Proof using. clear call.
  induction ls as [|x ls IH]; [reflexivity|].
  rewrite filter_cons. simpl. destruct (decide (l_handler x <> handler)) as [Hne|Heq].
  - apply Pos.eqb_neq in Hne. rewrite Hne. simpl. exact IH.
  - assert (Hh : l_handler x = handler) by (destruct (decide (l_handler x = handler)); tauto).
    rewrite Hh, Pos.eqb_refl. simpl.
    pose proof (length_filter (fun l => l_handler l <> handler) ls) as Hle.
    apply negb_true_iff, Nat.eqb_neq. intros Hlen. rewrite Hlen in Hle.
    exact (Nat.nle_succ_diag_l _ Hle).
Qed.

(** [off] does not touch the registrations of another name. *)
Lemma off_others event idOrHandler s other :
  other <> event ->
  registrations (this (snd (off event idOrHandler s))) other = registrations (this s) other.
Proof.
  intros Hne. unfold off, registrations. unfold_m. simpl.
  destruct (String.eqb event "*") eqn:Hw; simpl.
  - apply String.eqb_eq in Hw. subst event.
    apply String.eqb_neq in Hne. rewrite Hne. reflexivity.
  - destruct (listeners (this s) !! event) as [ls|]; simpl; [|reflexivity].
    destruct (Nat.eqb _ _); simpl; [reflexivity|].
    destruct (String.eqb other "*"); [reflexivity|].
    rewrite lookup_insert_ne by congruence. reflexivity.
Qed.

(** [off] changes nothing but the listeners. *)
Lemma off_settings event idOrHandler s :
  let e := this s in
  let e' := this (snd (off event idOrHandler s)) in
  maxListeners e' = maxListeners e /\ operationChains e' = operationChains e
  /\ debounceDelays e' = debounceDelays e /\ throttleDelays e' = throttleDelays e
  /\ debounceTimers e' = debounceTimers e /\ throttleTimers e' = throttleTimers e
  /\ idCounter e' = idCounter e
  /\ user (snd (off event idOrHandler s)) = user s
  /\ trace (snd (off event idOrHandler s)) = trace s
  /\ same_frame (with_this (this s) (snd (off event idOrHandler s))) s.
Proof.
  unfold off. unfold_m. simpl.
  destruct (String.eqb event "*"); simpl; [repeat split|].
  destruct (listeners (this s) !! event) as [ls|]; simpl; [|repeat split].
  destruct (Nat.eqb _ _); repeat split.
Qed.

(** C10: one [off] with a handler removes every registration of that
    handler for the name (or for the wildcard), keeps every registration of
    another handler, in order, and reports a removal when there was one;
    the same call again returns false and changes nothing.  The
    registrations of every other name (the wildcard listeners among them)
    stay as they were, and so does everything else: the cap, the chains, the
    delays, the timers and their records, the counter, the user state, the
    trace. *)
Theorem off_by_handler_removes_all event handler s :
  exists s1,
    off event (inr handler) s
      = (Normal (existsb (fun l => Pos.eqb (l_handler l) handler)
                   (registrations (this s) event)), s1)
    /\ registrations (this s1) event
        = filter (fun l => l_handler l <> handler) (registrations (this s) event)
    /\ (forall l, In l (registrations (this s1) event) <->
                  In l (registrations (this s) event) /\ l_handler l <> handler)
    /\ off event (inr handler) s1 = (Normal false, s1)
    /\ (forall other, other <> event ->
          registrations (this s1) other = registrations (this s) other)
    /\ maxListeners (this s1) = maxListeners (this s)
    /\ operationChains (this s1) = operationChains (this s)
    /\ debounceDelays (this s1) = debounceDelays (this s)
    /\ throttleDelays (this s1) = throttleDelays (this s)
    /\ debounceTimers (this s1) = debounceTimers (this s)
    /\ throttleTimers (this s1) = throttleTimers (this s)
    /\ idCounter (this s1) = idCounter (this s)
    /\ user s1 = user s /\ trace s1 = trace s
    /\ clock s1 = clock s /\ timers s1 = timers s /\ nextTimer s1 = nextTimer s.
Proof.
  destruct (off_registrations event (inr handler) s) as (s1 & Hoff & Hregs & Hagain).
  assert (Hfilter : filter (fun l => off_keeps (inr handler) l = true)
                      (registrations (this s) event)
                    = filter (fun l => l_handler l <> handler)
                        (registrations (this s) event)).
  { apply list_filter_iff. intros l. apply off_keeps_handler. }
  assert (Hs1 : s1 = snd (off event (inr handler) s)) by (rewrite Hoff; reflexivity).
  pose proof (off_settings event (inr handler) s) as Hset. rewrite <- Hs1 in Hset.
  simpl in Hset.
  destruct Hset as (Hm & Hc & Hdd & Htd & Hdt & Htt & Hn & Hu & Htr & _ & Hclk & Hts & Hnt).
  exists s1. rewrite Hoff, Hregs, Hfilter.
  split; [|split; [reflexivity|split; [|split; [exact Hagain|split]]]].
  - rewrite removed_iff_registered. reflexivity.
  - intros l. rewrite <- !list_elem_of_In, list_elem_of_filter.
    split; [intros [H1 H2]; split; assumption | intros [H1 H2]; split; assumption].
  - intros other Hne. rewrite Hs1. apply off_others, Hne.
  - simpl in Hclk, Hts, Hnt. repeat (split; [congruence|]). congruence.
Qed.

(** ** Removing all listeners of a name *)

Lemma other_timer_True (a b : positive) : Is_true (negb (Pos.eqb a b)) <-> a <> b.
Proof using. clear call. destruct (Pos.eqb_spec a b); simpl; tauto. Qed.

Lemma removeAllListeners_named event s :
  event <> "" ->
  removeAllListeners (Some event) s = (Normal tt, without_listeners event s).
Proof.
  intros Hne. unfold removeAllListeners, without_listeners, clearTimeout. unfold_m.
  simpl. apply String.eqb_neq in Hne. rewrite Hne. simpl.
  destruct (debounceTimers (this s) !! event) as [timer|] eqn:Ht; simpl.
  - reflexivity.
  - rewrite (delete_id (debounceTimers (this s)) event Ht). reflexivity.
Qed.

(** ** The gates of [emit] *)

Lemma throttle_gate_eq event s :
  throttle_gate event (throttleDelays (this s) !! event) s
  = if throttled (this s) (clock s) event then (Normal true, s)
    else (Normal false, stamped event s).
Proof.
  unfold throttle_gate, throttled, stamped. unfold_m.
  destruct (truthy_num (throttleDelays (this s) !! event)); simpl; [|reflexivity].
  destruct (truthy_num (throttleTimers (this s) !! event)); simpl; [|reflexivity].
  destruct (_ <? _); reflexivity.
Qed.

Lemma emit_eq event data s :
  emit event data s
  = if throttled (this s) (clock s) event then (Normal false, s)
    else debounce_or_deliver event data (debounceDelays (this s) !! event)
           (stamped event s).
Proof.
  unfold emit. unfold_m. rewrite throttle_gate_eq.
  destruct (throttled (this s) (clock s) event); reflexivity.
Qed.

Lemma debounce_or_deliver_eq event data s :
  debounce_or_deliver event data (debounceDelays (this s) !! event) s
  = if truthy_num (debounceDelays (this s) !! event)
    then (Normal true, deferred event data (default 0 (debounceDelays (this s) !! event)) s)
    else _emitInternal event data s.
Proof.
  unfold debounce_or_deliver, deferred, setTimeout, clearTimeout. unfold_m.
  destruct (truthy_num (debounceDelays (this s) !! event)); [|reflexivity].
  destruct (debounceTimers (this s) !! event); reflexivity.
Qed.

Lemma stamped_debounceDelays event s :
  debounceDelays (this (stamped event s)) = debounceDelays (this s).
Proof. unfold stamped. destruct (truthy_num _); reflexivity. Qed.




(** ** Computations that return and leave the emitter and the timers alone *)

Lemma returns_ret {A} (a : A) : returns (ret a).
Proof. intros s. unfold ret. eauto. Qed.

Lemma returns_bind {A B} (m : M A) (k : A -> M B) :
  returns m -> (forall a, returns (k a)) -> returns (bind m k).
Proof.
  intros Hm Hk s. unfold bind. destruct (Hm s) as (a & s' & ->). apply Hk.
Qed.

Lemma returns_try_catch {A} (m : M A) (h : value -> M A) :
  (forall e, returns (h e)) -> returns (try_catch m h).
Proof.
  intros Hh s. unfold try_catch. destruct (m s) as [[a|e] s']; [eauto | apply Hh].
Qed.

Lemma returns_console_error msg err : returns (console_error msg err).
Proof. intros s. unfold console_error, modify. eauto. Qed.

Lemma keeps_frame_ret {A} (a : A) : keeps_frame (ret a).
Proof. intros s. apply same_frame_refl. Qed.

Lemma keeps_frame_bind {A B} (m : M A) (k : A -> M B) :
  keeps_frame m -> (forall a, keeps_frame (k a)) -> keeps_frame (bind m k).
Proof.
  intros Hm Hk s. unfold bind. pose proof (Hm s) as H1.
  destruct (m s) as [[a|e] s']; simpl in *; [|exact H1].
  eapply same_frame_trans; [exact H1 | apply Hk].
Qed.

Lemma keeps_frame_try_catch {A} (m : M A) (h : value -> M A) :
  keeps_frame m -> (forall e, keeps_frame (h e)) -> keeps_frame (try_catch m h).
Proof.
  intros Hm Hh s. unfold try_catch. pose proof (Hm s) as H1.
  destruct (m s) as [[a|e] s']; simpl in *; [exact H1|].
  eapply same_frame_trans; [exact H1 | apply Hh].
Qed.

Lemma keeps_frame_console_error msg err : keeps_frame (console_error msg err).
Proof. intros s. repeat split. Qed.

Lemma keeps_frame_apply_fn h arg : keeps_frame (apply_fn h arg).
Proof.
  intros s. unfold apply_fn. simpl.
  destruct (call h arg (user s)) as [c u]. repeat split.
Qed.

Lemma keeps_frame_run_chain chain d : keeps_frame (run_chain chain d).
Proof. intros s. apply run_chain_frame. Qed.

Lemma returns_run_chain chain d : returns (run_chain chain d).
Proof. intros s. apply run_chain_normal. Qed.

Create HintDb midder discriminated.

#[local] Hint Resolve returns_ret returns_bind returns_try_catch returns_console_error
  returns_run_chain keeps_frame_ret keeps_frame_bind keeps_frame_try_catch
  keeps_frame_console_error keeps_frame_apply_fn keeps_frame_run_chain : midder.

Lemma returns_for_listeners ls event d : returns (for_listeners ls event d).
Proof. induction ls; simpl; auto with midder. Qed.

Lemma keeps_frame_for_listeners ls event d : keeps_frame (for_listeners ls event d).
Proof. induction ls; simpl; auto 7 with midder. Qed.

Lemma returns_wildcard_turn chain event d l called :
  returns (wildcard_turn chain event d l called).
Proof. unfold wildcard_turn. auto with midder. Qed.

Lemma keeps_frame_wildcard_turn chain event d l called :
  keeps_frame (wildcard_turn chain event d l called).
Proof.
  unfold wildcard_turn. apply keeps_frame_try_catch; [|auto with midder].
  apply keeps_frame_bind; [auto with midder|].
  intros v. destruct (negb (is_undefined v)); auto with midder.
Qed.

Lemma returns_for_wildcards ls chain event d : forall called,
  returns (for_wildcards ls chain event d called).
Proof.
  induction ls; intros called; simpl; [auto with midder|].
  apply returns_bind; [apply returns_wildcard_turn | auto].
Qed.

Lemma keeps_frame_for_wildcards ls chain event d : forall called,
  keeps_frame (for_wildcards ls chain event d called).
Proof.
  induction ls; intros called; simpl; [auto with midder|].
  apply keeps_frame_bind; [apply keeps_frame_wildcard_turn | auto].
Qed.

#[local] Hint Resolve returns_for_listeners keeps_frame_for_listeners
  returns_for_wildcards keeps_frame_for_wildcards : midder.

Lemma returns_emitInternal event d : returns (_emitInternal event d).
Proof.
  intros s. unfold _emitInternal, get_this. unfold bind at 1.
  destruct (negb _ && _); [apply returns_ret|].
  destruct (listeners (this s) !! event) as [ls|]; [|apply returns_for_wildcards].
  destruct (Nat.ltb 0 (length ls)); [|apply returns_for_wildcards].
  apply returns_bind; [auto with midder|].
  intros v. destruct (is_undefined v); auto with midder.
Qed.

Lemma keeps_frame_emitInternal event d : keeps_frame (_emitInternal event d).
Proof.
  intros s. unfold _emitInternal, get_this. unfold bind at 1.
  destruct (negb _ && _); [apply keeps_frame_ret|].
  destruct (listeners (this s) !! event) as [ls|]; [|apply keeps_frame_for_wildcards].
  destruct (Nat.ltb 0 (length ls)); [|apply keeps_frame_for_wildcards].
  apply keeps_frame_bind; [auto with midder|].
  intros v. destruct (is_undefined v); auto with midder.
Qed.

(** ** Suppression and the wildcard pass *)

Lemma wildcard_turn_delivers chain event data l called v s s1 :
  run_chain chain data s = (Normal v, s1) ->
  is_undefined v = false ->
  wildcard_turn chain event data l called s
  = match call (l_handler l) (envelope event v) (user s1) with
    | (Normal _, u) =>
        (Normal true, with_user u (log (Called (l_handler l) (envelope event v)) s1))
    | (Throw e, u) =>
        (Normal called,
         log (Errored (wildcard_listener_error event) e)
           (with_user u (log (Called (l_handler l) (envelope event v)) s1)))
    end.
Proof.
  intros Hrun Hv. unfold wildcard_turn, apply_fn, wildcard_listener_error. unfold_m.
  rewrite Hrun, Hv. simpl.
  destruct (call (l_handler l) (envelope event v) (user s1)) as [[r|e] u]; reflexivity.
Qed.

(** The two ways into the loop over the wildcard listeners. *)
Lemma emitInternal_wildcards_only event data s :
  default [] (listeners (this s) !! event) = [] ->
  _emitInternal event data s
  = for_wildcards (wildcardListeners (this s)) (operationChains (this s) !! event)
      event data false s.
Proof.
  intros Hl. unfold _emitInternal. unfold_m.
  destruct (listeners (this s) !! event) as [ls|]; simpl in Hl.
  - subst ls. rewrite bool_decide_eq_true_2 by eauto. reflexivity.
  - rewrite bool_decide_eq_false_2 by (intros [? ?]; discriminate). simpl.
    destruct (wildcardListeners (this s)); reflexivity.
Qed.

Lemma emitInternal_after_listeners event data ls v s s1 :
  listeners (this s) !! event = Some ls -> ls <> [] ->
  run_chain (operationChains (this s) !! event) data s = (Normal v, s1) ->
  is_undefined v = false ->
  _emitInternal event data s
  = for_wildcards (wildcardListeners (this s)) (operationChains (this s) !! event)
      event data true (snd (for_listeners ls event v s1)).
Proof.
  intros Hl Hne Hrun Hv. unfold _emitInternal. unfold_m. rewrite Hl.
  rewrite bool_decide_eq_true_2 by eauto. simpl.
  rewrite (nonempty_ltb _ Hne), Hrun, Hv.
  destruct (returns_for_listeners ls event v s1) as ([] & s2 & Hfor).
  rewrite Hfor. reflexivity.
Qed.

(** One turn of the loop over the wildcard listeners, and the rest of the
    loop. *)
Lemma for_wildcards_turn l rest chain event data called v s s1 :
  run_chain chain data s = (Normal v, s1) ->
  for_wildcards (l :: rest) chain event data called s
  = if is_undefined v then for_wildcards rest chain event data called s1
    else
      match call (l_handler l) (envelope event v) (user s1) with
      | (Normal _, u) =>
          for_wildcards rest chain event data true
            (with_user u (log (Called (l_handler l) (envelope event v)) s1))
      | (Throw e, u) =>
          for_wildcards rest chain event data called
            (log (Errored (wildcard_listener_error event) e)
               (with_user u (log (Called (l_handler l) (envelope event v)) s1)))
      end.
Proof.
  intros Hrun. simpl. unfold bind. destruct (is_undefined v) eqn:Hv.
  - destruct v; try discriminate Hv.
    rewrite (wildcard_turn_suppressed _ _ _ _ _ _ _ Hrun). reflexivity.
  - rewrite (wildcard_turn_delivers _ _ _ _ _ _ _ _ Hrun Hv).
    destruct (call (l_handler l) (envelope event v) (user s1)) as [[r|e] u]; reflexivity.
Qed.

(** C1 (amended): when the name has per-name listeners and the evaluation
    of the chain for the per-name pass gives [undefined], [_emitInternal]
    returns false in the state that this one evaluation left: no per-name
    listener and no wildcard listener is called and the chain is not
    evaluated again; [emit] does the same for a name without truthy
    throttle and debounce delays.  The loop over the wildcard listeners is
    reached in two ways: when the name has no listener of its own, with
    [called] false, and after a per-name pass that was not suppressed and
    called the listeners of the name, with [called] true.  Each turn of
    the loop evaluates the chain on the emitted payload again; when the
    result is [undefined] the listener is not called, otherwise it is called
    with the envelope, and [called] becomes true when it returns; the loop
    returns [called]. *)
Theorem emit_suppressed_per_name event data ls s s1 :
  listeners (this s) !! event = Some ls ->
  ls <> [] ->
  run_chain (operationChains (this s) !! event) data s = (Normal VUndefined, s1) ->
  _emitInternal event data s = (Normal false, s1)
  /\ (truthy_num (throttleDelays (this s) !! event) = false ->
       truthy_num (debounceDelays (this s) !! event) = false ->
       emit event data s = (Normal false, s1))
  /\ (forall s',
        default [] (listeners (this s') !! event) = [] ->
        _emitInternal event data s'
        = for_wildcards (wildcardListeners (this s')) (operationChains (this s') !! event)
            event data false s')
  /\ (forall ls' v s' s1',
        listeners (this s') !! event = Some ls' -> ls' <> [] ->
        run_chain (operationChains (this s') !! event) data s' = (Normal v, s1') ->
        is_undefined v = false ->
        _emitInternal event data s'
        = for_wildcards (wildcardListeners (this s')) (operationChains (this s') !! event)
            event data true (snd (for_listeners ls' event v s1')))
  /\ (forall chain called s', for_wildcards [] chain event data called s' = (Normal called, s'))
  /\ (forall chain l rest called v s' s1',
        run_chain chain data s' = (Normal v, s1') ->
        for_wildcards (l :: rest) chain event data called s'
        = if is_undefined v then for_wildcards rest chain event data called s1'
          else
            match call (l_handler l) (envelope event v) (user s1') with
            | (Normal _, u) =>
                for_wildcards rest chain event data true
                  (with_user u (log (Called (l_handler l) (envelope event v)) s1'))
            | (Throw e, u) =>
                for_wildcards rest chain event data called
                  (log (Errored (wildcard_listener_error event) e)
                     (with_user u (log (Called (l_handler l) (envelope event v)) s1')))
            end).
Proof.
  intros Hl Hne Hrun.
  assert (Hin : _emitInternal event data s = (Normal false, s1))
    by (eapply emitInternal_suppressed; eauto).
  split; [exact Hin|]. split; [|split; [|split; [|split]]].
  - intros Ht Hd. rewrite emit_eq. unfold throttled, stamped. rewrite Ht. simpl.
    rewrite debounce_or_deliver_eq, Hd. exact Hin.
  - intros s'. apply emitInternal_wildcards_only.
  - intros ls' v s' s1'. apply emitInternal_after_listeners.
  - reflexivity.
  - intros chain l rest called v s' s1'. apply for_wildcards_turn.
Qed.

(** ** Throttle *)

(** C6 (amended): with a throttle delay [D] other than 0 set for the name
    and a last-fire record [L] other than 0, an emission less than [D] after
    [L] returns false and changes nothing, whatever the debounce setting;
    an emission at [L + D] or later records the current time as the
    last-fire time and goes on with the debounce block or the delivery. *)
Theorem emit_throttle event data D L s :
  throttleDelays (this s) !! event = Some D -> D <> 0 ->
  throttleTimers (this s) !! event = Some L -> L <> 0 ->
  (clock s - L < D -> emit event data s = (Normal false, s))
  /\ (D <= clock s - L ->
       let s' := with_this (set_throttleTimers (<[event := clock s]> (throttleTimers (this s)))
                              (this s)) s in
       emit event data s
       = debounce_or_deliver event data (debounceDelays (this s) !! event) s'
       /\ throttleTimers (this (snd (emit event data s))) !! event = Some (clock s)).
Proof.
  intros HD HD0 HL HL0.
  assert (Htd : truthy_num (throttleDelays (this s) !! event) = true).
  { rewrite HD. simpl. apply negb_true_iff, Z.eqb_neq. exact HD0. }
  assert (Htl : truthy_num (throttleTimers (this s) !! event) = true).
  { rewrite HL. simpl. apply negb_true_iff, Z.eqb_neq. exact HL0. }
  assert (Hthr : throttled (this s) (clock s) event = (clock s - L <? D)).
  { unfold throttled. rewrite Htd, Htl, HD, HL. reflexivity. }
  split.
  - intros Hlt. rewrite emit_eq, Hthr. apply Z.ltb_lt in Hlt. rewrite Hlt. reflexivity.
  - intros Hge s'. rewrite emit_eq, Hthr. apply Z.ltb_ge in Hge. rewrite Hge.
    assert (Hst : stamped event s = s') by (unfold stamped; rewrite Htd; reflexivity).
    rewrite Hst. split; [reflexivity|].
    change (debounceDelays (this s)) with (debounceDelays (this s')).
    rewrite debounce_or_deliver_eq.
    destruct (truthy_num (debounceDelays (this s') !! event)); simpl.
    + apply lookup_insert_eq.
    + destruct (keeps_frame_emitInternal event data s') as (Hthis & _).
      rewrite Hthis. simpl. apply lookup_insert_eq.
Qed.

(** A last-fire record of 0 ([Date.now()] returned 0) counts as no record:
    the emission is not dropped, however soon it comes. *)
Lemma throttle_record_at_zero event data s :
  throttleTimers (this s) !! event = Some 0 ->
  emit event data s
  = debounce_or_deliver event data (debounceDelays (this s) !! event) (stamped event s).
Proof.
  intros HL. rewrite emit_eq. unfold throttled. rewrite HL. simpl.
  rewrite andb_false_r. reflexivity.
Qed.

(** ** The listener cap *)

(** With the cap at 0, [on] writes no warning: what it adds to the trace is
    at most the note that an abort listener was attached. *)
Lemma on_silent_without_cap event listener signal s :
  maxListeners (this s) = 0 ->
  forall ev, In ev (trace (snd (on event listener signal s))) ->
    In ev (trace s) \/ exists sg id, ev = AbortListenerAdded sg event id.
Proof.
  intros Hcap ev. unfold on, addEventListener_abort. unfold_m. simpl. rewrite Hcap. simpl.
  destruct signal as [[sg [|]]|]; simpl;
    destruct (String.eqb event "*"); simpl; auto;
    rewrite in_app_iff; simpl; intros [H|[H|[]]]; eauto.
Qed.

(** At the cap, [on] warns. *)
Lemma on_warns_at_cap event listener s :
  String.eqb event "*" = false ->
  0 < maxListeners (this s) <= listenerCount (this s) event ->
  trace (snd (on event listener None s))
  = trace s ++ [Warned ("Max listeners exceeded for event: " +:+ event)].
Proof.
  intros Hw [Hpos Hle]. unfold on. unfold_m. simpl. rewrite Hw.
  apply Z.ltb_lt in Hpos. apply Z.leb_le in Hle. rewrite Hpos, Hle. reflexivity.
Qed.

(** C2, on the code: [new EventEmitter({ maxListeners: 0 })] yields an
    emitter whose cap is 10, not 0: [getMaxListeners()] reports 10, and [on]
    warns once ten listeners are registered for the name.  A negative option
    throws, and without the option the cap is 10. *)
Theorem new_EventEmitter_zero_cap (u : U) :
  (exists e, new_EventEmitter (Some (Some 0)) = Normal e
             /\ fst (getMaxListeners (initial_state e u)) = Normal 10
             /\ forall s event listener,
                  maxListeners (this s) = maxListeners e ->
                  String.eqb event "*" = false ->
                  10 <= listenerCount (this s) event ->
                  trace (snd (on event listener None s))
                  = trace s ++ [Warned ("Max listeners exceeded for event: " +:+ event)])
  /\ (forall n, n < 0 ->
        new_EventEmitter (Some (Some n)) = Throw (Error "maxListeners cannot be negative"))
  /\ (exists e, new_EventEmitter None = Normal e /\ maxListeners e = 10)
  /\ (exists e, new_EventEmitter (Some None) = Normal e /\ maxListeners e = 10).
Proof.
  split; [|split; [|split]].
  - eexists. split; [reflexivity|]. split; [reflexivity|].
    intros s event listener Hs Hw Hle. apply on_warns_at_cap; [exact Hw|].
    rewrite Hs. split; [reflexivity | exact Hle].
  - intros n Hn. unfold new_EventEmitter. simpl.
    assert (Hz : (n =? 0) = false) by (apply Z.eqb_neq; lia).
    apply Z.ltb_lt in Hn. rewrite Hz, Hn. reflexivity.
  - eexists. split; reflexivity.
  - eexists. split; reflexivity.
Qed.

(** ** Debounce *)

Lemma fire_eq t s :
  fire t s = (Normal tt, snd (_emitInternal (t_event t) (t_data t) (at_firing t s))).
Proof.
  unfold fire, debounce_callback. unfold_m.
  change (with_this _ (with_clock _ _)) with (at_firing t s).
  destruct (returns_emitInternal (t_event t) (t_data t) (at_firing t s)) as (r & s' & ->).
  reflexivity.
Qed.

Lemma fire_frame t s :
  same_frame (at_firing t s) (snd (fire t s)).
Proof. rewrite fire_eq. simpl. apply keeps_frame_emitInternal. Qed.

Lemma In_filter_other (ts : list Timer) (id : positive) t :
  In t (filter (fun t' => negb (Pos.eqb (t_id t') id)) ts) <-> In t ts /\ t_id t <> id.
Proof using. clear call. rewrite <- !list_elem_of_In, list_elem_of_filter, other_timer_True. tauto. Qed.

Lemma NoDup_map_filter {A B} (f : A -> B) (P : A -> Prop) `{!forall x, Decision (P x)}
    (l : list A) :
  NoDup (map f l) -> NoDup (map f (filter P l)).
Proof using. clear call.
  induction l as [|x l IH]; simpl; [auto|].
  rewrite !NoDup_cons. intros [Hx Hl]. rewrite filter_cons.
  destruct (decide (P x)); simpl; [|auto].
  rewrite NoDup_cons. split; [|auto].
  intros Hin. apply Hx. apply list_elem_of_In in Hin. apply in_map_iff in Hin as (y & Hy & Hin).
  apply list_elem_of_In, in_map_iff. exists y. split; [exact Hy|].
  apply list_elem_of_In. apply list_elem_of_In in Hin.
  apply list_elem_of_filter in Hin. tauto.
Qed.

Lemma same_id_same_timer (ts : list Timer) t t' :
  NoDup (map t_id ts) -> In t ts -> In t' ts -> t_id t = t_id t' -> t = t'.
Proof using. clear call.
  induction ts as [|x ts IH]; simpl; [tauto|].
  rewrite NoDup_cons. intros [Hx Hnd] [Ht|Ht] [Ht'|Ht'] Hid; subst; auto.
  - destruct Hx. apply list_elem_of_In, in_map_iff. eauto.
  - destruct Hx. apply list_elem_of_In, in_map_iff. eauto.
Qed.

Lemma timers_recorded_frame s s' :
  same_frame s s' -> timers_recorded s -> timers_recorded s'.
Proof.
  intros (Hthis & _ & Hts & Hn) Hwf. unfold timers_recorded.
  rewrite Hthis, Hts, Hn. exact Hwf.
Qed.

Lemma at_firing_recorded t s :
  timers_recorded s -> In t (timers s) -> timers_recorded (at_firing t s).
Proof.
  intros (Hrec & Hnd & Hlt) Hin. unfold timers_recorded. simpl. split; [|split].
  - intros t' Ht'. apply In_filter_other in Ht' as [Ht' Hid].
    rewrite lookup_delete_ne; [apply Hrec; exact Ht'|].
    intros Hev. apply Hid. pose proof (Hrec t Hin) as H1. pose proof (Hrec t' Ht') as H2.
    rewrite Hev in H1. congruence.
  - apply NoDup_map_filter. exact Hnd.
  - intros t' Ht'. apply In_filter_other in Ht' as [Ht' _]. auto.
Qed.

Lemma fire_recorded t s :
  timers_recorded s -> In t (timers s) -> timers_recorded (snd (fire t s)).
Proof.
  intros Hwf Hin. eapply timers_recorded_frame; [apply fire_frame|].
  apply at_firing_recorded; assumption.
Qed.

Lemma next_timer_None ts : next_timer ts = None -> ts = [].
Proof using.
  destruct ts as [|t rest]; simpl; [reflexivity|].
  destruct (next_timer rest) as [t'|]; [destruct (_ <? _)|]; discriminate.
Qed.

Lemma next_timer_In ts : forall t, next_timer ts = Some t -> In t ts.
Proof using.
  induction ts as [|x rest IH]; simpl; intros t; [discriminate|].
  destruct (next_timer rest) as [t'|].
  - destruct (t_due t' <? t_due x); intros [= <-]; auto.
  - intros [= <-]. auto.
Qed.

Lemma next_timer_least ts : forall t,
  next_timer ts = Some t -> forall t', In t' ts -> t_due t <= t_due t'.
Proof using.
  induction ts as [|x rest IH]; simpl; intros t; [discriminate|].
  destruct (next_timer rest) as [t0|] eqn:Hn.
  - destruct (t_due t0 <? t_due x) eqn:Hlt; intros [= <-] t' [<-|Hin].
    + apply Z.ltb_lt in Hlt. lia.
    + apply (IH t0 eq_refl t' Hin).
    + lia.
    + apply Z.ltb_ge in Hlt. pose proof (IH t0 eq_refl t' Hin). lia.
  - apply next_timer_None in Hn. subst rest. intros [= <-] t' [<-|[]]. lia.
Qed.

Lemma filter_other_shorter (ts : list Timer) t :
  In t ts ->
  (length (filter (fun t' => negb (Pos.eqb (t_id t') (t_id t))) ts) < length ts)%nat.
Proof using. clear call.
  induction ts as [|x rest IH]; simpl; [tauto|].
  pose proof (length_filter (fun t' => negb (Pos.eqb (t_id t') (t_id t))) rest) as Hle.
  rewrite filter_cons. intros [->|Hin].
  - rewrite Pos.eqb_refl. simpl. lia.
  - specialize (IH Hin). destruct (decide _); simpl; lia.
Qed.

Lemma filter_all {A} (P : A -> Prop) `{!forall x, Decision (P x)} (l : list A) :
  (forall x, In x l -> P x) -> filter P l = l.
Proof using.
  induction l as [|x l IH]; intros Hall; [reflexivity|].
  rewrite filter_cons_True by (apply Hall; left; reflexivity).
  f_equal. apply IH. intros y Hy. apply Hall. right. exact Hy.
Qed.

Lemma filter_other_perm (ts : list Timer) t :
  NoDup (map t_id ts) -> In t ts ->
  Permutation ts (t :: filter (fun t' => negb (Pos.eqb (t_id t') (t_id t))) ts).
Proof using. clear call.
  induction ts as [|x rest IH]; simpl; [tauto|].
  rewrite NoDup_cons. intros [Hx Hnd] [->|Hin]; rewrite filter_cons.
  - rewrite Pos.eqb_refl. simpl. constructor.
    rewrite filter_all; [reflexivity|].
    intros t' Ht'. apply other_timer_True. intros Hid.
    apply Hx. rewrite <- Hid. apply list_elem_of_In, in_map. exact Ht'.
  - destruct (decide _) as [Hk|Hk].
    + rewrite (IH Hnd Hin) at 1. apply perm_swap.
    + destruct Hx. apply list_elem_of_In, in_map_iff. exists t. split; [|exact Hin].
      destruct (Pos.eqb_spec (t_id x) (t_id t)); [congruence|]. destruct Hk. exact I.
Qed.

Lemma same_settings_refl e : same_settings e e.
Proof using. destruct e; reflexivity. Qed.

Lemma same_settings_trans e1 e2 e3 :
  same_settings e1 e2 -> same_settings e2 e3 -> same_settings e1 e3.
Proof using. unfold same_settings. intros H12 H23. rewrite H23 at 1. rewrite H12. reflexivity. Qed.

Lemma fire_this t s :
  this (snd (fire t s))
  = set_debounceTimers (delete (t_event t) (debounceTimers (this s))) (this s).
Proof. destruct (fire_frame t s) as (H & _). exact H. Qed.

Lemma fire_timers t s :
  timers (snd (fire t s))
  = filter (fun t' => negb (Pos.eqb (t_id t') (t_id t))) (timers s).
Proof. destruct (fire_frame t s) as (_ & _ & H & _). exact H. Qed.

Lemma passed_nothing until s :
  timers_recorded s ->
  (forall t, In t (timers s) -> until < t_due t) ->
  passed until s [] s.
Proof.
  intros Hwf Hall. unfold passed.
  split; [exact Hwf|]. split; [reflexivity|]. split; [constructor|].
  split; [apply Forall_forall; intros t Ht; apply Hall, list_elem_of_In, Ht|].
  split; [reflexivity|]. split; [intros t []|].
  split; [apply same_settings_refl|]. split; [reflexivity|]. lia.
Qed.

Lemma run_due_spec until : forall fuel s,
  timers_recorded s ->
  (length (timers s) <= fuel)%nat ->
  exists fired s', run_due fuel until s = (Normal fired, s') /\ passed until s fired s'.
Proof.
  induction fuel as [|fuel IH]; intros s Hwf Hlen.
  - exists [], s. split; [reflexivity|]. apply passed_nothing; [exact Hwf|].
    destruct (timers s); simpl in *; [tauto|lia].
  - simpl. unfold get. unfold bind at 1.
    destruct (next_timer (timers s)) as [t|] eqn:Hnext.
    2:{ apply next_timer_None in Hnext. exists [], s. split; [reflexivity|].
        apply passed_nothing; [exact Hwf|]. rewrite Hnext. intros t []. }
    pose proof (next_timer_In _ _ Hnext) as Hin.
    destruct (t_due t <=? until) eqn:Hdue.
    2:{ exists [], s. split; [reflexivity|]. apply Z.leb_gt in Hdue.
        apply passed_nothing; [exact Hwf|]. intros t' Ht'.
        pose proof (next_timer_least _ _ Hnext t' Ht'). lia. }
    apply Z.leb_le in Hdue.
    pose proof (fire_recorded t s Hwf Hin) as Hwf1.
    pose proof (fire_timers t s) as Hts1. pose proof (fire_this t s) as Hthis1.
    destruct (fire_frame t s) as (_ & Hclock1 & _ & Hnext1).
    unfold bind at 1. rewrite fire_eq in *. simpl in Hwf1, Hts1, Hthis1, Hclock1, Hnext1.
    set (s1 := snd (_emitInternal (t_event t) (t_data t) (at_firing t s))) in *.
    destruct (IH s1 Hwf1) as (fired & s' & Hrun & Hwf' & Hperm & Hfd & Hleft & Hkeep
                              & Hgone & Hset & Hnt & Hclk).
    { rewrite Hts1. pose proof (filter_other_shorter _ _ Hin). lia. }
    exists (t :: fired), s'. unfold bind. rewrite Hrun. unfold ret.
    destruct Hwf as (Hrec & Hnd & Hlt).
    split; [reflexivity|]. split; [exact Hwf'|]. split; [|split; [|split; [exact Hleft|]]].
    + simpl. rewrite (filter_other_perm _ _ Hnd Hin) at 1. constructor.
      rewrite <- Hts1. exact Hperm.
    + constructor; [exact Hdue | exact Hfd].
    + split; [|split; [|split; [|split]]].
      * intros ev Hev. rewrite Hkeep by (intros t' Ht'; apply Hev; right; exact Ht').
        rewrite Hthis1. simpl. apply lookup_delete_ne. apply Hev. left. reflexivity.
      * intros t' [<-|Ht']; [|apply Hgone; exact Ht'].
        destruct (decide (Exists (fun t' => t_event t' = t_event t) fired)) as [Hex|Hnex].
        -- apply Exists_exists in Hex as (t' & Ht' & Hev). rewrite <- Hev.
           apply Hgone. apply list_elem_of_In. exact Ht'.
        -- rewrite Hkeep.
           ++ rewrite Hthis1. simpl. apply lookup_delete_eq.
           ++ intros t' Ht' Hev. apply Hnex, Exists_exists. exists t'.
              split; [apply list_elem_of_In; exact Ht' | exact Hev].
      * eapply same_settings_trans; [|exact Hset]. rewrite Hthis1.
        unfold same_settings. destruct (this s); reflexivity.
      * rewrite Hnt. exact Hnext1.
      * rewrite Hclock1 in Hclk. simpl in Hclk. lia.
Qed.

Lemma timers_recorded_clock c s : timers_recorded s -> timers_recorded (with_clock c s).
Proof. intros H. exact H. Qed.

Lemma advance_spec until s :
  timers_recorded s ->
  exists fired s',
    advance until s = (Normal fired, s')
    /\ passed until s fired s'
    /\ clock s' = Z.max (clock s) until.
Proof.
  intros Hwf. destruct (run_due_spec until (length (timers s)) s Hwf (le_n _))
    as (fired & s0 & Hrun & Hwf0 & Hperm & Hfd & Hleft & Hkeep & Hgone & Hset & Hnt & Hclk).
  exists fired, (with_clock (Z.max (clock s0) until) s0).
  unfold advance. unfold_m. rewrite Hrun.
  split; [reflexivity|]. split; [|simpl; lia].
  unfold passed. simpl. repeat (split; [assumption|]). lia.
Qed.

Lemma recorded_no_timer event s t :
  timers_recorded s -> debounceTimers (this s) !! event = None ->
  In t (timers s) -> t_event t <> event.
Proof.
  intros (Hrec & _) Hnone Hin Hev. specialize (Hrec t Hin). rewrite Hev in Hrec. congruence.
Qed.

Lemma armed_only event D t0 data s t :
  timers_recorded s -> armed event D t0 data s ->
  In t (timers s) -> t_event t = event ->
  t = {| t_id := t_id t; t_due := t0 + D; t_event := event; t_data := data |}
  /\ t_due t = t0 + D.
Proof.
  intros (Hrec & Hnd & _) (tid & Htid & Hin0) Hin Hev.
  pose proof (Hrec t Hin) as H1. rewrite Hev, Htid in H1. injection H1 as H1.
  assert (Heq : t = {| t_id := tid; t_due := t0 + D; t_event := event; t_data := data |}).
  { eapply same_id_same_timer; eauto. }
  rewrite Heq. simpl. split; reflexivity.
Qed.

Lemma stamped_recorded event s :
  timers_recorded s -> timers_recorded (stamped event s).
Proof. unfold stamped. destruct (truthy_num _); intros H; exact H. Qed.

Lemma deferred_recorded event data D s :
  timers_recorded s -> timers_recorded (deferred event data D s).
Proof.
  intros (Hrec & Hnd & Hlt).
  set (pending := match debounceTimers (this s) !! event with
                  | Some existingTimer =>
                      filter (fun t => negb (Pos.eqb (t_id t) existingTimer)) (timers s)
                  | None => timers s
                  end).
  assert (Hsub : forall t, In t pending -> In t (timers s) /\ t_event t <> event).
  { intros t Ht. subst pending. destruct (debounceTimers (this s) !! event) as [old|] eqn:Hold.
    - apply In_filter_other in Ht as [Ht Hid]. split; [exact Ht|].
      intros Hev. specialize (Hrec t Ht). rewrite Hev, Hold in Hrec. congruence.
    - split; [exact Ht|]. intros Hev. specialize (Hrec t Ht). rewrite Hev in Hrec. congruence. }
  assert (Hndp : NoDup (map t_id pending)).
  { subst pending. destruct (debounceTimers (this s) !! event);
      [apply NoDup_map_filter|]; exact Hnd. }
  unfold timers_recorded, deferred. fold pending. simpl. split; [|split].
  - intros t Ht. apply in_app_iff in Ht as [Ht|[<-|[]]].
    + destruct (Hsub t Ht) as [Hin Hev]. rewrite lookup_insert_ne by congruence. auto.
    + simpl. apply lookup_insert_eq.
  - rewrite map_app. apply NoDup_app. split; [exact Hndp|]. split.
    + intros id Hid Hnew. simpl in Hnew. apply list_elem_of_In in Hnew as [Heq|[]].
      apply list_elem_of_In, in_map_iff in Hid as (t & Hid & Ht).
      destruct (Hsub t Ht) as [Hin _]. specialize (Hlt t Hin). lia.
    + simpl. apply NoDup_singleton.
  - intros t Ht. apply in_app_iff in Ht as [Ht|[<-|[]]].
    + destruct (Hsub t Ht) as [Hin _]. specialize (Hlt t Hin). lia.
    + simpl. lia.
Qed.

Lemma deferred_armed event data D s :
  armed event (timer_delay D) (clock s) data (deferred event data D s).
Proof.
  exists (nextTimer s). unfold deferred. simpl. split; [apply lookup_insert_eq|].
  apply in_app_iff. right. left. reflexivity.
Qed.

Lemma stamped_clock event s : clock (stamped event s) = clock s.
Proof. unfold stamped. destruct (truthy_num _); reflexivity. Qed.

(** An emission that the throttle block lets through is deferred. *)
Lemma emit_deferred event data D s :
  debounceDelays (this s) !! event = Some D -> D <> 0 ->
  throttled (this s) (clock s) event = false ->
  emit event data s = (Normal true, deferred event data D (stamped event s)).
Proof.
  intros HD HD0 Hthr. rewrite emit_eq, Hthr.
  rewrite <- (stamped_debounceDelays event s) in *. rewrite debounce_or_deliver_eq, HD.
  simpl. apply Z.eqb_neq in HD0. rewrite HD0. reflexivity.
Qed.

(** An emission that the throttle block drops returns false. *)
Lemma emit_dropped event data s :
  throttled (this s) (clock s) event = true -> emit event data s = (Normal false, s).
Proof. intros Hthr. rewrite emit_eq, Hthr. reflexivity. Qed.

Lemma returns_fire t : returns (fire t).
Proof. intros s. rewrite fire_eq. eauto. Qed.

Lemma returns_run_due until fuel : returns (run_due fuel until).
Proof.
  induction fuel as [|fuel IH]; simpl; [apply returns_ret|].
  apply returns_bind; [intros s; unfold get; eauto|]. intros s.
  destruct (next_timer (timers s)) as [t|]; [|apply returns_ret].
  destruct (t_due t <=? until); [|apply returns_ret].
  apply returns_bind; [apply returns_fire|]. intros _.
  apply returns_bind; [exact IH|]. intros fired. apply returns_ret.
Qed.

Lemma returns_advance until : returns (advance until).
Proof.
  unfold advance. apply returns_bind; [intros s; unfold get; eauto|]. intros s.
  apply returns_bind; [apply returns_run_due|]. intros fired.
  apply returns_bind; [intros s0; unfold modify; eauto|]. intros _. apply returns_ret.
Qed.

Lemma returns_emit event data : returns (emit event data).
Proof.
  intros s. rewrite emit_eq. destruct (throttled _ _ _); [eauto|].
  rewrite <- (stamped_debounceDelays event s), debounce_or_deliver_eq.
  destruct (truthy_num _); [eauto | apply returns_emitInternal].
Qed.

Lemma returns_emit_at event calls : returns (emit_at event calls).
Proof.
  induction calls as [|[t data] rest IH]; simpl; [apply returns_ret|].
  apply returns_bind; [apply returns_advance|]. intros fired.
  apply returns_bind; [apply returns_emit|]. intros r.
  apply returns_bind; [exact IH|]. intros x. apply returns_ret.
Qed.

Lemma filter_none {A} (P : A -> Prop) `{!forall x, Decision (P x)} (l : list A) :
  (forall x, In x l -> ~ P x) -> filter P l = [].
Proof using.
  induction l as [|x l IH]; intros Hall; [reflexivity|].
  rewrite filter_cons_False by (apply Hall; left; reflexivity).
  apply IH. intros y Hy. apply Hall. right. exact Hy.
Qed.

Lemma filter_unique {A} (P : A -> Prop) `{!forall x, Decision (P x)} (l : list A) x :
  NoDup l -> In x l -> P x -> (forall y, In y l -> P y -> y = x) -> filter P l = [x].
Proof using. clear call.
  induction l as [|a l IH]; simpl; [tauto|].
  rewrite NoDup_cons. intros [Ha Hnd] Hin Hx Huniq. rewrite filter_cons.
  destruct (decide (P a)) as [Hpa|Hpa].
  - assert (a = x) by (apply Huniq; auto). subst a. f_equal.
    apply filter_none. intros y Hy Hpy.
    assert (y = x) by (apply Huniq; auto). subst y.
    apply Ha, list_elem_of_In. exact Hy.
  - destruct Hin as [->|Hin]; [contradiction|]. apply IH; auto.
Qed.

Lemma last_cons {A} (l : list A) : forall a d, List.last (a :: l) d = List.last l a.
Proof using.
  induction l as [|b l IH]; intros a d; [reflexivity|].
  change (List.last (a :: b :: l) d) with (List.last (b :: l) d).
  rewrite (IH b d), (IH b a). reflexivity.
Qed.

Lemma fired_was_pending until s fired s' t :
  passed until s fired s' -> In t fired -> In t (timers s) /\ t_due t <= until.
Proof.
  intros (_ & Hperm & Hfd & _) Hin. split.
  - eapply Permutation_in; [symmetry; exact Hperm|]. apply in_app_iff. left. exact Hin.
  - rewrite Forall_forall in Hfd. apply Hfd, list_elem_of_In. exact Hin.
Qed.

(** While the deferred emission is not due, time passing fires no timer of
    the name and leaves the emission pending. *)
Lemma advance_keeps_armed event D t0 data until s :
  timers_recorded s -> armed event D t0 data s -> until < t0 + D ->
  exists fired s',
    advance until s = (Normal fired, s')
    /\ timers_recorded s'
    /\ armed event D t0 data s'
    /\ filter (fun t => t_event t = event) fired = []
    /\ clock s' = Z.max (clock s) until
    /\ same_settings (this s) (this s').
Proof.
  intros Hwf Harm Hlt.
  destruct (advance_spec until s Hwf) as (fired & s' & Hadv & Hpass & Hclock).
  exists fired, s'. split; [exact Hadv|].
  assert (Hnone : forall t, In t fired -> t_event t <> event).
  { intros t Ht Hev. destruct (fired_was_pending _ _ _ _ _ Hpass Ht) as [Hin Hdue].
    destruct (armed_only _ _ _ _ _ _ Hwf Harm Hin Hev) as [_ Hd]. lia. }
  destruct Hpass as (Hwf' & Hperm & _ & _ & Hkeep & _ & Hset & _).
  split; [exact Hwf'|]. split; [|split; [|split; [exact Hclock | exact Hset]]].
  - destruct Harm as (tid & Htid & Hin). exists tid. rewrite (Hkeep event Hnone).
    split; [exact Htid|].
    apply (Permutation_in _ Hperm), in_app_iff in Hin as [Hin|Hin]; [|exact Hin].
    destruct (Hnone _ Hin). reflexivity.
  - apply filter_none. exact Hnone.
Qed.

(** Once the deferred emission is due, time passing fires its timer, and
    no other timer of the name; the record of the name is cleared. *)
Lemma advance_fires_armed event D t0 data until s :
  timers_recorded s -> armed event D t0 data s -> t0 + D <= until ->
  exists fired s' tid,
    advance until s = (Normal fired, s')
    /\ filter (fun t => t_event t = event) fired
        = [{| t_id := tid; t_due := t0 + D; t_event := event; t_data := data |}]
    /\ debounceTimers (this s') !! event = None.
Proof.
  intros Hwf Harm Hdue.
  destruct (advance_spec until s Hwf) as (fired & s' & Hadv & Hpass & Hclock).
  destruct Harm as (tid & Htid & Hin).
  exists fired, s', tid. split; [exact Hadv|].
  set (t0' := {| t_id := tid; t_due := t0 + D; t_event := event; t_data := data |}) in *.
  assert (Hfired : In t0' fired).
  { destruct Hpass as (_ & Hperm & _ & Hleft & _).
    apply (Permutation_in _ Hperm), in_app_iff in Hin as [Hin|Hin]; [exact Hin|].
    rewrite Forall_forall in Hleft. apply list_elem_of_In, Hleft in Hin. simpl in Hin. lia. }
  split.
  - apply filter_unique; [| exact Hfired | reflexivity |].
    + destruct Hwf as (_ & Hnd & _). destruct Hpass as (_ & Hperm & _).
      apply NoDup_fmap_1 in Hnd. rewrite Hperm in Hnd. apply NoDup_app in Hnd. tauto.
    + intros t Ht Hev. destruct (fired_was_pending _ _ _ _ _ Hpass Ht) as [Hint _].
      assert (Harm : armed event D t0 data s) by (exists tid; auto).
      destruct (armed_only _ _ _ _ _ _ Hwf Harm Hint Hev) as [Heq _].
      destruct Hwf as (Hrec & _). specialize (Hrec t Hint).
      rewrite Hev, Htid in Hrec. injection Hrec as Hrec. rewrite Heq, <- Hrec. reflexivity.
  - destruct Hpass as (_ & _ & _ & _ & _ & Hgone & _). apply (Hgone t0' Hfired).
Qed.

Lemma same_settings_debounceDelays e e' :
  same_settings e e' -> debounceDelays e' = debounceDelays e.
Proof using. intros ->. reflexivity. Qed.

(** After the first emission of a burst: as long as no call is dropped by
    the throttle block, the deferred emission stays pending and carries the
    payload of the latest call. *)
Lemma burst_rest event D :
  D <> 0 ->
  forall rest t0 d0 s,
    timers_recorded s -> armed event (timer_delay D) t0 d0 s -> clock s = t0 ->
    debounceDelays (this s) !! event = Some D ->
    spaced (timer_delay D) t0 rest ->
    exists rs fired s',
      emit_at event rest s = (Normal (rs, fired), s')
      /\ (Forall (fun r => r = true) rs ->
           timers_recorded s'
           /\ armed event (timer_delay D) (fst (List.last rest (t0, d0)))
                (snd (List.last rest (t0, d0))) s'
           /\ filter (fun t => t_event t = event) fired = []).
Proof.
  intros HD0. induction rest as [|[t d] rest IH]; intros t0 d0 s Hwf Harm Hclock HD Hsp.
  - exists [], [], s. split; [reflexivity|]. intros _. simpl. auto.
  - destruct Hsp as [Ht Hsp]. rewrite last_cons.
    destruct (advance_keeps_armed event (timer_delay D) t0 d0 t s Hwf Harm) as
      (fired1 & s1 & Hadv & Hwf1 & Harm1 & Hf1 & Hclock1 & Hset1); [lia|].
    assert (HD1 : debounceDelays (this s1) !! event = Some D)
      by (rewrite (same_settings_debounceDelays _ _ Hset1); exact HD).
    simpl. unfold bind at 1. rewrite Hadv. unfold bind at 1.
    destruct (throttled (this s1) (clock s1) event) eqn:Hthr.
    + rewrite (emit_dropped event d s1 Hthr).
      destruct (returns_emit_at event rest s1) as ([rs f] & s' & Hrun).
      exists (false :: rs), (fired1 ++ f), s'. unfold bind. rewrite Hrun.
      split; [reflexivity|]. intros Hall. inversion Hall; discriminate.
    + rewrite (emit_deferred event d D s1 HD1 HD0 Hthr).
      set (s2 := deferred event d D (stamped event s1)).
      destruct (IH t d s2) as (rs & f & s' & Hrun & Hok).
      * apply deferred_recorded, stamped_recorded, Hwf1.
      * pose proof (deferred_armed event d D (stamped event s1)) as Ha.
        rewrite stamped_clock, Hclock1, Hclock in Ha.
        replace (Z.max t0 t) with t in Ha by lia. exact Ha.
      * subst s2. simpl. rewrite stamped_clock, Hclock1, Hclock. lia.
      * subst s2. simpl. rewrite stamped_debounceDelays. exact HD1.
      * exact Hsp.
      * exists (true :: rs), (fired1 ++ f), s'. unfold bind. rewrite Hrun.
        split; [reflexivity|]. intros Hall. inversion Hall as [|? ? _ Hall']; subst.
        destruct (Hok Hall') as (Hwf' & Harm' & Hf').
        split; [exact Hwf'|]. split; [exact Harm'|].
        rewrite filter_app, Hf1, Hf'. reflexivity.
Qed.

Lemma timer_delay_cases D :
  (1 <= D <= TIMEOUT_MAX -> timer_delay D = D)
  /\ (D < 1 \/ TIMEOUT_MAX < D -> timer_delay D = 1).
Proof using.
  unfold timer_delay. split.
  - intros [H1 H2]. apply Z.leb_le in H1, H2. rewrite H1, H2. reflexivity.
  - intros [H|H].
    + apply Z.leb_gt in H. rewrite H. reflexivity.
    + apply Z.leb_gt in H. rewrite H, andb_false_r. reflexivity.
Qed.

(** What the debounce block leaves on the platform and in the emitter. *)
Lemma deferred_timers event data D s :
  let s1 := deferred event data D (stamped event s) in
  timers s1
  = match debounceTimers (this s) !! event with
    | Some old => filter (fun t => negb (Pos.eqb (t_id t) old)) (timers s)
    | None => timers s
    end
    ++ [{| t_id := nextTimer s; t_due := clock s + timer_delay D;
           t_event := event; t_data := data |}]
  /\ debounceTimers (this s1) !! event = Some (nextTimer s)
  /\ user s1 = user s /\ trace s1 = trace s.
Proof using.
  unfold deferred, stamped. destruct (truthy_num _); simpl;
    (split; [reflexivity|]); (split; [apply lookup_insert_eq|]); split; reflexivity.
Qed.

(** C5 (amended): the platform grants a delay from 1 to 2^31-1 as it is and
    replaces every other delay by 1.  With a debounce delay [D] other than
    0 set for the name, an emission that the throttle block does not drop
    cancels the pending deferred emission of the name, schedules a new one
    that carries the current payload and is due the granted delay after the
    call, records it, calls no handler and returns true.  A timer that
    fires clears the record of its name and runs [_emitInternal] on its
    payload.  For a burst of emissions, each less than the granted delay
    after the one before and none dropped, with no deferred emission
    pending at its start, exactly one timer of the name fires once the
    granted delay has passed since the last emission: the one scheduled by
    the last emission, carrying the last payload; the record is then
    cleared. *)
Theorem debounce_defers event D :
  D <> 0 ->
  ((1 <= D <= 2147483647 -> timer_delay D = D)
   /\ (D < 1 \/ 2147483647 < D -> timer_delay D = 1))
  /\ (forall data s,
        debounceDelays (this s) !! event = Some D ->
        throttled (this s) (clock s) event = false ->
        let s1 := snd (emit event data s) in
        emit event data s = (Normal true, deferred event data D (stamped event s))
        /\ timers s1
           = match debounceTimers (this s) !! event with
             | Some old => filter (fun t => negb (Pos.eqb (t_id t) old)) (timers s)
             | None => timers s
             end
             ++ [{| t_id := nextTimer s; t_due := clock s + timer_delay D;
                    t_event := event; t_data := data |}]
        /\ debounceTimers (this s1) !! event = Some (nextTimer s)
        /\ user s1 = user s /\ trace s1 = trace s)
  /\ (forall t s,
        fire t s = (Normal tt, snd (_emitInternal (t_event t) (t_data t) (at_firing t s))))
  /\ (forall t1 d1 rest until s,
        timers_recorded s ->
        debounceDelays (this s) !! event = Some D ->
        debounceTimers (this s) !! event = None ->
        clock s <= t1 ->
        spaced (timer_delay D) t1 rest ->
        fst (List.last rest (t1, d1)) + timer_delay D <= until ->
        exists rs fired s',
          emit_at_then_wait event ((t1, d1) :: rest) until s = (Normal (rs, fired), s')
          /\ (Forall (fun r => r = true) rs ->
               (exists tid,
                   filter (fun t => t_event t = event) fired
                   = [{| t_id := tid;
                         t_due := fst (List.last rest (t1, d1)) + timer_delay D;
                         t_event := event;
                         t_data := snd (List.last rest (t1, d1)) |}])
               /\ debounceTimers (this s') !! event = None)).
Proof.
  intros HD0. split; [apply timer_delay_cases|]. split; [|split].
  - intros data s HD Hthr s1. subst s1.
    rewrite (emit_deferred event data D s HD HD0 Hthr).
    split; [reflexivity|]. apply deferred_timers.
  - apply fire_eq.
  - intros t1 d1 rest until s Hwf HD Hnone Hclock Hsp Huntil.
    destruct (advance_spec t1 s Hwf) as (fired1 & s1 & Hadv & Hpass & Hclock1).
    assert (Hno1 : forall t, In t fired1 -> t_event t <> event).
    { intros t Ht. destruct (fired_was_pending _ _ _ _ _ Hpass Ht) as [Hin _].
      eapply recorded_no_timer; eauto. }
    destruct Hpass as (Hwf1 & _ & _ & _ & _ & _ & Hset1 & _).
    assert (HD1 : debounceDelays (this s1) !! event = Some D)
      by (rewrite (same_settings_debounceDelays _ _ Hset1); exact HD).
    unfold emit_at_then_wait. simpl. unfold bind at 1. unfold bind at 1.
    rewrite Hadv. unfold bind at 1.
    destruct (throttled (this s1) (clock s1) event) eqn:Hthr.
    + rewrite (emit_dropped event d1 s1 Hthr).
      destruct (returns_emit_at event rest s1) as ([rs f] & s3 & Hrun).
      destruct (returns_advance until s3) as (fired3 & s4 & Hadv3).
      unfold bind. rewrite Hrun. unfold ret. rewrite Hadv3.
      eexists _, _, _. split; [reflexivity|]. simpl. intros Hall. inversion Hall; discriminate.
    + rewrite (emit_deferred event d1 D s1 HD1 HD0 Hthr).
      set (s2 := deferred event d1 D (stamped event s1)).
      destruct (burst_rest event D HD0 rest t1 d1 s2) as (rs & f & s3 & Hrun & Hok).
      * apply deferred_recorded, stamped_recorded, Hwf1.
      * pose proof (deferred_armed event d1 D (stamped event s1)) as Ha.
        rewrite stamped_clock, Hclock1 in Ha.
        replace (Z.max (clock s) t1) with t1 in Ha by lia. exact Ha.
      * subst s2. simpl. rewrite stamped_clock, Hclock1. lia.
      * subst s2. simpl. rewrite stamped_debounceDelays. exact HD1.
      * exact Hsp.
      * destruct (returns_advance until s3) as (fired3 & s4 & Hadv3).
        unfold bind. rewrite Hrun. unfold ret. rewrite Hadv3.
        eexists _, _, _. split; [reflexivity|]. simpl.
        intros Hall. inversion Hall as [|? ? _ Hall']; subst.
        destruct (Hok Hall') as (Hwf3 & Harm3 & Hf).
        destruct (advance_fires_armed _ _ _ _ until s3 Hwf3 Harm3 Huntil)
          as (fired3' & s4' & tid & Hadv3' & Hfil & Hrec).
        rewrite Hadv3 in Hadv3'. injection Hadv3' as <- <-.
        split; [|exact Hrec]. exists tid.
        rewrite !filter_app, Hf, Hfil, (filter_none _ fired1) by exact Hno1. reflexivity.
Qed.

Lemma emit_recorded event data s :
  timers_recorded s -> timers_recorded (snd (emit event data s)).
Proof.
  intros Hwf. rewrite emit_eq. destruct (throttled _ _ _); [exact Hwf|].
  rewrite <- (stamped_debounceDelays event s), debounce_or_deliver_eq.
  destruct (truthy_num _); simpl.
  - apply deferred_recorded, stamped_recorded, Hwf.
  - eapply timers_recorded_frame; [apply keeps_frame_emitInternal|].
    apply stamped_recorded, Hwf.
Qed.

Lemma initial_state_recorded e u : timers_recorded (initial_state e u).
Proof.
  unfold timers_recorded. simpl. split; [tauto|]. split; [constructor | tauto].
Qed.

Lemma timers_recorded_this s s' :
  debounceTimers (this s') = debounceTimers (this s) -> timers s' = timers s ->
  nextTimer s' = nextTimer s -> timers_recorded s -> timers_recorded s'.
Proof. unfold timers_recorded. intros -> -> ->. tauto. Qed.

(** ** The timers on record: an invariant of the public methods *)

(** A computation that leaves the record of debounce timers and the
    platform's timers alone. *)
Lemma keeps_timers_recorded {A} (m : M A) s :
  debounceTimers (this (snd (m s))) = debounceTimers (this s) ->
  timers (snd (m s)) = timers s ->
  nextTimer (snd (m s)) = nextTimer s ->
  timers_recorded s -> timers_recorded (snd (m s)).
Proof. apply timers_recorded_this. Qed.

Lemma on_recorded event listener signal s :
  timers_recorded s -> timers_recorded (snd (on event listener signal s)).
Proof.
  apply keeps_timers_recorded; unfold on, addEventListener_abort; unfold_m; simpl;
    destruct signal as [[sg [|]]|]; simpl; try reflexivity;
    destruct (String.eqb event "*"); simpl;
    repeat match goal with |- context [if ?b then _ else _] => destruct b; simpl end;
    reflexivity.
Qed.

Lemma off_recorded event idOrHandler s :
  timers_recorded s -> timers_recorded (snd (off event idOrHandler s)).
Proof.
  apply keeps_timers_recorded; unfold off; unfold_m; simpl;
    destruct (String.eqb event "*"); simpl; try reflexivity;
    destruct (listeners (this s) !! event) as [ls|]; simpl; try reflexivity;
    destruct (Nat.eqb _ _); reflexivity.
Qed.

Lemma emitToListener_recorded event data listenerId s :
  timers_recorded s -> timers_recorded (snd (emitToListener event data listenerId s)).
Proof. apply timers_recorded_frame, emitToListener_frame. Qed.

Lemma advance_recorded until s :
  timers_recorded s -> timers_recorded (snd (advance until s)).
Proof.
  intros Hwf. destruct (advance_spec until s Hwf) as (fired & s' & -> & (Hwf' & _) & _).
  exact Hwf'.
Qed.

Lemma without_timer_recorded event s :
  timers_recorded s ->
  timers_recorded
    {| this := set_debounceTimers (delete event (debounceTimers (this s))) (this s);
       user := user s; clock := clock s;
       timers := match debounceTimers (this s) !! event with
                 | Some timer => filter (fun t => negb (Pos.eqb (t_id t) timer)) (timers s)
                 | None => timers s
                 end;
       nextTimer := nextTimer s; trace := trace s |}.
Proof.
  intros (Hrec & Hnd & Hlt). unfold timers_recorded. simpl.
  assert (Hsub : forall t,
             In t (match debounceTimers (this s) !! event with
                   | Some timer => filter (fun t => negb (Pos.eqb (t_id t) timer)) (timers s)
                   | None => timers s
                   end) -> In t (timers s) /\ t_event t <> event).
  { intros t Ht. destruct (debounceTimers (this s) !! event) as [old|] eqn:Hold.
    - apply In_filter_other in Ht as [Ht Hid]. split; [exact Ht|].
      intros Hev. specialize (Hrec t Ht). rewrite Hev, Hold in Hrec. congruence.
    - split; [exact Ht|]. intros Hev. specialize (Hrec t Ht). rewrite Hev in Hrec. congruence. }
  split; [|split].
  - intros t Ht. destruct (Hsub t Ht) as [Hin Hev].
    rewrite lookup_delete_ne by congruence. auto.
  - destruct (debounceTimers (this s) !! event); [apply NoDup_map_filter|]; exact Hnd.
  - intros t Ht. destruct (Hsub t Ht) as [Hin _]. auto.
Qed.

Lemma removeAllListeners_named_recorded event s :
  event <> "" ->
  timers_recorded s -> timers_recorded (snd (removeAllListeners (Some event) s)).
Proof.
  intros Hne Hwf. rewrite (removeAllListeners_named event s Hne). simpl.
  eapply timers_recorded_this; [| | |exact (without_timer_recorded event s Hwf)];
    reflexivity.
Qed.

Lemma removeDebounce_recorded event s :
  timers_recorded s -> timers_recorded (snd (removeDebounce event s)).
Proof.
  intros Hwf. pose proof (without_timer_recorded event s Hwf) as H.
  unfold removeDebounce, clearTimeout. unfold_m. simpl.
  destruct (debounceTimers (this s) !! event) as [timer|] eqn:Ht; simpl.
  - eapply timers_recorded_this; [| | |exact H]; reflexivity.
  - rewrite (delete_id _ _ Ht) in H.
    eapply timers_recorded_this; [| | |exact H]; reflexivity.
Qed.

Lemma clear_all_eq ids : forall s,
  clear_all ids s
  = (Normal tt,
     with_timers (filter (fun t => t_id t ∉ ids) (timers s)) (nextTimer s) s).
Proof.
  induction ids as [|id ids IH]; intros s; simpl.
  - unfold ret. rewrite filter_all by (intros t _; apply not_elem_of_nil).
    destruct s; reflexivity.
  - unfold clearTimeout. unfold_m. rewrite IH. simpl. f_equal. unfold with_timers. simpl.
    f_equal. rewrite list_filter_filter. apply list_filter_iff. intros t.
    rewrite other_timer_True, not_elem_of_cons. split; intros [H1 H2]; split; assumption.
Qed.

(** Cancelling every timer on record leaves no timer pending. *)
Lemma clear_recorded_timers s :
  timers_recorded s ->
  filter (fun t => t_id t ∉ map snd (map_to_list (debounceTimers (this s))))
    (timers s) = [].
Proof.
  intros (Hrec & _). apply filter_none. intros t Ht Hnin. apply Hnin.
  apply list_elem_of_In, in_map_iff. exists (t_event t, t_id t). split; [reflexivity|].
  apply list_elem_of_In, elem_of_map_to_list, Hrec, Ht.
Qed.

Lemma removeAllListeners_all_recorded event s :
  truthy_str event = false ->
  timers_recorded s -> timers_recorded (snd (removeAllListeners event s)).
Proof.
  intros Hev Hwf. unfold removeAllListeners. rewrite Hev. unfold_m. simpl.
  rewrite clear_all_eq. simpl. rewrite (clear_recorded_timers s Hwf).
  unfold timers_recorded. simpl. split; [tauto|]. split; [constructor | tauto].
Qed.

Lemma removeAllOperations_recorded event s :
  timers_recorded s -> timers_recorded (snd (removeAllOperations event s)).
Proof.
  intros Hwf. unfold removeAllOperations. destruct (truthy_str event).
  - pose proof (without_timer_recorded (default "" event) s Hwf) as H.
    unfold clearTimeout. unfold_m. simpl.
    destruct (debounceTimers (this s) !! default "" event) as [timer|] eqn:Ht; simpl.
    + eapply timers_recorded_this; [| | |exact H]; reflexivity.
    + rewrite (delete_id _ _ Ht) in H.
      eapply timers_recorded_this; [| | |exact H]; reflexivity.
  - unfold_m. simpl. rewrite clear_all_eq. simpl. rewrite (clear_recorded_timers s Hwf).
    unfold timers_recorded. simpl. split; [tauto|]. split; [constructor | tauto].
Qed.

Lemma listenerCount_registrations e event :
  listenerCount e event = Z.of_nat (length (registrations e event)).
Proof using.
  unfold listenerCount, registrations. destruct (String.eqb event "*"); [reflexivity|].
  destruct (listeners e !! event); reflexivity.
Qed.

(** ** Removing all listeners: the name, the wildcard, the empty string *)

(** C8, on the code: for a name that is not the empty string,
    [removeAllListeners(name)] deletes the listener set of the name, its
    pending debounce timer (cancelled on the platform) and its throttle
    last-fire record; the operation chains, the debounce and throttle
    delays, the wildcard listeners and everything recorded for other names
    stay as they were.  For "*" this means that the wildcard listeners,
    which [on], [off] and [listenerCount] keep under that name, are not
    removed.  For the empty string, which [on], [off], [emit] and
    [removeDebounce] treat as a name like any other, the call is the call
    without argument: it removes the listeners of every name and the
    wildcard listeners and forgets every debounce timer and throttle
    record. *)
Theorem removeAllListeners_frame event s :
  (event <> "" ->
   exists s1,
     removeAllListeners (Some event) s = (Normal tt, s1)
     /\ listeners (this s1) !! event = None
     /\ (event <> "*" ->
         registrations (this s1) event = [] /\ listenerCount (this s1) event = 0)
     /\ debounceTimers (this s1) !! event = None
     /\ throttleTimers (this s1) !! event = None
     /\ (forall timer, debounceTimers (this s) !! event = Some timer ->
           forall t, In t (timers s1) <-> In t (timers s) /\ t_id t <> timer)
     /\ (debounceTimers (this s) !! event = None -> timers s1 = timers s)
     /\ operationChains (this s1) = operationChains (this s)
     /\ debounceDelays (this s1) = debounceDelays (this s)
     /\ throttleDelays (this s1) = throttleDelays (this s)
     /\ wildcardListeners (this s1) = wildcardListeners (this s)
     /\ listenerCount (this s1) "*" = listenerCount (this s) "*"
     /\ maxListeners (this s1) = maxListeners (this s)
     /\ idCounter (this s1) = idCounter (this s)
     /\ (forall other, other <> event ->
           listeners (this s1) !! other = listeners (this s) !! other
           /\ registrations (this s1) other = registrations (this s) other
           /\ debounceTimers (this s1) !! other = debounceTimers (this s) !! other
           /\ throttleTimers (this s1) !! other = throttleTimers (this s) !! other)
     /\ user s1 = user s /\ trace s1 = trace s /\ clock s1 = clock s)
  /\ (let s0 := snd (removeAllListeners (Some "") s) in
      removeAllListeners (Some "") s = removeAllListeners None s
      /\ listeners (this s0) = ∅
      /\ wildcardListeners (this s0) = []
      /\ (forall name,
            registrations (this s0) name = [] /\ listenerCount (this s0) name = 0)
      /\ debounceTimers (this s0) = ∅
      /\ throttleTimers (this s0) = ∅
      /\ operationChains (this s0) = operationChains (this s)
      /\ debounceDelays (this s0) = debounceDelays (this s)
      /\ throttleDelays (this s0) = throttleDelays (this s)).
Proof.
  split.
  - intros Hne. exists (without_listeners event s).
    split; [apply removeAllListeners_named; exact Hne|]. simpl.
    rewrite !lookup_delete_eq. split; [reflexivity|]. split.
    { intros Hstar. rewrite listenerCount_registrations. unfold registrations. simpl.
      apply String.eqb_neq in Hstar. rewrite Hstar, lookup_delete_eq. split; reflexivity. }
    repeat (split; [reflexivity|]).
    split; [|split].
    + intros timer Ht t. rewrite Ht, <- !list_elem_of_In, list_elem_of_filter.
      rewrite other_timer_True.
      split; [intros [H1 H2]; split; assumption | intros [H1 H2]; split; assumption].
    + intros Ht. rewrite Ht. reflexivity.
    + repeat (split; [reflexivity|]). split; [|repeat split].
      intros other Ho. rewrite !lookup_delete_ne by congruence.
      split; [reflexivity|]. split; [|split; reflexivity].
      unfold registrations. simpl. destruct (String.eqb other "*"); [reflexivity|].
      rewrite lookup_delete_ne by congruence. reflexivity.
  - simpl. split; [reflexivity|]. unfold removeAllListeners. simpl. unfold_m. simpl.
    rewrite clear_all_eq. simpl. repeat (split; [reflexivity|]). split.
    + intros name. rewrite listenerCount_registrations. unfold registrations. simpl.
      destruct (String.eqb name "*"); [split; reflexivity|].
      change ((∅ : gmap string (list ListenerWithId)) !! name) with
        (@None (list ListenerWithId)). split; reflexivity.
    + repeat split.
Qed.

(** ** Composed chains *)

(** X1: executing [c1.compose(c2)] is executing [c1] and, unless a step of
    [c1] ended the evaluation, executing [c2] on the value that [c1] left, in
    the state that [c1] left; when [c1] ended the evaluation, no step of [c2]
    runs.  [compose] is associative. *)
Theorem compose_execute c1 c2 d s :
  execute (compose c1 c2) d s
  = match execute_loop (steps c1) d s with
    | (Normal (Continue v), s1) => execute c2 v s1
    | (Normal ReturnUndefined, s1) => (Normal VUndefined, s1)
    | (Throw e, s1) => (Throw e, s1)
    end
  /\ (forall v s1,
        execute c1 d s = (Normal v, s1) -> is_undefined v = false ->
        execute (compose c1 c2) d s = execute c2 v s1)
  /\ (forall c3, compose (compose c1 c2) c3 = compose c1 (compose c2 c3)).
Proof.
  assert (H1 : execute (compose c1 c2) d s
               = match execute_loop (steps c1) d s with
                 | (Normal (Continue v), s1) => execute c2 v s1
                 | (Normal ReturnUndefined, s1) => (Normal VUndefined, s1)
                 | (Throw e, s1) => (Throw e, s1)
                 end).
  { unfold execute at 1. unfold bind. simpl. rewrite execute_loop_app.
    destruct (execute_loop (steps c1) d s) as [[[v|]|e] s1]; reflexivity. }
  split; [exact H1|]. split.
  - intros v s1 Hex Hv. rewrite H1. unfold execute, bind in Hex.
    destruct (execute_loop (steps c1) d s) as [[[v'|]|e] s1']; unfold ret in Hex.
    + injection Hex as -> ->. reflexivity.
    + injection Hex as <- _. discriminate Hv.
    + discriminate Hex.
  - intros c3. unfold compose. simpl. rewrite app_assoc. reflexivity.
Qed.

(** ** Building a chain *)

Lemma builder_add_eq b step s :
  let current := default (b_chain b) (operationChains (this s) !! b_event b) in
  let newChain := {| eventType := eventType current; steps := steps current ++ [step] |} in
  builder_add b step s
  = (Normal {| b_event := b_event b; b_chain := newChain |},
     with_this (set_operationChains (<[b_event b := newChain]> (operationChains (this s)))
                  (this s)) s).
Proof.
  destruct step as [ty h]. unfold builder_add, builder_transform, builder_filter,
    builder_tap, builder_step, getOperation, _setOperation. unfold_m.
  destruct ty; reflexivity.
Qed.

Lemma build_eq b step rest s :
  let current := default (b_chain b) (operationChains (this s) !! b_event b) in
  let newChain :=
    {| eventType := eventType current; steps := steps current ++ step :: rest |} in
  build b (step :: rest) s
  = (Normal {| b_event := b_event b; b_chain := newChain |},
     with_this (set_operationChains (<[b_event b := newChain]> (operationChains (this s)))
                  (this s)) s).
Proof.
  revert b step s. induction rest as [|step' rest IH]; intros b step s.
  - simpl. unfold bind. rewrite builder_add_eq. reflexivity.
  - change (build b (step :: step' :: rest) s)
      with ((let* b' := builder_add b step in build b' (step' :: rest)) s).
    unfold bind. rewrite builder_add_eq. rewrite IH. simpl.
    rewrite lookup_insert_eq. simpl. rewrite insert_insert_eq, <- app_assoc. reflexivity.
Qed.

(** X2: a fluent chain of builder calls appends its steps, in call order,
    to the chain that is bound to the name when the first call is made (the
    builder's own chain counts only while none is bound), binds the result
    and returns a builder for it; it runs no handler and changes nothing else
    in the emitter.  Started from [operation(event)], the steps are appended
    to the bound chain, or to an empty chain when none is bound. *)
Theorem build_extends_bound_chain step rest s :
  (forall b,
      let current := default (b_chain b) (operationChains (this s) !! b_event b) in
      let newChain :=
        {| eventType := eventType current; steps := steps current ++ step :: rest |} in
      build b (step :: rest) s
      = (Normal {| b_event := b_event b; b_chain := newChain |},
         with_this
           (set_operationChains (<[b_event b := newChain]> (operationChains (this s)))
              (this s)) s))
  /\ (forall event,
        let current :=
          default {| eventType := event; steps := [] |} (operationChains (this s) !! event) in
        let newChain :=
          {| eventType := eventType current; steps := steps current ++ step :: rest |} in
        (let* b := operation event in build b (step :: rest)) s
        = (Normal {| b_event := event; b_chain := newChain |},
           with_this
             (set_operationChains (<[event := newChain]> (operationChains (this s)))
                (this s)) s)).
Proof.
  split; [intros b; apply build_eq|].
  intros event. unfold operation, get_this. unfold bind at 1 2. unfold ret at 1.
  rewrite build_eq. simpl.
  destruct (operationChains (this s) !! event); reflexivity.
Qed.

(** ** Errors never reach the caller of an emission *)

Lemma returns_emitToListener event data listenerId :
  returns (emitToListener event data listenerId).
Proof.
  intros s. unfold emitToListener, get_this. unfold bind at 1.
  destruct (listeners (this s) !! event) as [ls|]; [|apply returns_ret].
  destruct (List.find _ ls) as [l|]; [|apply returns_ret].
  apply returns_bind; [apply returns_run_chain|].
  intros v. destruct (is_undefined v); [apply returns_ret|].
  apply returns_try_catch. intros e. apply returns_bind; [apply returns_console_error|].
  intros _. apply returns_ret.
Qed.

(** X3: whatever the handlers of the steps and the listeners do, [emit],
    [emitToListener] and the timers that fire while time passes complete
    normally: no error of a handler reaches the caller. *)
Theorem emissions_never_throw event data listenerId until s :
  (exists r s', emit event data s = (Normal r, s'))
  /\ (exists r s', emitToListener event data listenerId s = (Normal r, s'))
  /\ (exists fired s', advance until s = (Normal fired, s')).
Proof.
  split; [apply returns_emit|]. split; [apply returns_emitToListener | apply returns_advance].
Qed.

(** ** Fan-out: who is called, in which order *)

Lemma calls_of_app tr1 tr2 : calls_of (tr1 ++ tr2) = calls_of tr1 ++ calls_of tr2.
Proof using.
  induction tr1 as [|ev tr1 IH]; [reflexivity|].
  destruct ev; simpl; rewrite IH; reflexivity.
Qed.

(** One turn of the loop over the per-name listeners: the handler is called
    once, and the turn returns whether the handler returned or threw. *)
Lemma listener_turn h v msg s :
  exists s',
    try_catch (let* _ := apply_fn h v in ret tt) (fun error => console_error msg error) s
    = (Normal tt, s')
    /\ calls_of (trace s') = calls_of (trace s) ++ [(h, v)].
Proof.
  unfold apply_fn. unfold_m. simpl.
  destruct (call h v (user s)) as [[r|e] u]; eexists; (split; [reflexivity|]); simpl;
    rewrite ?calls_of_app; simpl; rewrite ?app_nil_r; reflexivity.
Qed.

Lemma for_listeners_calls ls event v : forall s,
  calls_of (trace (snd (for_listeners ls event v s)))
  = calls_of (trace s) ++ map (fun l => (l_handler l, v)) ls.
Proof.
  induction ls as [|l ls IH]; intros s; simpl.
  - rewrite app_nil_r. reflexivity.
  - unfold bind at 1.
    destruct (listener_turn (l_handler l) v ("Error in event listener for " +:+ event +:+ ":") s)
      as (s' & -> & Hcalls).
    rewrite IH, Hcalls, <- app_assoc. reflexivity.
Qed.

(** A wildcard turn leaves [called] as it was or sets it. *)
Lemma wildcard_turn_result chain event data l called s :
  exists r s',
    wildcard_turn chain event data l called s = (Normal r, s')
    /\ (r = true \/ r = called).
Proof.
  destruct (run_chain_normal chain data s) as (v & s1 & Hrun).
  destruct (is_undefined v) eqn:Hv.
  - destruct v; try discriminate Hv.
    rewrite (wildcard_turn_suppressed _ _ _ _ _ _ _ Hrun). eauto.
  - rewrite (wildcard_turn_delivers _ _ _ _ _ _ _ _ Hrun Hv).
    destruct (call (l_handler l) (envelope event v) (user s1)) as [[r|e] u]; eauto.
Qed.

Lemma for_wildcards_true ls chain event data : forall s,
  fst (for_wildcards ls chain event data true s) = Normal true.
Proof.
  induction ls as [|l ls IH]; intros s; simpl; [reflexivity|].
  unfold bind. destruct (wildcard_turn_result chain event data l true s)
    as (r & s' & -> & [->| ->]); apply IH.
Qed.

Lemma per_name_delivery_eq event data ls v s s1 :
  listeners (this s) !! event = Some ls ->
  ls <> [] ->
  run_chain (operationChains (this s) !! event) data s = (Normal v, s1) ->
  is_undefined v = false ->
  let s2 := snd (for_listeners ls event v s1) in
  calls_of (trace s2) = calls_of (trace s1) ++ map (fun l => (l_handler l, v)) ls
  /\ _emitInternal event data s
     = for_wildcards (wildcardListeners (this s)) (operationChains (this s) !! event)
         event data true s2
  /\ fst (_emitInternal event data s) = Normal true.
Proof.
  intros Hl Hne Hrun Hv s2.
  assert (Heq : _emitInternal event data s
                = for_wildcards (wildcardListeners (this s))
                    (operationChains (this s) !! event) event data true s2).
  { unfold _emitInternal. unfold_m. rewrite Hl.
    rewrite bool_decide_eq_true_2 by eauto. simpl.
    rewrite (nonempty_ltb _ Hne), Hrun, Hv.
    destruct (returns_for_listeners ls event v s1) as ([] & s2' & Hfor).
    subst s2. rewrite Hfor. reflexivity. }
  split; [apply for_listeners_calls|]. split; [exact Heq|].
  rewrite Heq. apply for_wildcards_true.
Qed.

(** X4: when the name has listeners and the evaluation of its chain gives a
    payload other than [undefined], every listener of the name is called
    exactly once with that payload, in subscription order, whether or not
    listeners before it threw; the wildcard loop follows, and the delivery
    returns true whatever the wildcard listeners do. *)
Theorem per_name_delivery event data ls v s s1 :
  listeners (this s) !! event = Some ls ->
  ls <> [] ->
  run_chain (operationChains (this s) !! event) data s = (Normal v, s1) ->
  is_undefined v = false ->
  let s2 := snd (for_listeners ls event v s1) in
  calls_of (trace s2) = calls_of (trace s1) ++ map (fun l => (l_handler l, v)) ls
  /\ _emitInternal event data s
     = for_wildcards (wildcardListeners (this s)) (operationChains (this s) !! event)
         event data true s2
  /\ fst (_emitInternal event data s) = Normal true.
Proof. apply per_name_delivery_eq. Qed.

Lemma for_wildcards_calls_unchained ls event data : forall called s,
  is_undefined data = false ->
  calls_of (trace (snd (for_wildcards ls None event data called s)))
  = calls_of (trace s) ++ map (fun l => (l_handler l, envelope event data)) ls.
Proof.
  induction ls as [|l ls IH]; intros called s Hd; simpl.
  - rewrite app_nil_r. reflexivity.
  - unfold bind.
    rewrite (wildcard_turn_delivers None event data l called data s s eq_refl Hd).
    destruct (call (l_handler l) (envelope event data) (user s)) as [[r|e] u];
      rewrite IH by exact Hd; simpl; rewrite !calls_of_app; simpl;
      rewrite ?app_nil_r, <- app_assoc; reflexivity.
Qed.

Lemma emit_ungated event data s :
  truthy_num (throttleDelays (this s) !! event) = false ->
  truthy_num (debounceDelays (this s) !! event) = false ->
  emit event data s = _emitInternal event data s.
Proof.
  intros Ht Hd. rewrite emit_eq. unfold throttled, stamped. rewrite Ht. simpl.
  rewrite debounce_or_deliver_eq, Hd. reflexivity.
Qed.

(** X5: on a name without chain and without truthy delays, [emit] with a
    payload other than [undefined] calls the listeners of the name in
    subscription order with the payload, then the wildcard listeners in
    subscription order with the envelope, each exactly once and nothing
    else; it returns true when the name has a listener. *)
Theorem emit_fan_out_order event data s :
  operationChains (this s) !! event = None ->
  truthy_num (throttleDelays (this s) !! event) = false ->
  truthy_num (debounceDelays (this s) !! event) = false ->
  is_undefined data = false ->
  calls_of (trace (snd (emit event data s)))
  = calls_of (trace s)
    ++ map (fun l => (l_handler l, data)) (default [] (listeners (this s) !! event))
    ++ map (fun l => (l_handler l, envelope event data)) (wildcardListeners (this s))
  /\ (default [] (listeners (this s) !! event) <> [] ->
      fst (emit event data s) = Normal true).
Proof.
  intros Hc Ht Hd Hdata. rewrite (emit_ungated _ _ _ Ht Hd).
  destruct (listeners (this s) !! event) as [ls|] eqn:Hl; simpl.
  - destruct ls as [|l0 ls0].
    + split; [|congruence]. unfold _emitInternal. unfold_m. rewrite Hl, Hc.
      rewrite bool_decide_eq_true_2 by eauto. simpl.
      apply for_wildcards_calls_unchained. exact Hdata.
    + assert (Hne : l0 :: ls0 <> []) by discriminate.
      assert (Hrun : run_chain (operationChains (this s) !! event) data s = (Normal data, s))
        by (rewrite Hc; reflexivity).
      destruct (per_name_delivery_eq event data (l0 :: ls0) data s s Hl Hne Hrun Hdata)
        as (Hcalls & Heq & Htrue).
      split; [|intros _; exact Htrue].
      rewrite Heq, Hc, for_wildcards_calls_unchained by exact Hdata.
      rewrite Hcalls, <- app_assoc. reflexivity.
  - split; [|congruence]. unfold _emitInternal. unfold_m. rewrite Hl, Hc.
    rewrite bool_decide_eq_false_2 by (intros [? ?]; discriminate).
    destruct (wildcardListeners (this s)) as [|w ws] eqn:Hw.
    + simpl. rewrite app_nil_r. reflexivity.
    + cbn [negb andb length Nat.eqb default map app].
      apply for_wildcards_calls_unchained. exact Hdata.
Qed.

Lemma for_wildcards_all_throw ls chain event data :
  (forall l arg u, In l ls -> exists e u', call (l_handler l) arg u = (Throw e, u')) ->
  forall called s, fst (for_wildcards ls chain event data called s) = Normal called.
Proof.
  induction ls as [|l ls IH]; intros Hthrow called s; simpl; [reflexivity|].
  unfold bind.
  assert (Hturn : exists s', wildcard_turn chain event data l called s = (Normal called, s')).
  { destruct (run_chain_normal chain data s) as (v & s1 & Hrun).
    destruct (is_undefined v) eqn:Hv.
    - destruct v; try discriminate Hv.
      rewrite (wildcard_turn_suppressed _ _ _ _ _ _ _ Hrun). eauto.
    - rewrite (wildcard_turn_delivers _ _ _ _ _ _ _ _ Hrun Hv).
      destruct (Hthrow l (envelope event v) (user s1) (or_introl eq_refl)) as (e & u' & ->).
      eauto. }
  destruct Hturn as (s' & ->). apply IH. intros l' arg u Hin. apply Hthrow. right. exact Hin.
Qed.

(** X6: a wildcard listener that throws does not count as a delivery: when
    the name has no listener of its own and every wildcard listener throws,
    the delivery returns false, although the wildcard listeners were
    called. *)
Theorem throwing_wildcards_do_not_count event data s :
  default [] (listeners (this s) !! event) = [] ->
  (forall l arg u, In l (wildcardListeners (this s)) ->
     exists e u', call (l_handler l) arg u = (Throw e, u')) ->
  fst (_emitInternal event data s) = Normal false
  /\ (operationChains (this s) !! event = None -> is_undefined data = false ->
      calls_of (trace (snd (_emitInternal event data s)))
      = calls_of (trace s)
        ++ map (fun l => (l_handler l, envelope event data)) (wildcardListeners (this s))).
Proof.
  intros Hl Hthrow.
  assert (Heq : _emitInternal event data s
                = for_wildcards (wildcardListeners (this s))
                    (operationChains (this s) !! event) event data false s).
  { unfold _emitInternal. unfold_m.
    destruct (listeners (this s) !! event) as [ls|]; simpl in Hl.
    - subst ls. rewrite bool_decide_eq_true_2 by eauto. reflexivity.
    - rewrite bool_decide_eq_false_2 by (intros [? ?]; discriminate). simpl.
      destruct (wildcardListeners (this s)); reflexivity. }
  rewrite Heq. split; [apply for_wildcards_all_throw; exact Hthrow|].
  intros Hc Hd. rewrite Hc. apply for_wildcards_calls_unchained. exact Hd.
Qed.

(** ** Subscribing *)

Lemma on_aborted event listener signal s :
  is_aborted signal = true ->
  on event listener signal s
  = (Normal (pretty (idCounter (this s))),
     with_this (set_idCounter (S (idCounter (this s))) (this s)) s).
Proof.
  intros Ha. unfold on. unfold_m. simpl. unfold is_aborted in Ha. rewrite Ha. reflexivity.
Qed.

(** The state that [on] leaves when the signal is not aborted. *)
Lemma on_eq event listener signal s :
  is_aborted signal = false ->
  let id := pretty (idCounter (this s)) in
  let l := {| l_id := id; l_handler := listener |} in
  let e1 := set_idCounter (S (idCounter (this s))) (this s) in
  on event listener signal s
  = (Normal id,
     {| this :=
          if String.eqb event "*"
          then set_wildcardListeners (wildcardListeners (this s) ++ [l]) e1
          else set_listeners
                 (<[event := default [] (listeners (this s) !! event) ++ [l]]>
                    (listeners (this s))) e1;
        user := user s; clock := clock s; timers := timers s; nextTimer := nextTimer s;
        trace :=
          (trace s ++ (if cap_reached (this s) event then [Warned (cap_warning event)] else []))
          ++ match signal with
             | Some sg => [AbortListenerAdded (sig_ref sg) event id]
             | None => []
             end |}).
Proof.
  intros Ha. unfold on, addEventListener_abort, cap_reached, cap_warning, listenerCount.
  unfold_m. simpl. unfold is_aborted in Ha. rewrite Ha.
  destruct (String.eqb event "*") eqn:Hw; simpl;
    destruct (_ && _); simpl; destruct signal as [sg|]; simpl;
    rewrite ?app_nil_r; reflexivity.
Qed.

(** X7: [on] returns the decimal form of the counter and moves the counter
    on.  With an aborted signal it does nothing else.  Otherwise it appends
    the listener to the slot of the name, at the cap or not, so that the
    count of the name grows by one and the other names keep their listeners;
    it warns exactly when the cap is positive and the count had reached it. *)
Theorem on_registers event listener signal s :
  let id := pretty (idCounter (this s)) in
  let s' := snd (on event listener signal s) in
  fst (on event listener signal s) = Normal id
  /\ idCounter (this s') = S (idCounter (this s))
  /\ (is_aborted signal = true ->
      s' = with_this (set_idCounter (S (idCounter (this s))) (this s)) s)
  /\ (is_aborted signal = false ->
      registrations (this s') event
      = registrations (this s) event ++ [{| l_id := id; l_handler := listener |}]
      /\ listenerCount (this s') event = listenerCount (this s) event + 1
      /\ (forall other, other <> event ->
            registrations (this s') other = registrations (this s) other)
      /\ (In (Warned (cap_warning event)) (trace s')
          <-> In (Warned (cap_warning event)) (trace s)
              \/ 0 < maxListeners (this s) <= listenerCount (this s) event)).
Proof.
  intros id s'. subst s'. destruct (is_aborted signal) eqn:Ha.
  - rewrite (on_aborted _ _ _ _ Ha). simpl. repeat split; try reflexivity; discriminate.
  - set (l := {| l_id := id; l_handler := listener |}).
    set (e' := if String.eqb event "*"
               then set_wildcardListeners (wildcardListeners (this s) ++ [l])
                      (set_idCounter (S (idCounter (this s))) (this s))
               else set_listeners
                      (<[event := default [] (listeners (this s) !! event) ++ [l]]>
                         (listeners (this s)))
                      (set_idCounter (S (idCounter (this s))) (this s))).
    assert (Hthis : this (snd (on event listener signal s)) = e')
      by (rewrite (on_eq _ _ _ _ Ha); reflexivity).
    assert (Htrace : trace (snd (on event listener signal s))
                     = (trace s ++ (if cap_reached (this s) event
                                    then [Warned (cap_warning event)] else []))
                       ++ match signal with
                          | Some sg => [AbortListenerAdded (sig_ref sg) event id]
                          | None => []
                          end)
      by (rewrite (on_eq _ _ _ _ Ha); reflexivity).
    assert (Hfst : fst (on event listener signal s) = Normal id)
      by (rewrite (on_eq _ _ _ _ Ha); reflexivity).
    rewrite Hthis, Htrace, Hfst. clear Hthis Htrace Hfst.
    split; [reflexivity|].
    split; [subst e'; destruct (String.eqb event "*"); reflexivity|].
    split; [discriminate|]. intros _.
    assert (Hregs : registrations e' event = registrations (this s) event ++ [l]).
    { subst e'. unfold registrations. destruct (String.eqb event "*"); simpl; [reflexivity|].
      rewrite lookup_insert_eq. reflexivity. }
    split; [exact Hregs|]. split; [|split].
    + rewrite !listenerCount_registrations, Hregs, length_app. simpl. lia.
    + intros other Ho. subst e'. unfold registrations.
      destruct (String.eqb event "*") eqn:Hw; simpl.
      * apply String.eqb_eq in Hw. subst event.
        apply String.eqb_neq in Ho. rewrite Ho. reflexivity.
      * destruct (String.eqb other "*"); [reflexivity|].
        rewrite lookup_insert_ne by congruence. reflexivity.
    + unfold cap_reached. rewrite !in_app_iff.
      assert (Hsig : ~ In (Warned (cap_warning event))
                       match signal with
                       | Some sg => [AbortListenerAdded (sig_ref sg) event id]
                       | None => []
                       end).
      { destruct signal; simpl; [intros [H|[]]; discriminate H | intros []]. }
      destruct (0 <? maxListeners (this s)) eqn:Hpos;
        destruct (maxListeners (this s) <=? listenerCount (this s) event) eqn:Hle; simpl;
        try apply Z.ltb_lt in Hpos; try apply Z.ltb_ge in Hpos;
        try apply Z.leb_le in Hle; try apply Z.leb_gt in Hle;
        intuition lia.
Qed.

(** ** Listener ids *)

Lemma sublist_map {A B} (f : A -> B) (l1 l2 : list A) :
  sublist l1 l2 -> sublist (map f l1) (map f l2).
Proof using.
  induction 1; simpl; [constructor | constructor; assumption | constructor; assumption].
Qed.

Lemma sublist_In {A} (l1 l2 : list A) x : In x l1 -> sublist l1 l2 -> In x l2.
Proof using.
  intros Hin Hsub. apply list_elem_of_In. eapply elem_of_sublist; [|exact Hsub].
  apply list_elem_of_In. exact Hin.
Qed.

Lemma shrinks_registered e e' slot l :
  shrinks e e' -> registered e' slot l -> registered e slot l.
Proof using.
  intros (Hnamed & Hwild & _). destruct slot as [event|]; simpl.
  - intros (ls' & Hl' & Hin). destruct (Hnamed event ls' Hl') as (ls & Hl & Hsub).
    exists ls. split; [exact Hl | eapply sublist_In; eassumption].
  - intros Hin. eapply sublist_In; eassumption.
Qed.

Lemma ids_issued_shrinks e e' : ids_issued e -> shrinks e e' -> ids_issued e'.
Proof using.
  intros (Hbelow & Hslot & Hnd & Hndw) Hsh.
  pose proof (shrinks_registered e e') as Hreg.
  destruct Hsh as (Hnamed & Hwild & Hcount).
  assert (Hsh : shrinks e e') by (split; [|split]; assumption).
  split; [|split; [|split]].
  - intros slot l Hl. destruct (Hbelow slot l (Hreg slot l Hsh Hl)) as (k & Hk & Hid).
    exists k. split; [lia | exact Hid].
  - intros slot1 slot2 l1 l2 H1 H2. apply Hslot; apply Hreg; assumption.
  - intros event ls' Hl'. destruct (Hnamed event ls' Hl') as (ls & Hl & Hsub).
    eapply sublist_NoDup; [exact (Hnd event ls Hl) | apply sublist_map; exact Hsub].
  - eapply sublist_NoDup; [exact Hndw | apply sublist_map; exact Hwild].
Qed.

Lemma same_registry_shrinks e e' : same_registry e e' -> shrinks e e'.
Proof using.
  intros (Hl & Hw & Hc). unfold shrinks. rewrite Hl, Hw, Hc.
  split; [|split; [reflexivity | lia]].
  intros event ls' Hls. exists ls'. split; [exact Hls | reflexivity].
Qed.

Lemma registered_after_on e event l slot x :
  let e' := if String.eqb event "*"
            then set_wildcardListeners (wildcardListeners e ++ [l])
                   (set_idCounter (S (idCounter e)) e)
            else set_listeners (<[event := default [] (listeners e !! event) ++ [l]]>
                                  (listeners e))
                   (set_idCounter (S (idCounter e)) e) in
  registered e' slot x <-> registered e slot x \/ (slot = slot_of event /\ x = l).
Proof using.
  unfold slot_of. destruct (String.eqb event "*") eqn:Hw; simpl.
  - destruct slot as [ev|]; simpl.
    + split; [auto | intros [H|[H _]]; [exact H | discriminate H]].
    + rewrite in_app_iff. simpl. split.
      * intros [H|[H|[]]]; [left; exact H | right; split; congruence].
      * intros [H|[_ H]]; [left; exact H | right; left; congruence].
  - destruct slot as [ev|]; simpl.
    + destruct (decide (ev = event)) as [->|Hne].
      * rewrite lookup_insert_eq. split.
        -- intros (ls & [= <-] & Hin). apply in_app_iff in Hin as [Hin|[<-|[]]].
           ++ left. destruct (listeners e !! event) as [ls0|]; [eauto | destruct Hin].
           ++ right. split; reflexivity.
        -- intros [(ls & Hl & Hin)|[_ ->]]; eexists; (split; [reflexivity|]);
             apply in_app_iff; [left; rewrite Hl; exact Hin | right; left; reflexivity].
      * rewrite lookup_insert_ne by congruence.
        split; [auto | intros [H|[H _]]; [exact H | congruence]].
    + split; [auto | intros [H|[H _]]; [exact H | discriminate H]].
Qed.

Lemma on_ids_issued event listener signal s :
  ids_issued (this s) -> ids_issued (this (snd (on event listener signal s))).
Proof.
  intros Hids. destruct (is_aborted signal) eqn:Ha.
  - rewrite (on_aborted _ _ _ _ Ha). simpl. apply (ids_issued_shrinks _ _ Hids).
    split; [|split; [reflexivity | simpl; lia]].
    intros ev ls' Hls. exists ls'. split; [exact Hls | reflexivity].
  - rewrite (on_eq _ _ _ _ Ha). simpl.
    set (l := {| l_id := pretty (idCounter (this s)); l_handler := listener |}).
    pose proof (registered_after_on (this s) event l) as Hreg. simpl in Hreg.
    destruct Hids as (Hbelow & Hslot & Hnd & Hndw).
    assert (Hfresh : forall slot x, registered (this s) slot x -> l_id x <> l_id l).
    { intros slot x Hx Heq. destruct (Hbelow slot x Hx) as (k & Hk & Hid).
      rewrite Hid in Heq. simpl in Heq. apply (inj pretty) in Heq. lia. }
    split; [|split; [|split]].
    + intros slot x Hx. apply Hreg in Hx as [Hx|[_ ->]].
      * destruct (Hbelow slot x Hx) as (k & Hk & Hid). exists k.
        split; [destruct (String.eqb event "*"); simpl; lia | exact Hid].
      * exists (idCounter (this s)).
        split; [destruct (String.eqb event "*"); simpl; lia | reflexivity].
    + intros slot1 slot2 l1 l2 H1 H2 Heq.
      apply Hreg in H1 as [H1|[-> ->]]; apply Hreg in H2 as [H2|[-> ->]].
      * eapply Hslot; eassumption.
      * destruct (Hfresh _ _ H1 Heq).
      * destruct (Hfresh _ _ H2 (eq_sym Heq)).
      * reflexivity.
    + intros ev ls Hls. destruct (String.eqb event "*") eqn:Hw; simpl in Hls.
      * apply (Hnd ev ls Hls).
      * destruct (decide (ev = event)) as [->|Hne].
        -- rewrite lookup_insert_eq in Hls. injection Hls as <-.
           rewrite map_app. apply NoDup_app. split; [|split].
           ++ destruct (listeners (this s) !! event) as [ls0|] eqn:Hl0; simpl;
                [apply (Hnd event ls0 Hl0) | constructor].
           ++ intros id Hid Hnew. simpl in Hnew. apply list_elem_of_In in Hnew as [Hnew|[]].
              apply list_elem_of_In, in_map_iff in Hid as (x & Hx & Hin).
              destruct (listeners (this s) !! event) as [ls0|] eqn:Hl0; [|destruct Hin].
              apply (Hfresh (Some event) x); [exists ls0; auto | simpl; congruence].
           ++ simpl. apply NoDup_singleton.
        -- rewrite lookup_insert_ne in Hls by congruence. apply (Hnd ev ls Hls).
    + destruct (String.eqb event "*") eqn:Hw; simpl; [|exact Hndw].
      rewrite map_app. apply NoDup_app. split; [exact Hndw|]. split.
      * intros id Hid Hnew. simpl in Hnew. apply list_elem_of_In in Hnew as [Hnew|[]].
        apply list_elem_of_In, in_map_iff in Hid as (x & Hx & Hin).
        apply (Hfresh None x); [exact Hin | simpl; congruence].
      * simpl. apply NoDup_singleton.
Qed.

Lemma off_shrinks event idOrHandler s :
  shrinks (this s) (this (snd (off event idOrHandler s))).
Proof.
  unfold off. unfold_m. simpl. destruct (String.eqb event "*"); simpl.
  - split; [|split; [apply sublist_filter | simpl; lia]].
    intros ev ls' Hls. exists ls'. split; [exact Hls | reflexivity].
  - destruct (listeners (this s) !! event) as [ls|] eqn:Hl; simpl;
      [|apply same_registry_shrinks; repeat split].
    destruct (Nat.eqb _ _); simpl; [apply same_registry_shrinks; repeat split|].
    split; [|split; [reflexivity | simpl; lia]].
    intros ev ls' Hls. simpl in Hls. destruct (decide (ev = event)) as [->|Hne].
    + rewrite lookup_insert_eq in Hls. injection Hls as <-.
      exists ls. split; [exact Hl | apply sublist_filter].
    + rewrite lookup_insert_ne in Hls by congruence.
      exists ls'. split; [exact Hls | reflexivity].
Qed.

Lemma removeAllListeners_shrinks event s :
  shrinks (this s) (this (snd (removeAllListeners event s))).
Proof.
  unfold removeAllListeners. destruct (truthy_str event).
  - unfold clearTimeout. unfold_m. simpl.
    assert (Hdel : forall ev ls',
               delete (default "" event) (listeners (this s)) !! ev = Some ls' ->
               exists ls, listeners (this s) !! ev = Some ls /\ sublist ls' ls).
    { intros ev ls' Hls. apply lookup_delete_Some in Hls as [_ Hls].
      exists ls'. split; [exact Hls | reflexivity]. }
    destruct (debounceTimers (this s) !! default "" event); simpl;
      (split; [exact Hdel | split; [reflexivity | cbn; lia]]).
  - unfold_m. simpl. rewrite clear_all_eq. simpl.
    split; [|split; [apply sublist_nil_l | cbn; lia]].
    intros ev ls' Hls. change ((∅ : gmap string (list ListenerWithId)) !! ev = Some ls') in Hls.
    rewrite lookup_empty in Hls. discriminate Hls.
Qed.

Lemma same_settings_registry e e' : same_settings e e' -> same_registry e e'.
Proof using.
  unfold same_settings, same_registry. intros H. rewrite H. repeat split.
Qed.

Lemma same_registry_this (s s' : State) : this s' = this s -> same_registry (this s) (this s').
Proof using. intros ->. repeat split. Qed.

Lemma stamped_registry event s : same_registry (this s) (this (stamped event s)).
Proof using. unfold stamped. destruct (truthy_num _); repeat split. Qed.

Lemma same_registry_trans e1 e2 e3 :
  same_registry e1 e2 -> same_registry e2 e3 -> same_registry e1 e3.
Proof using.
  intros (H1 & H2 & H3) (H4 & H5 & H6). unfold same_registry.
  rewrite H4, H5, H6. repeat split; assumption.
Qed.

Lemma emit_registry event data s :
  same_registry (this s) (this (snd (emit event data s))).
Proof.
  rewrite emit_eq. destruct (throttled _ _ _); [repeat split|].
  apply (same_registry_trans _ _ _ (stamped_registry event s)).
  rewrite <- (stamped_debounceDelays event s), debounce_or_deliver_eq.
  destruct (truthy_num _); simpl; [repeat split|].
  apply same_registry_this. apply keeps_frame_emitInternal.
Qed.

Lemma run_due_settings until : forall fuel s,
  same_settings (this s) (this (snd (run_due fuel until s))).
Proof.
  induction fuel as [|fuel IH]; intros s; simpl; [apply same_settings_refl|].
  unfold get. unfold bind at 1.
  destruct (next_timer (timers s)) as [t|]; [|apply same_settings_refl].
  destruct (t_due t <=? until); [|apply same_settings_refl].
  unfold bind at 1. destruct (returns_fire t s) as ([] & s1 & Hf). rewrite Hf.
  assert (H1 : same_settings (this s) (this s1)).
  { replace s1 with (snd (fire t s)) by (rewrite Hf; reflexivity).
    rewrite fire_this. unfold same_settings. reflexivity. }
  specialize (IH s1). unfold bind, ret.
  destruct (run_due fuel until s1) as [[fired|err] s2]; simpl in *;
    exact (same_settings_trans _ _ _ H1 IH).
Qed.

Lemma advance_settings until s : same_settings (this s) (this (snd (advance until s))).
Proof.
  unfold advance. unfold get. unfold bind at 1.
  pose proof (run_due_settings until (length (timers s)) s) as H.
  unfold bind, ret, modify.
  destruct (run_due (length (timers s)) until s) as [[fired|err] s1]; simpl in *; exact H.
Qed.

Lemma removeAllOperations_registry event s :
  same_registry (this s) (this (snd (removeAllOperations event s))).
Proof.
  unfold removeAllOperations. destruct (truthy_str event).
  - unfold clearTimeout. unfold_m. simpl.
    destruct (debounceTimers (this s) !! default "" event); repeat split.
  - unfold_m. simpl. rewrite clear_all_eq. repeat split.
Qed.

Lemma removeDebounce_registry event s :
  same_registry (this s) (this (snd (removeDebounce event s))).
Proof.
  unfold removeDebounce, clearTimeout. unfold_m. simpl.
  destruct (debounceTimers (this s) !! event); repeat split.
Qed.

(** What the calls that configure the emitter leave alone: the listeners,
    the counter, the timers and their record. *)
Lemma configuring_keeps o s :
  match o with
  | Op_removeThrottle _ | Op_setMaxListeners _ | Op_step _ _ | Op_debounce _ _
  | Op_throttle _ _ =>
      same_registry (this s) (this (do_op o s))
      /\ debounceTimers (this (do_op o s)) = debounceTimers (this s)
      /\ timers (do_op o s) = timers s
      /\ nextTimer (do_op o s) = nextTimer s
  | _ => True
  end.
Proof.
  destruct o as [| | | | | | | event | n | event step | event d | event d | ]; try exact I;
    simpl.
  - repeat split.
  - unfold setMaxListeners. destruct (n <? 0); repeat split.
  - unfold builder_add, builder_transform, builder_filter, builder_tap.
    destruct (s_type step); repeat split.
  - repeat split.
  - repeat split.
Qed.

(** Every call but [on] leaves the emitter with listeners it had; [on]
    moves the counter on. *)
Lemma do_op_shrinks o s :
  match o with
  | Op_on _ _ _ => idCounter (this (do_op o s)) = S (idCounter (this s))
  | _ => shrinks (this s) (this (do_op o s))
  end.
Proof.
  pose proof (configuring_keeps o s) as Hc.
  destruct o; simpl in *;
    try (apply same_registry_shrinks; apply Hc).
  - destruct (is_aborted signal) eqn:Ha;
      [rewrite (on_aborted _ _ _ _ Ha) | rewrite (on_eq _ _ _ _ Ha)]; simpl;
      [reflexivity | destruct (String.eqb event "*"); reflexivity].
  - apply off_shrinks.
  - apply same_registry_shrinks, emit_registry.
  - apply same_registry_shrinks, same_registry_this, emitToListener_frame.
  - apply removeAllListeners_shrinks.
  - apply same_registry_shrinks, removeAllOperations_registry.
  - apply same_registry_shrinks, removeDebounce_registry.
  - apply same_registry_shrinks, same_settings_registry, advance_settings.
Qed.

Lemma do_op_counter o s : (idCounter (this s) <= idCounter (this (do_op o s)))%nat.
Proof.
  pose proof (do_op_shrinks o s) as H.
  destruct o; try (destruct H as (_ & _ & H); exact H).
  rewrite H. lia.
Qed.

Lemma run_ops_counter ops : forall s,
  (idCounter (this s) <= idCounter (this (run_ops ops s)))%nat.
Proof.
  unfold run_ops. induction ops as [|o ops IH]; intros s; simpl; [lia|].
  specialize (IH (do_op o s)). pose proof (do_op_counter o s). lia.
Qed.

Lemma do_op_ids_issued o s : ids_issued (this s) -> ids_issued (this (do_op o s)).
Proof.
  intros Hids. pose proof (do_op_shrinks o s) as H.
  destruct o; try (exact (ids_issued_shrinks _ _ Hids H)).
  apply on_ids_issued, Hids.
Qed.

Lemma do_op_recorded o s : timers_recorded s -> timers_recorded (do_op o s).
Proof.
  intros Hwf. pose proof (configuring_keeps o s) as Hc.
  destruct o; simpl in *;
    try (destruct Hc as (_ & H1 & H2 & H3);
         exact (timers_recorded_this _ _ H1 H2 H3 Hwf)).
  - apply on_recorded, Hwf.
  - apply off_recorded, Hwf.
  - apply emit_recorded, Hwf.
  - apply emitToListener_recorded, Hwf.
  - destruct (truthy_str event) eqn:Hev.
    + destruct event as [event|]; [|discriminate Hev].
      apply removeAllListeners_named_recorded; [|exact Hwf].
      intros ->. discriminate Hev.
    + apply removeAllListeners_all_recorded; assumption.
  - apply removeAllOperations_recorded, Hwf.
  - apply removeDebounce_recorded, Hwf.
  - apply advance_recorded, Hwf.
Qed.

(** No call registers a listener under the name "*" in the per-name map. *)
Lemma do_op_no_star o s :
  listeners (this s) !! "*" = None -> listeners (this (do_op o s)) !! "*" = None.
Proof.
  intros Hno. pose proof (do_op_shrinks o s) as H.
  destruct o;
    try (destruct H as (H & _);
         destruct (listeners (this (do_op _ s)) !! "*") as [ls'|] eqn:Hl; [|reflexivity];
         destruct (H "*" ls' Hl) as (ls & Hls & _); congruence).
  simpl. destruct (is_aborted signal) eqn:Ha;
    [rewrite (on_aborted _ _ _ _ Ha) | rewrite (on_eq _ _ _ _ Ha)]; simpl; [exact Hno|].
  destruct (String.eqb event "*") eqn:Hw; simpl; [exact Hno|].
  apply String.eqb_neq in Hw. rewrite lookup_insert_ne by congruence. exact Hno.
Qed.

Lemma empty_emitter_ids_issued cap : ids_issued (empty_emitter cap).
Proof using.
  unfold ids_issued, empty_emitter. simpl. split; [|split; [|split]].
  - intros [ev|] l; simpl; [|intros []]. intros (ls & Hls & _).
    rewrite lookup_empty in Hls. discriminate Hls.
  - intros [ev|] slot2 l1 l2; simpl; [|intros []]. intros (ls & Hls & _).
    rewrite lookup_empty in Hls. discriminate Hls.
  - intros ev ls Hls. rewrite lookup_empty in Hls. discriminate Hls.
  - constructor.
Qed.

Lemma new_EventEmitter_empty config e :
  new_EventEmitter config = Normal e -> exists cap, e = empty_emitter cap.
Proof using.
  unfold new_EventEmitter. intros H.
  repeat match type of H with
         | context [match ?x with _ => _ end] => destruct x
         | context [if ?b then _ else _] => destruct b
         end; try discriminate H; injection H as <-; eexists; reflexivity.
Qed.

Lemma run_ops_invariants ops : forall s,
  timers_recorded s -> ids_issued (this s) -> listeners (this s) !! "*" = None ->
  timers_recorded (run_ops ops s) /\ ids_issued (this (run_ops ops s))
  /\ listeners (this (run_ops ops s)) !! "*" = None.
Proof.
  unfold run_ops. induction ops as [|o ops IH]; intros s Hwf Hids Hno; simpl; [auto|].
  apply IH; [apply do_op_recorded | apply do_op_ids_issued | apply do_op_no_star]; assumption.
Qed.

(** ** Invariants of the reachable states *)

(** X8: in every state that calls of the public methods and the passing of
    time reach from a newly constructed emitter, each pending platform timer
    is the recorded debounce timer of its name, the ids of the registered
    listeners were issued by the counter and no two registered listeners
    share an id, and the per-name map has no entry for "*". *)
Theorem reachable_invariants config e u ops :
  new_EventEmitter config = Normal e ->
  let s := run_ops ops (initial_state e u) in
  timers_recorded s /\ ids_issued (this s) /\ listeners (this s) !! "*" = None.
Proof.
  intros Hnew. destruct (new_EventEmitter_empty config e Hnew) as (cap & ->).
  apply run_ops_invariants;
    [apply initial_state_recorded | apply empty_emitter_ids_issued | reflexivity].
Qed.

(** X9: an id that [on] returned is never returned again, whatever is
    called in between. *)
Theorem ids_never_reused event listener signal ops event' listener' signal' s :
  let s1 := snd (on event listener signal s) in
  fst (on event' listener' signal' (run_ops ops s1)) <> fst (on event listener signal s).
Proof.
  intros s1. pose proof (run_ops_counter ops s1) as Hle.
  pose proof (do_op_shrinks (Op_on event listener signal) s) as Hs. simpl in Hs.
  fold s1 in Hs.
  assert (Hfst : forall ev h sg s0, fst (on ev h sg s0) = Normal (pretty (idCounter (this s0)))).
  { intros ev h sg s0. destruct (is_aborted sg) eqn:Ha;
      [rewrite (on_aborted _ _ _ _ Ha) | rewrite (on_eq _ _ _ _ Ha)]; reflexivity. }
  rewrite !Hfst. intros [= Heq]. apply (inj pretty) in Heq. lia.
Qed.

(** ** Unsubscribing by id *)

Lemma off_keeps_id id l : off_keeps (inl id) l = true <-> l_id l <> id.
Proof using.
  simpl. rewrite negb_true_iff. split.
  - intros Hne Heq. rewrite Heq, String.eqb_refl in Hne. discriminate.
  - intros Hne. apply String.eqb_neq. exact Hne.
Qed.

Lemma existsb_id_In id (ls : list ListenerWithId) :
  existsb (fun l => String.eqb (l_id l) id) ls = true <-> In id (map l_id ls).
Proof using.
  rewrite existsb_exists, in_map_iff. split; intros (l & H1 & H2); exists l.
  - split; [apply String.eqb_eq; exact H2 | exact H1].
  - split; [exact H2 | apply String.eqb_eq; exact H1].
Qed.

(** Removing an id from a list that holds no id twice removes one entry,
    when the id is there. *)
Lemma filter_id_length id (ls : list ListenerWithId) :
  NoDup (map l_id ls) ->
  (length (filter (fun l => l_id l <> id) ls)
   + (if existsb (fun l => String.eqb (l_id l) id) ls then 1 else 0) = length ls)%nat.
Proof using.
  induction ls as [|x ls IH]; [reflexivity|]. simpl map. rewrite NoDup_cons.
  intros [Hx Hnd]. rewrite filter_cons. simpl existsb.
  destruct (decide (l_id x <> id)) as [Hne|Heq].
  - apply String.eqb_neq in Hne. rewrite Hne. simpl. specialize (IH Hnd). lia.
  - assert (Hid : l_id x = id) by (destruct (decide (l_id x = id)); tauto).
    rewrite Hid, String.eqb_refl. simpl.
    rewrite filter_all; [lia|]. intros y Hy Hyid. apply Hx. rewrite Hid, <- Hyid.
    apply list_elem_of_In, in_map. exact Hy.
Qed.

Lemma ids_issued_registrations e event :
  ids_issued e -> NoDup (map l_id (registrations e event)).
Proof using.
  intros (_ & _ & Hnd & Hndw). unfold registrations.
  destruct (String.eqb event "*"); [exact Hndw|].
  destruct (listeners e !! event) as [ls|] eqn:Hl; [exact (Hnd event ls Hl) | constructor].
Qed.

(** X10: while no two registered listeners share an id, [off] with an id
    removes the one registration of the name with that id and reports it,
    so that the count of the name drops by one; without such a registration
    it returns false.  The other registrations of the name stay in order
    and the other names keep theirs. *)
Theorem off_by_id_removes_one event id s :
  ids_issued (this s) ->
  let found := existsb (fun l => String.eqb (l_id l) id) (registrations (this s) event) in
  exists s1,
    off event (inl id) s = (Normal found, s1)
    /\ registrations (this s1) event
       = filter (fun l => l_id l <> id) (registrations (this s) event)
    /\ listenerCount (this s1) event
       = listenerCount (this s) event - (if found then 1 else 0)
    /\ (forall other, other <> event ->
          registrations (this s1) other = registrations (this s) other)
    /\ ids_issued (this s1).
Proof.
  intros Hids found.
  destruct (off_registrations event (inl id) s) as (s1 & Hoff & Hregs & _).
  assert (Hfilter : filter (fun l => off_keeps (inl id) l = true)
                      (registrations (this s) event)
                    = filter (fun l => l_id l <> id) (registrations (this s) event)).
  { apply list_filter_iff. intros l. apply off_keeps_id. }
  pose proof (filter_id_length id _ (ids_issued_registrations _ event Hids)) as Hlen.
  fold found in Hlen. rewrite Hfilter in Hoff, Hregs.
  assert (Hs1 : s1 = snd (off event (inl id) s)) by (rewrite Hoff; reflexivity).
  exists s1. split; [|split; [exact Hregs|split; [|split]]].
  - rewrite Hoff. do 2 f_equal. destruct found.
    + apply negb_true_iff, Nat.eqb_neq. lia.
    + apply negb_false_iff, Nat.eqb_eq. lia.
  - rewrite !listenerCount_registrations, Hregs. destruct found; lia.
  - intros other Hne. rewrite Hs1. apply off_others, Hne.
  - rewrite Hs1. exact (ids_issued_shrinks _ _ Hids (off_shrinks event (inl id) s)).
Qed.

(** X11: subscribing and then unsubscribing with the returned id leaves
    every name with the registrations it had: [off] removes the listener
    that [on] added and no other, and returns true unless the signal was
    aborted, when [on] had registered nothing and [off] returns false.
    The settings of the emitter are as before; the counter has moved on. *)
Theorem on_then_off_by_id event listener signal s id s1 :
  ids_issued (this s) ->
  on event listener signal s = (Normal id, s1) ->
  exists s2,
    off event (inl id) s1 = (Normal (negb (is_aborted signal)), s2)
    /\ (forall name, registrations (this s2) name = registrations (this s) name)
    /\ maxListeners (this s2) = maxListeners (this s)
    /\ operationChains (this s2) = operationChains (this s)
    /\ debounceDelays (this s2) = debounceDelays (this s)
    /\ throttleDelays (this s2) = throttleDelays (this s)
    /\ idCounter (this s2) = S (idCounter (this s)).
Proof.
  intros Hids Hon.
  assert (Hold : forall name l, In l (registrations (this s) name) ->
                                l_id l <> pretty (idCounter (this s))).
  { intros name l Hin Heq. destruct Hids as (Hbelow & _).
    destruct (Hbelow (slot_of name) l) as (k & Hk & Hid).
    - unfold registrations in Hin. unfold slot_of.
      destruct (String.eqb name "*"); simpl; [exact Hin|].
      destruct (listeners (this s) !! name) as [ls|]; [eauto | destruct Hin].
    - rewrite Hid in Heq. apply (inj pretty) in Heq. lia. }
  destruct (off_registrations event (inl id) s1) as (s2 & Hoff & Hregs & _).
  assert (Hs2 : s2 = snd (off event (inl id) s1)) by (rewrite Hoff; reflexivity).
  pose proof (off_settings event (inl id) s1) as Hset. rewrite <- Hs2 in Hset.
  simpl in Hset. destruct Hset as (Hm & Hc & Hdd & Htd & _ & _ & Hn & _).
  assert (Hkeep : filter (fun l => off_keeps (inl id) l = true)
                    (registrations (this s) event) = registrations (this s) event
                  /\ id = pretty (idCounter (this s))).
  { assert (Hid : id = pretty (idCounter (this s))).
    { destruct (is_aborted signal) eqn:Ha;
        [rewrite (on_aborted _ _ _ _ Ha) in Hon | rewrite (on_eq _ _ _ _ Ha) in Hon];
        injection Hon as <- _; reflexivity. }
    split; [|exact Hid]. apply filter_all. intros l Hl. apply off_keeps_id.
    rewrite Hid. apply (Hold event l Hl). }
  destruct Hkeep as (Hkeep & Hid).
  exists s2. destruct (is_aborted signal) eqn:Ha.
  - rewrite (on_aborted _ _ _ _ Ha) in Hon. injection Hon as _ <-.
    simpl in *. change (registrations (set_idCounter _ (this s)) event)
      with (registrations (this s) event) in *.
    rewrite Hkeep in Hoff, Hregs. rewrite Nat.eqb_refl in Hoff.
    split; [exact Hoff|]. split; [|repeat split; assumption].
    intros name. destruct (decide (name = event)) as [->|Hne]; [exact Hregs|].
    rewrite Hs2, off_others by exact Hne. reflexivity.
  - rewrite (on_eq _ _ _ _ Ha) in Hon. injection Hon as _ <-. simpl in *.
    set (l := {| l_id := pretty (idCounter (this s)); l_handler := listener |}) in *.
    assert (Hadded : forall e1, registrations
               (if String.eqb event "*"
                then set_wildcardListeners (wildcardListeners (this s) ++ [l]) e1
                else set_listeners
                       (<[event := default [] (listeners (this s) !! event) ++ [l]]>
                          (listeners (this s))) e1) event
             = registrations (this s) event ++ [l]).
    { intros e1. unfold registrations. destruct (String.eqb event "*"); simpl;
        [reflexivity | rewrite lookup_insert_eq; reflexivity]. }
    rewrite Hadded in Hoff, Hregs.
    rewrite filter_app, Hkeep in Hoff, Hregs.
    assert (Hl : filter (fun x => off_keeps (inl id) x = true) [l] = []).
    { apply filter_none. intros x [<-|[]]. rewrite off_keeps_id. simpl. congruence. }
    simpl in Hl. rewrite Hl, app_nil_r in Hoff, Hregs.
    rewrite length_app in Hoff. simpl in Hoff.
    replace (Nat.eqb _ _) with false in Hoff
      by (symmetry; apply Nat.eqb_neq; lia).
    split; [exact Hoff|]. split.
    + intros name. destruct (decide (name = event)) as [->|Hne]; [exact Hregs|].
      rewrite Hs2, off_others by exact Hne. unfold registrations.
      destruct (String.eqb name "*") eqn:Hstar; destruct (String.eqb event "*") eqn:Hw;
        simpl; try reflexivity.
      * apply String.eqb_eq in Hstar, Hw. congruence.
      * rewrite lookup_insert_ne by congruence. reflexivity.
    + rewrite Hm, Hc, Hdd, Htd, Hn.
      destruct (String.eqb event "*"); repeat split.
Qed.

(** X12: a listener that was unsubscribed by id is not reached by a
    targeted emission to that id: the call returns false, calls nothing and
    logs nothing. *)
Theorem unsubscribed_not_targeted event id data s :
  event <> "*" ->
  let s1 := snd (off event (inl id) s) in
  emitToListener event data id s1 = (Normal false, s1).
Proof.
  intros Hne s1.
  destruct (off_registrations event (inl id) s) as (s1' & Hoff & Hregs & _).
  assert (Hs1 : s1' = s1) by (unfold s1; rewrite Hoff; reflexivity). subst s1'.
  unfold registrations in Hregs. apply String.eqb_neq in Hne. rewrite Hne in Hregs.
  unfold emitToListener. unfold_m.
  destruct (listeners (this s1) !! event) as [ls|] eqn:Hl; [|reflexivity].
  simpl in Hregs. destruct (List.find _ ls) as [l|] eqn:Hf; [|reflexivity].
  apply find_id_some in Hf as [Hin Hid]. rewrite Hregs in Hin.
  apply list_elem_of_In, list_elem_of_filter in Hin as [Hkeep _].
  apply off_keeps_id in Hkeep. contradiction.
Qed.

(** ** Changing the cap *)

(** X13: [setMaxListeners] with a negative number throws and changes
    nothing.  With another number it sets the cap, 0 included, which
    [getMaxListeners] then reports, and touches nothing else; the next [on]
    warns exactly when the new cap is positive and the count of the name has
    reached it, so that a cap of 0 silences the warning. *)
Theorem setMaxListeners_sets_cap n s :
  (n < 0 ->
   setMaxListeners n s = (Throw (Error "maxListeners cannot be negative"), s))
  /\ (0 <= n ->
      let s1 := snd (setMaxListeners n s) in
      fst (setMaxListeners n s) = Normal tt
      /\ getMaxListeners s1 = (Normal n, s1)
      /\ s1 = with_this (set_maxListeners n (this s)) s
      /\ forall event listener signal,
           is_aborted signal = false ->
           (In (Warned (cap_warning event)) (trace (snd (on event listener signal s1)))
            <-> In (Warned (cap_warning event)) (trace s)
                \/ 0 < n <= listenerCount (this s) event)).
Proof.
  unfold setMaxListeners. split.
  - intros Hn. apply Z.ltb_lt in Hn. rewrite Hn. reflexivity.
  - intros Hn. apply Z.ltb_ge in Hn. rewrite Hn. unfold_m. simpl.
    repeat (split; [reflexivity|]).
    intros event listener signal Ha. rewrite (on_eq _ _ _ _ Ha). simpl.
    rewrite !in_app_iff.
    assert (Hcap : cap_reached (set_maxListeners n (this s)) event = true
                   <-> 0 < n <= listenerCount (this s) event).
    { unfold cap_reached. simpl.
      change (listenerCount (set_maxListeners n (this s)) event)
        with (listenerCount (this s) event).
      rewrite andb_true_iff, Z.ltb_lt, Z.leb_le. reflexivity. }
    destruct (cap_reached (set_maxListeners n (this s)) event).
    + assert (H : 0 < n <= listenerCount (this s) event) by (apply Hcap; reflexivity).
      split; [right; exact H | intros _; left; right; left; reflexivity].
    + split.
      * intros [[H|[]]|H]; [left; exact H|].
        destruct signal as [sg|]; simpl in H; [destruct H as [H|[]]; discriminate H | destruct H].
      * intros [H|H]; [left; left; exact H|]. apply Hcap in H. discriminate H.
Qed.

(** ** Clearing the emitter *)

Lemma advance_idle until s :
  timers s = [] -> advance until s = (Normal [], with_clock (Z.max (clock s) until) s).
Proof. intros Ht. unfold advance. unfold_m. rewrite Ht. reflexivity. Qed.

(** X14: [removeAllListeners] without a name, or with the empty string,
    removes the listeners of every name and the wildcard listeners, cancels
    every pending debounce timer and forgets the throttle records; the
    chains, the delays, the cap and the counter stay.  Time passing
    afterwards fires nothing. *)
Theorem removeAllListeners_clears_all event s :
  truthy_str event = false -> timers_recorded s ->
  let s1 := snd (removeAllListeners event s) in
  fst (removeAllListeners event s) = Normal tt
  /\ (forall name, registrations (this s1) name = [] /\ listenerCount (this s1) name = 0)
  /\ timers s1 = []
  /\ this s1
     = set_throttleTimers ∅
         (set_debounceTimers ∅ (set_wildcardListeners [] (set_listeners ∅ (this s))))
  /\ user s1 = user s /\ clock s1 = clock s /\ trace s1 = trace s
  /\ forall until,
       advance until s1 = (Normal [], with_clock (Z.max (clock s1) until) s1).
Proof.
  intros Hev Hwf. unfold removeAllListeners. rewrite Hev. unfold_m. simpl.
  rewrite clear_all_eq. simpl. rewrite (clear_recorded_timers s Hwf).
  split; [reflexivity|]. split.
  - intros name. rewrite listenerCount_registrations. unfold registrations. simpl.
    destruct (String.eqb name "*"); [split; reflexivity|].
    change ((∅ : gmap string (list ListenerWithId)) !! name) with
      (@None (list ListenerWithId)). split; reflexivity.
  - repeat (split; [reflexivity|]). intros till. rewrite advance_idle by reflexivity. reflexivity.
Qed.

(** ** Removing the operations of a name *)

Lemma removeAllOperations_named event s :
  event <> "" ->
  removeAllOperations (Some event) s
  = (Normal tt,
     {| this := set_throttleTimers (delete event (throttleTimers (this s)))
                  (set_debounceTimers (delete event (debounceTimers (this s)))
                     (set_throttleDelays (delete event (throttleDelays (this s)))
                        (set_debounceDelays (delete event (debounceDelays (this s)))
                           (set_operationChains (delete event (operationChains (this s)))
                              (this s)))));
        user := user s; clock := clock s;
        timers := match debounceTimers (this s) !! event with
                  | Some timer => filter (fun t => negb (Pos.eqb (t_id t) timer)) (timers s)
                  | None => timers s
                  end;
        nextTimer := nextTimer s; trace := trace s |}).
Proof.
  intros Hne. unfold removeAllOperations, clearTimeout. unfold_m.
  simpl. apply String.eqb_neq in Hne. rewrite Hne. simpl.
  destruct (debounceTimers (this s) !! event) as [timer|] eqn:Ht; simpl.
  - reflexivity.
  - rewrite (delete_id (debounceTimers (this s)) event Ht). reflexivity.
Qed.

(** X15: [removeAllOperations(name)], for a name that is not the empty
    string, deletes the chain, the debounce and throttle delays and the
    timing records of the name and leaves the listeners, the wildcard
    listeners and the settings of the other names; from then on [emit] for
    the name is neither throttled nor deferred nor passed through a chain:
    it is the plain delivery. *)
Theorem removeAllOperations_ungates event data s :
  event <> "" ->
  let s1 := snd (removeAllOperations (Some event) s) in
  fst (removeAllOperations (Some event) s) = Normal tt
  /\ operationChains (this s1) !! event = None
  /\ debounceDelays (this s1) !! event = None
  /\ throttleDelays (this s1) !! event = None
  /\ debounceTimers (this s1) !! event = None
  /\ throttleTimers (this s1) !! event = None
  /\ same_registry (this s) (this s1)
  /\ maxListeners (this s1) = maxListeners (this s)
  /\ (forall other, other <> event ->
        operationChains (this s1) !! other = operationChains (this s) !! other
        /\ debounceDelays (this s1) !! other = debounceDelays (this s) !! other
        /\ throttleDelays (this s1) !! other = throttleDelays (this s) !! other
        /\ debounceTimers (this s1) !! other = debounceTimers (this s) !! other
        /\ throttleTimers (this s1) !! other = throttleTimers (this s) !! other)
  /\ emit event data s1 = _emitInternal event data s1
  /\ run_chain (operationChains (this s1) !! event) data s1 = (Normal data, s1).
Proof.
  intros Hne s1. subst s1. rewrite (removeAllOperations_named event s Hne). simpl.
  rewrite !lookup_delete_eq. repeat (split; [reflexivity|]).
  split; [repeat split|]. split; [reflexivity|].
  split; [intros other Ho; rewrite !lookup_delete_ne by congruence; repeat split|].
  split; [|reflexivity].
  apply emit_ungated; simpl; rewrite lookup_delete_eq; reflexivity.
Qed.

(** ** Cancelled timers *)

Lemma cancelled_timers event s :
  timers_recorded s ->
  forall t,
    In t (match debounceTimers (this s) !! event with
          | Some timer => filter (fun t => negb (Pos.eqb (t_id t) timer)) (timers s)
          | None => timers s
          end)
    -> In t (timers s) /\ t_event t <> event.
Proof.
  intros (Hrec & _) t Ht.
  destruct (debounceTimers (this s) !! event) as [old|] eqn:Hold.
  - apply In_filter_other in Ht as [Ht Hid]. split; [exact Ht|].
    intros Hev. specialize (Hrec t Ht). rewrite Hev, Hold in Hrec. congruence.
  - split; [exact Ht|]. intros Hev.
    specialize (Hrec t Ht). rewrite Hev in Hrec. congruence.
Qed.

Lemma removeDebounce_eq event s :
  removeDebounce event s
  = (Normal tt,
     {| this := set_debounceTimers (delete event (debounceTimers (this s)))
                  (set_debounceDelays (delete event (debounceDelays (this s))) (this s));
        user := user s; clock := clock s;
        timers := match debounceTimers (this s) !! event with
                  | Some timer => filter (fun t => negb (Pos.eqb (t_id t) timer)) (timers s)
                  | None => timers s
                  end;
        nextTimer := nextTimer s; trace := trace s |}).
Proof.
  unfold removeDebounce, clearTimeout. unfold_m. simpl.
  destruct (debounceTimers (this s) !! event) as [timer|] eqn:Ht; simpl.
  - reflexivity.
  - rewrite (delete_id (debounceTimers (this s)) event Ht). reflexivity.
Qed.

(** The timers that fire while time passes were pending. *)
Lemma advance_fires_pending until s fired s' :
  timers_recorded s -> advance until s = (Normal fired, s') ->
  forall t, In t fired -> In t (timers s).
Proof.
  intros Hwf Hadv t Ht.
  destruct (advance_spec until s Hwf) as (fired' & s'' & Heq & (_ & Hperm & _) & _).
  rewrite Hadv in Heq. injection Heq as <- <-.
  apply list_elem_of_In. rewrite Hperm. apply list_elem_of_In, in_app_iff. left. exact Ht.
Qed.

(** What is shared by the three methods that cancel the debounce timer of
    a name: from the state they leave, no timer of the name is pending and
    none fires. *)
Lemma cancelled_never_fires event s s1 :
  timers_recorded s -> timers_recorded s1 ->
  timers s1 = match debounceTimers (this s) !! event with
              | Some timer => filter (fun t => negb (Pos.eqb (t_id t) timer)) (timers s)
              | None => timers s
              end ->
  (forall t, In t (timers s1) -> In t (timers s) /\ t_event t <> event)
  /\ (forall until fired s2,
        advance until s1 = (Normal fired, s2) ->
        forall t, In t fired -> In t (timers s) /\ t_event t <> event).
Proof.
  intros Hwf Hwf1 Ht.
  assert (H : forall t, In t (timers s1) -> In t (timers s) /\ t_event t <> event).
  { intros t Hin. rewrite Ht in Hin. apply (cancelled_timers event s Hwf t Hin). }
  split; [exact H|]. intros till fired s2 Hadv t Hin.
  apply H. exact (advance_fires_pending till s1 fired s2 Hwf1 Hadv t Hin).
Qed.

(** X16: [removeDebounce(name)], [removeAllListeners(name)] and
    [removeAllOperations(name)] cancel the pending deferred emission of the
    name: no timer of the name is left pending, no timer is added, and
    whatever time passes afterwards, no timer of the name fires.
    [removeDebounce] also deletes the delay, so that the next emission of
    the name is not deferred. *)
Theorem cancelled_debounce_never_fires event s :
  event <> "" -> timers_recorded s ->
  let cancelled (s1 : State) :=
    debounceTimers (this s1) !! event = None
    /\ (forall t, In t (timers s1) -> In t (timers s) /\ t_event t <> event)
    /\ (forall until fired s2,
          advance until s1 = (Normal fired, s2) ->
          forall t, In t fired -> In t (timers s) /\ t_event t <> event) in
  cancelled (snd (removeDebounce event s))
  /\ cancelled (snd (removeAllListeners (Some event) s))
  /\ cancelled (snd (removeAllOperations (Some event) s))
  /\ (forall data,
        let s1 := snd (removeDebounce event s) in
        emit event data s1
        = if throttled (this s1) (clock s1) event then (Normal false, s1)
          else _emitInternal event data (stamped event s1)).
Proof.
  intros Hne Hwf cancelled. subst cancelled. simpl.
  pose proof (removeDebounce_recorded event s Hwf) as H1.
  pose proof (removeAllListeners_named_recorded event s Hne Hwf) as H2.
  pose proof (removeAllOperations_recorded (Some event) s Hwf) as H3.
  rewrite removeDebounce_eq in *.
  rewrite (removeAllListeners_named event s Hne) in *.
  rewrite (removeAllOperations_named event s Hne) in *.
  split; [|split; [|split]].
  - split; [simpl; apply lookup_delete_eq|].
    apply (cancelled_never_fires event s _ Hwf H1). reflexivity.
  - split; [simpl; apply lookup_delete_eq|].
    apply (cancelled_never_fires event s _ Hwf H2). reflexivity.
  - split; [simpl; apply lookup_delete_eq|].
    apply (cancelled_never_fires event s _ Hwf H3). reflexivity.
  - intros data. rewrite emit_eq. destruct (throttled _ _ _); [reflexivity|].
    match goal with
    | |- debounce_or_deliver _ _ _ (stamped _ ?s1) = _ =>
        rewrite <- (stamped_debounceDelays event s1), debounce_or_deliver_eq;
        rewrite (stamped_debounceDelays event s1)
    end.
    simpl. rewrite lookup_delete_eq. reflexivity.
Qed.

(** ** The throttle window *)

Lemma run_due_clock until : forall fuel s r s',
  run_due fuel until s = (r, s') -> clock s <= clock s' <= Z.max (clock s) until.
Proof.
  induction fuel as [|fuel IH]; intros s r s' Hrun; simpl in Hrun.
  - injection Hrun as _ <-. lia.
  - unfold get in Hrun. unfold bind at 1 in Hrun.
    destruct (next_timer (timers s)) as [t|]; [|injection Hrun as _ <-; lia].
    destruct (t_due t <=? until) eqn:Hdue; [|injection Hrun as _ <-; lia].
    apply Z.leb_le in Hdue.
    unfold bind at 1 in Hrun. destruct (returns_fire t s) as ([] & s1 & Hf).
    rewrite Hf in Hrun.
    assert (H1 : clock s1 = Z.max (clock s) (t_due t)).
    { replace s1 with (snd (fire t s)) by (rewrite Hf; reflexivity).
      destruct (fire_frame t s) as (_ & Hc & _). rewrite Hc. reflexivity. }
    unfold bind, ret in Hrun.
    destruct (run_due fuel until s1) as [[fired|err] s2] eqn:Hrest;
      injection Hrun as _ <-; specialize (IH s1 _ _ Hrest); lia.
Qed.

Lemma advance_clock until s : clock (snd (advance until s)) = Z.max (clock s) until.
Proof.
  unfold advance. unfold get. unfold bind at 1.
  pose proof (returns_run_due until (length (timers s)) s) as (fired & s1 & Hr).
  pose proof (run_due_clock until _ _ _ _ Hr) as H.
  unfold bind, ret, modify. rewrite Hr. simpl. lia.
Qed.

Lemma emit_stamps event data s :
  truthy_num (throttleDelays (this s) !! event) = true ->
  throttled (this s) (clock s) event = false ->
  let s1 := snd (emit event data s) in
  throttleTimers (this s1) !! event = Some (clock s)
  /\ throttleDelays (this s1) = throttleDelays (this s)
  /\ clock s1 = clock s.
Proof.
  intros Htd Hthr. simpl. rewrite emit_eq, Hthr.
  assert (Hst : stamped event s
                = with_this (set_throttleTimers (<[event := clock s]> (throttleTimers (this s)))
                               (this s)) s) by (unfold stamped; rewrite Htd; reflexivity).
  rewrite <- (stamped_debounceDelays event s), debounce_or_deliver_eq.
  destruct (truthy_num (debounceDelays (this (stamped event s)) !! event)).
  - rewrite Hst. simpl. split; [apply lookup_insert_eq | split; reflexivity].
  - destruct (keeps_frame_emitInternal event data (stamped event s)) as (Hthis & Hc & _).
    rewrite Hthis, Hc, Hst. simpl. split; [apply lookup_insert_eq | split; reflexivity].
Qed.

(** X17: with a positive throttle delay [D] for the name, after an emission
    that the throttle block let through at a time other than 0, every
    emission of the name less than [D] later is dropped: it returns false
    and changes nothing, whatever timers fired in between. *)
Theorem throttle_window event data data' D until s :
  throttleDelays (this s) !! event = Some D -> 0 < D ->
  throttled (this s) (clock s) event = false ->
  clock s <> 0 ->
  clock s <= until < clock s + D ->
  let s1 := snd (emit event data s) in
  let s2 := snd (advance until s1) in
  emit event data' s2 = (Normal false, s2).
Proof.
  intros HD Hpos Hthr Hc Hwin s1 s2.
  assert (Htd : truthy_num (throttleDelays (this s) !! event) = true).
  { rewrite HD. simpl. apply negb_true_iff, Z.eqb_neq. lia. }
  destruct (emit_stamps event data s Htd Hthr) as (Hrec & Hdel & Hclk). fold s1 in Hrec, Hdel, Hclk.
  pose proof (advance_settings until s1) as Hset. fold s2 in Hset.
  pose proof (advance_clock until s1) as Hc2. fold s2 in Hc2.
  apply emit_dropped. unfold throttled. rewrite Hset. simpl.
  rewrite Hrec, Hdel, HD, Hc2, Hclk. simpl.
  replace (D =? 0) with false by (symmetry; apply Z.eqb_neq; lia).
  replace (clock s =? 0) with false by (symmetry; apply Z.eqb_neq; lia).
  simpl. apply Z.ltb_lt. lia.
Qed.

(** ** How often the chain is evaluated *)

Lemma execute_loop_taps ss d : forall s,
  forallb (fun st => match s_type st with tap_t => true | _ => false end) ss = true ->
  exists s',
    execute_loop ss d s = (Normal (Continue d), s')
    /\ calls_of (trace s') = calls_of (trace s) ++ map (fun st => (s_handler st, d)) ss.
Proof.
  induction ss as [|st ss IH]; intros s Hall; simpl.
  - exists s. rewrite app_nil_r. split; reflexivity.
  - simpl in Hall. apply andb_true_iff in Hall as [Hst Hall].
    destruct (s_type st) eqn:Hty; try discriminate Hst.
    assert (Hstep : exists s1, execute_step st d s = (Normal (Continue d), s1)
                               /\ calls_of (trace s1) = calls_of (trace s) ++ [(s_handler st, d)]).
    { destruct (call (s_handler st) d (user s)) as [[r|e] u] eqn:Hc.
      - rewrite (execute_step_return _ _ _ _ _ Hc), Hty. eexists. split; [reflexivity|].
        unfold after_call. simpl. rewrite calls_of_app. reflexivity.
      - rewrite (execute_step_throw _ _ _ _ _ Hc), Hty. eexists. split; [reflexivity|].
        unfold after_throw, after_call. simpl. rewrite !calls_of_app. simpl.
        rewrite app_nil_r. reflexivity. }
    destruct Hstep as (s1 & Hstep & Hcalls). unfold bind. rewrite Hstep.
    destruct (IH s1 Hall) as (s' & Hloop & Hcalls'). exists s'. split; [exact Hloop|].
    rewrite Hcalls', Hcalls, <- app_assoc. reflexivity.
Qed.

Lemma run_chain_taps c d s :
  only_taps c = true ->
  exists s',
    run_chain (Some c) d s = (Normal d, s')
    /\ calls_of (trace s') = calls_of (trace s) ++ tap_calls c d.
Proof.
  intros Hall. destruct (execute_loop_taps (steps c) d s Hall) as (s' & Hloop & Hcalls).
  exists s'. split; [|exact Hcalls]. simpl. unfold execute, bind. rewrite Hloop. reflexivity.
Qed.

Lemma for_wildcards_calls_taps ls c event data :
  only_taps c = true -> is_undefined data = false ->
  forall called s,
    calls_of (trace (snd (for_wildcards ls (Some c) event data called s)))
    = calls_of (trace s)
      ++ flat_map (fun l => tap_calls c data ++ [(l_handler l, envelope event data)]) ls.
Proof.
  intros Hall Hd. induction ls as [|l ls IH]; intros called s; simpl.
  - rewrite app_nil_r. reflexivity.
  - unfold bind. destruct (run_chain_taps c data s Hall) as (s1 & Hrun & Hcalls).
    rewrite (wildcard_turn_delivers (Some c) event data l called data s s1 Hrun Hd).
    destruct (call (l_handler l) (envelope event data) (user s1)) as [[r|e] u];
      rewrite IH; simpl; rewrite !calls_of_app, Hcalls; simpl;
      rewrite ?app_nil_r, <- !app_assoc; reflexivity.
Qed.

(** X18: the chain of a name is evaluated once for the listeners of the
    name together and once more for every wildcard listener.  With a chain
    of taps, an ungated emission calls the taps, then the listeners of the
    name in order, and then, for each wildcard listener in turn, the taps
    again and the wildcard listener; whether a tap or a listener throws
    makes no difference.  Without listeners of the name the first
    evaluation does not take place. *)
Theorem chain_evaluated_per_recipient event data c s :
  operationChains (this s) !! event = Some c ->
  only_taps c = true ->
  truthy_num (throttleDelays (this s) !! event) = false ->
  truthy_num (debounceDelays (this s) !! event) = false ->
  is_undefined data = false ->
  let ls := default [] (listeners (this s) !! event) in
  calls_of (trace (snd (emit event data s)))
  = calls_of (trace s)
    ++ (if Nat.ltb 0 (length ls)
        then tap_calls c data ++ map (fun l => (l_handler l, data)) ls
        else [])
    ++ flat_map (fun w => tap_calls c data ++ [(l_handler w, envelope event data)])
         (wildcardListeners (this s)).
Proof.
  intros Hc Hall Ht Hd Hdata ls. rewrite (emit_ungated _ _ _ Ht Hd). subst ls.
  destruct (listeners (this s) !! event) as [ls|] eqn:Hl; simpl default.
  - destruct ls as [|l0 ls0].
    + unfold _emitInternal. unfold_m. rewrite Hl, Hc.
      rewrite bool_decide_eq_true_2 by eauto. simpl.
      apply for_wildcards_calls_taps; assumption.
    + assert (Hne : l0 :: ls0 <> []) by discriminate.
      destruct (run_chain_taps c data s Hall) as (s1 & Hrun & Hcalls1).
      rewrite <- Hc in Hrun.
      destruct (per_name_delivery_eq event data (l0 :: ls0) data s s1 Hl Hne Hrun Hdata)
        as (Hcalls & Heq & _).
      rewrite Heq, Hc, for_wildcards_calls_taps by assumption.
      rewrite Hcalls, Hcalls1. cbn [length Nat.ltb Nat.leb].
      rewrite <- !app_assoc. reflexivity.
  - unfold _emitInternal. unfold_m. rewrite Hl, Hc.
    rewrite bool_decide_eq_false_2 by (intros [? ?]; discriminate).
    destruct (wildcardListeners (this s)) as [|w ws] eqn:Hw.
    + simpl. rewrite app_nil_r. reflexivity.
    + cbn [negb andb length Nat.eqb default map app Nat.ltb Nat.leb].
      apply for_wildcards_calls_taps; assumption.
Qed.

(** ** Chains without transform steps *)

Lemma execute_step_calls step v s :
  exists x s',
    execute_step step v s = (Normal x, s')
    /\ calls_of (trace s') = calls_of (trace s) ++ [(s_handler step, v)]
    /\ (s_type step <> transform_t -> x = Continue v \/ x = ReturnUndefined).
Proof.
  destruct (call (s_handler step) v (user s)) as [[r|e] u] eqn:Hc.
  - rewrite (execute_step_return _ _ _ _ _ Hc). eexists _, _. split; [reflexivity|].
    unfold after_call. simpl. rewrite calls_of_app. split; [reflexivity|].
    intros Hty. destruct (s_type step); [congruence | destruct (truthy r); auto | auto].
  - rewrite (execute_step_throw _ _ _ _ _ Hc). eexists _, _. split; [reflexivity|].
    unfold after_throw, after_call. simpl. rewrite !calls_of_app. simpl.
    rewrite app_nil_r. split; [reflexivity|].
    intros Hty. destruct (s_type step); [congruence | auto | auto].
Qed.

Lemma execute_loop_untransformed ss d : forall s,
  (forall st, In st ss -> s_type st <> transform_t) ->
  exists x s' k,
    execute_loop ss d s = (Normal x, s')
    /\ (x = Continue d \/ x = ReturnUndefined)
    /\ (x = Continue d -> k = length ss)
    /\ calls_of (trace s')
       = calls_of (trace s) ++ map (fun st => (s_handler st, d)) (firstn k ss).
Proof.
  induction ss as [|st ss IH]; intros s Hall; simpl.
  - exists (Continue d), s, 0%nat. rewrite app_nil_r. repeat split. left. reflexivity.
  - destruct (execute_step_calls st d s) as (x & s1 & Hstep & Hcalls & Hx).
    unfold bind. rewrite Hstep.
    destruct (Hx (Hall st (or_introl eq_refl))) as [-> | ->].
    + destruct (IH s1 (fun st' H => Hall st' (or_intror H)))
        as (x' & s' & k & Hloop & Hx' & Hk & Hcalls').
      exists x', s', (S k). split; [exact Hloop|]. split; [exact Hx'|].
      split; [intros H; rewrite (Hk H); reflexivity|].
      rewrite Hcalls', Hcalls, <- app_assoc. reflexivity.
    + exists ReturnUndefined, s1, 1%nat. split; [reflexivity|].
      split; [right; reflexivity|]. split; [discriminate|].
      rewrite Hcalls. destruct ss; reflexivity.
Qed.

(** X19: filters and taps never change the payload.  A chain without
    transform steps evaluates to the payload it was given or to
    [undefined]; every handler that runs is called with that payload, the
    handlers run in the order of the steps, and when the payload comes
    through all of them ran. *)
Theorem execute_without_transform c d s :
  (forall st, In st (steps c) -> s_type st <> transform_t) ->
  exists r s' k,
    execute c d s = (Normal r, s')
    /\ (r = d \/ r = VUndefined)
    /\ (is_undefined r = false -> k = length (steps c))
    /\ calls_of (trace s')
       = calls_of (trace s) ++ map (fun st => (s_handler st, d)) (firstn k (steps c)).
Proof.
  intros Hall.
  destruct (execute_loop_untransformed (steps c) d s Hall)
    as (x & s' & k & Hloop & Hx & Hk & Hcalls).
  unfold execute, bind. rewrite Hloop. destruct Hx as [-> | ->]; simpl.
  - exists d, s', k. repeat split; auto.
  - exists VUndefined, s', k. split; [reflexivity|]. split; [right; reflexivity|].
    split; [discriminate | exact Hcalls].
Qed.

(** ** Delays of zero *)

(** X20: a delay of 0 is no delay.  After [operation(name).debounce(0)] an
    emission of the name that the throttle block lets through is delivered
    at once, whatever delay was set before; after
    [operation(name).throttle(0)] no emission of the name is dropped and no
    time is recorded. *)
Theorem zero_delay_is_no_delay event data s :
  (let s1 := do_op (Op_debounce event 0) s in
   emit event data s1
   = if throttled (this s1) (clock s1) event then (Normal false, s1)
     else _emitInternal event data (stamped event s1))
  /\ (let s1 := do_op (Op_throttle event 0) s in
      emit event data s1
      = debounce_or_deliver event data (debounceDelays (this s1) !! event) s1).
Proof.
  split; intros s1; rewrite emit_eq.
  - destruct (throttled _ _ _); [reflexivity|].
    rewrite <- (stamped_debounceDelays event s1), debounce_or_deliver_eq.
    rewrite (stamped_debounceDelays event s1). subst s1. simpl.
    rewrite lookup_insert_eq. reflexivity.
  - assert (Htd : throttleDelays (this s1) !! event = Some 0)
      by (subst s1; simpl; apply lookup_insert_eq).
    unfold throttled, stamped. rewrite Htd. reflexivity.
Qed.

(** ** Forgetting the throttle record *)

(** X21: [removeThrottle(name)] deletes the delay and the last-fire
    record of the name and nothing else, so that the next emission of the
    name is not dropped and records no time.  [removeAllListeners(name)]
    deletes the record but keeps the delay: the next emission of the name
    is not dropped either, however soon it comes, and starts a new window. *)
Theorem throttle_record_forgotten event data s :
  event <> "" ->
  (let s1 := snd (removeThrottle event s) in
   s1 = with_this
          (set_throttleTimers (delete event (throttleTimers (this s)))
             (set_throttleDelays (delete event (throttleDelays (this s))) (this s))) s
   /\ emit event data s1
      = debounce_or_deliver event data (debounceDelays (this s) !! event) s1)
  /\ (let s1 := snd (removeAllListeners (Some event) s) in
      throttleDelays (this s1) = throttleDelays (this s)
      /\ emit event data s1
         = debounce_or_deliver event data (debounceDelays (this s) !! event)
             (stamped event s1)).
Proof.
  intros Hne. split.
  - unfold removeThrottle. unfold_m. simpl. split; [reflexivity|].
    rewrite emit_eq. unfold throttled, stamped. simpl. rewrite lookup_delete_eq. reflexivity.
  - rewrite (removeAllListeners_named event s Hne). simpl. split; [reflexivity|].
    rewrite emit_eq. unfold throttled. simpl. rewrite lookup_delete_eq. simpl.
    rewrite andb_false_r. reflexivity.
Qed.

(** ** The record of debounce timers is exact *)

Lemma records_pending_this s s' :
  debounceTimers (this s') = debounceTimers (this s) -> timers s' = timers s ->
  records_pending s -> records_pending s'.
Proof using. unfold records_pending. intros -> ->. auto. Qed.

Lemma records_pending_frame s s' :
  same_frame s s' -> records_pending s -> records_pending s'.
Proof using.
  intros (Hthis & _ & Hts & _). apply records_pending_this; [rewrite Hthis|]; auto.
Qed.

(** Cancelling the recorded timer of [event] cancels no timer of another
    name. *)
Lemma pending_others event s t :
  timers_recorded s -> records_pending s ->
  In t (timers s) -> t_event t <> event ->
  In t (match debounceTimers (this s) !! event with
        | Some timer => filter (fun t => negb (Pos.eqb (t_id t) timer)) (timers s)
        | None => timers s
        end).
Proof.
  intros (Hrec & Hnd & _) Hpen Hin Hev.
  destruct (debounceTimers (this s) !! event) as [old|] eqn:Hold; [|exact Hin].
  apply In_filter_other. split; [exact Hin|]. intros Hid.
  destruct (Hpen event old Hold) as (t0 & Hin0 & Hid0 & Hev0).
  assert (t = t0) by (eapply same_id_same_timer; eauto; congruence).
  congruence.
Qed.

Lemma cancelled_pending event s s1 :
  timers_recorded s -> records_pending s ->
  debounceTimers (this s1) = delete event (debounceTimers (this s)) ->
  timers s1 = match debounceTimers (this s) !! event with
              | Some timer => filter (fun t => negb (Pos.eqb (t_id t) timer)) (timers s)
              | None => timers s
              end ->
  records_pending s1
  /\ (forall t, In t (timers s1) <-> In t (timers s) /\ t_event t <> event).
Proof.
  intros Hwf Hpen Hdt Hts.
  assert (Hiff : forall t, In t (timers s1) <-> In t (timers s) /\ t_event t <> event).
  { intros t. rewrite Hts. split; [apply cancelled_timers; exact Hwf|].
    intros [Hin Hev]. apply pending_others; assumption. }
  split; [|exact Hiff]. intros ev id Hrec. rewrite Hdt in Hrec.
  apply lookup_delete_Some in Hrec as [Hne Hrec].
  destruct (Hpen ev id Hrec) as (t & Hin & Hid & Hev). exists t.
  split; [apply Hiff; split; [exact Hin | congruence]|]. split; assumption.
Qed.

Lemma deferred_pending event data D s :
  timers_recorded s -> records_pending s -> records_pending (deferred event data D s).
Proof.
  intros Hwf Hpen ev id Hrec. unfold deferred in *. simpl in *.
  destruct (decide (ev = event)) as [->|Hne].
  - rewrite lookup_insert_eq in Hrec. injection Hrec as <-. eexists.
    split; [apply in_app_iff; right; left; reflexivity|]. split; reflexivity.
  - rewrite lookup_insert_ne in Hrec by congruence.
    destruct (Hpen ev id Hrec) as (t & Hin & Hid & Hev). exists t.
    split; [|split; assumption]. apply in_app_iff. left.
    apply pending_others; [assumption | assumption | assumption | congruence].
Qed.

Lemma at_firing_pending t s :
  timers_recorded s -> records_pending s -> In t (timers s) ->
  records_pending (at_firing t s).
Proof.
  intros Hwf Hpen Hin. pose proof Hwf as (Hrec & _).
  apply (cancelled_pending (t_event t) s (at_firing t s) Hwf Hpen); [reflexivity|].
  rewrite (Hrec t Hin). reflexivity.
Qed.

Lemma run_due_pending until : forall fuel s,
  timers_recorded s -> records_pending s ->
  records_pending (snd (run_due fuel until s)).
Proof.
  induction fuel as [|fuel IH]; intros s Hwf Hpen; simpl; [exact Hpen|].
  unfold get. unfold bind at 1.
  destruct (next_timer (timers s)) as [t|] eqn:Hnext; [|exact Hpen].
  destruct (t_due t <=? until); [|exact Hpen].
  pose proof (next_timer_In _ _ Hnext) as Hin.
  unfold bind at 1. destruct (returns_fire t s) as ([] & s1 & Hf). rewrite Hf.
  assert (Hs1 : s1 = snd (fire t s)) by (rewrite Hf; reflexivity).
  assert (Hwf1 : timers_recorded s1) by (rewrite Hs1; apply fire_recorded; assumption).
  assert (Hpen1 : records_pending s1).
  { rewrite Hs1. eapply records_pending_frame; [apply fire_frame|].
    apply at_firing_pending; assumption. }
  specialize (IH s1 Hwf1 Hpen1). unfold bind, ret.
  destruct (run_due fuel until s1) as [[fired|err] s2]; exact IH.
Qed.

Lemma advance_pending until s :
  timers_recorded s -> records_pending s -> records_pending (snd (advance until s)).
Proof.
  intros Hwf Hpen. unfold advance. unfold get. unfold bind at 1.
  pose proof (run_due_pending until (length (timers s)) s Hwf Hpen) as H.
  unfold bind, ret, modify.
  destruct (run_due (length (timers s)) until s) as [[fired|err] s1]; exact H.
Qed.

Lemma stamped_pending event s : records_pending s -> records_pending (stamped event s).
Proof using. unfold stamped. destruct (truthy_num _); intros H; exact H. Qed.

Lemma emit_pending event data s :
  timers_recorded s -> records_pending s -> records_pending (snd (emit event data s)).
Proof.
  intros Hwf Hpen. rewrite emit_eq. destruct (throttled _ _ _); [exact Hpen|].
  rewrite <- (stamped_debounceDelays event s), debounce_or_deliver_eq.
  destruct (truthy_num _); simpl.
  - apply deferred_pending; [apply stamped_recorded | apply stamped_pending]; assumption.
  - eapply records_pending_frame; [apply keeps_frame_emitInternal|].
    apply stamped_pending, Hpen.
Qed.

Lemma do_op_pending o s :
  timers_recorded s -> records_pending s -> records_pending (do_op o s).
Proof.
  intros Hwf Hpen. pose proof (configuring_keeps o s) as Hc.
  destruct o; simpl in *;
    try (destruct Hc as (_ & H1 & H2 & _); exact (records_pending_this _ _ H1 H2 Hpen)).
  - apply (records_pending_this s); [| |exact Hpen];
      (destruct (is_aborted signal) eqn:Ha;
       [rewrite (on_aborted _ _ _ _ Ha) | rewrite (on_eq _ _ _ _ Ha)]; simpl;
       [reflexivity | try destruct (String.eqb event "*"); reflexivity]).
  - destruct (off_settings event idOrHandler s) as (_ & _ & _ & _ & Hdt & _ & _ & _ & _ & Hfr).
    destruct Hfr as (_ & _ & Hts & _). simpl in Hts.
    apply (records_pending_this s); [exact Hdt | symmetry; exact Hts | exact Hpen].
  - apply emit_pending; assumption.
  - eapply records_pending_frame; [apply emitToListener_frame | exact Hpen].
  - destruct (truthy_str event) eqn:Hev.
    + destruct event as [event|]; [|discriminate Hev].
      assert (Hne : event <> "") by (intros ->; discriminate Hev).
      rewrite (removeAllListeners_named event s Hne).
      apply (cancelled_pending event s _ Hwf Hpen); reflexivity.
    + unfold removeAllListeners. rewrite Hev. unfold_m. simpl. rewrite clear_all_eq.
      intros ev id Hrec. simpl in Hrec. rewrite lookup_empty in Hrec. discriminate Hrec.
  - destruct (truthy_str event) eqn:Hev.
    + destruct event as [event|]; [|discriminate Hev].
      assert (Hne : event <> "") by (intros ->; discriminate Hev).
      rewrite (removeAllOperations_named event s Hne).
      apply (cancelled_pending event s _ Hwf Hpen); reflexivity.
    + unfold removeAllOperations. rewrite Hev. unfold_m. simpl. rewrite clear_all_eq.
      intros ev id Hrec. simpl in Hrec. rewrite lookup_empty in Hrec. discriminate Hrec.
  - rewrite removeDebounce_eq. apply (cancelled_pending event s _ Hwf Hpen); reflexivity.
  - apply advance_pending; assumption.
Qed.

Lemma run_ops_pending ops : forall s,
  timers_recorded s -> records_pending s ->
  timers_recorded (run_ops ops s) /\ records_pending (run_ops ops s).
Proof.
  unfold run_ops. induction ops as [|o ops IH]; intros s Hwf Hpen; simpl; [auto|].
  apply IH; [apply do_op_recorded | apply do_op_pending]; assumption.
Qed.

Lemma initial_state_pending e u :
  debounceTimers e = ∅ -> records_pending (initial_state e u).
Proof using.
  intros He ev id Hrec. simpl in Hrec. rewrite He, lookup_empty in Hrec. discriminate Hrec.
Qed.

(** X22: in every state that calls of the public methods and the passing
    of time reach from a newly constructed emitter, at most one deferred
    emission is pending for a name, and the record of debounce timers is
    exact: a name has a recorded timer exactly when a timer of the name is
    pending, and the record holds its id. *)
Theorem one_pending_emission_per_name config e u ops :
  new_EventEmitter config = Normal e ->
  let s := run_ops ops (initial_state e u) in
  (forall t1 t2, In t1 (timers s) -> In t2 (timers s) ->
                 t_event t1 = t_event t2 -> t1 = t2)
  /\ (forall ev id,
        debounceTimers (this s) !! ev = Some id
        <-> exists t, In t (timers s) /\ t_id t = id /\ t_event t = ev).
Proof.
  intros Hnew s. destruct (new_EventEmitter_empty config e Hnew) as (cap & ->).
  destruct (run_ops_pending ops (initial_state (empty_emitter cap) u)) as (Hwf & Hpen);
    [apply initial_state_recorded | apply initial_state_pending; reflexivity|].
  fold s in Hwf, Hpen. pose proof Hwf as (Hrec & Hnd & _). split.
  - intros t1 t2 H1 H2 Hev. eapply same_id_same_timer; eauto.
    pose proof (Hrec t1 H1) as R1. pose proof (Hrec t2 H2) as R2.
    rewrite Hev in R1. congruence.
  - intros ev id. split; [apply Hpen|].
    intros (t & Hin & <- & <-). apply Hrec, Hin.
Qed.

(** X23: cancelling the deferred emission of a name leaves the pending
    emissions of the other names alone.  With the record of timers exact,
    after [removeDebounce(name)], [removeAllListeners(name)] and
    [removeAllOperations(name)] the pending timers are those of the other
    names, and a deferred [emit] replaces the pending timer of its own name
    only: afterwards the timers of the other names and the new one, due
    after the delay that the platform grants, are pending. *)
Theorem cancelling_spares_other_names event data D s :
  event <> "" -> timers_recorded s -> records_pending s ->
  let others (s1 : State) :=
    forall t, In t (timers s1) <-> In t (timers s) /\ t_event t <> event in
  others (snd (removeDebounce event s))
  /\ others (snd (removeAllListeners (Some event) s))
  /\ others (snd (removeAllOperations (Some event) s))
  /\ (debounceDelays (this s) !! event = Some D -> D <> 0 ->
      throttled (this s) (clock s) event = false ->
      forall t,
        In t (timers (snd (emit event data s)))
        <-> (In t (timers s) /\ t_event t <> event)
            \/ t = {| t_id := nextTimer s; t_due := clock s + timer_delay D;
                      t_event := event; t_data := data |}).
Proof.
  intros Hne Hwf Hpen others. subst others. simpl.
  rewrite removeDebounce_eq, (removeAllListeners_named event s Hne),
    (removeAllOperations_named event s Hne).
  split; [|split; [|split]].
  - apply (cancelled_pending event s _ Hwf Hpen); reflexivity.
  - apply (cancelled_pending event s _ Hwf Hpen); reflexivity.
  - apply (cancelled_pending event s _ Hwf Hpen); reflexivity.
  - intros HD HD0 Hthr t. rewrite (emit_deferred event data D s HD HD0 Hthr).
    assert (Hst : timers (stamped event s) = timers s
                  /\ debounceTimers (this (stamped event s)) = debounceTimers (this s)
                  /\ nextTimer (stamped event s) = nextTimer s
                  /\ clock (stamped event s) = clock s).
    { unfold stamped. destruct (truthy_num _); repeat split. }
    destruct Hst as (Hts & Hdt & Hnt & Hclk).
    unfold deferred. simpl. rewrite Hts, Hdt, Hnt, Hclk, in_app_iff. simpl.
    split.
    + intros [Hin|[<-|[]]]; [left | right; reflexivity].
      apply (cancelled_timers event s Hwf t Hin).
    + intros [[Hin Hev]| ->]; [left | right; left; reflexivity].
      apply pending_others; assumption.
Qed.

End Midder.

Arguments this {U} _.
Arguments user {U} _.
Arguments clock {U} _.
Arguments timers {U} _.
Arguments nextTimer {U} _.
Arguments trace {U} _.
Arguments log {U} ev s.
Arguments with_user {U} u s.
Arguments after {U A} m s.

(** * The theorems at concrete inputs *)

Section Concrete.

Local Abbreviation U := Handlers.U.
Local Abbreviation call := Handlers.call.
Local Abbreviation T h := {| s_type := transform_t; s_handler := h |}.
Local Abbreviation F h := {| s_type := filter_t; s_handler := h |}.

(** The scenario of the specification: [transform(x => x + 1)] and
    [filter(x => x < 5)] on "n"; 3 is delivered as 4, 5 is suppressed. *)
Example numbers_scenario :
  let s := numbers U 6 7 1 2 0%nat in
  emit U call "n" (VNum 3) s
  = (Normal true,
     log (Called 2 (envelope "n" (VNum 4)))
       (log (Called 7 (VNum 4)) (log (Called 6 (VNum 3))
          (log (Called 1 (VNum 4))
             (log (Called 7 (VNum 4)) (log (Called 6 (VNum 3)) s))))))
  /\ emit U call "n" (VNum 5) s
     = (Normal false, log (Called 7 (VNum 6)) (log (Called 6 (VNum 5)) s)).
Proof. split; vm_compute; reflexivity. Qed.

(** An emitter constructed with [{ maxListeners: 0 }] warns at the eleventh
    listener of a name; after [setMaxListeners(0)] it does not. *)
Example zero_cap_scenario :
  exists e,
    new_EventEmitter (Some (Some 0)) = Normal e
    /\ trace (after (on_times U 10 "e" 1) (initial_state U e 0%nat)) = []
    /\ trace (after (on_times U 11 "e" 1) (initial_state U e 0%nat))
       = [Warned "Max listeners exceeded for event: e"]
    /\ trace (after (on_times U 11 "e" 1)
                (after (setMaxListeners U 0) (initial_state U e 0%nat))) = [].
Proof. eexists. split; [reflexivity|]. repeat split; vm_compute; reflexivity. Qed.

(** A throwing tap and a throwing filter are passed over; a throwing
    transform ends the evaluation before the last step. *)
Example execute_scenario :
  let s := fresh U 0%nat in
  let tap3 := {| s_type := tap_t; s_handler := 3 |} in
  execute U call {| eventType := "e"; steps := [tap3; F 3; T 6] |} (VNum 1) s
  = (Normal (VNum 2),
     log (Called 6 (VNum 1))
       (log (Errored "Error in operation step filter:" (Error "boom"))
          (log (Called 3 (VNum 1))
             (log (Errored "Error in operation step tap:" (Error "boom"))
                (log (Called 3 (VNum 1)) s)))))
  /\ execute U call {| eventType := "e"; steps := [T 6; T 3; T 6] |} (VNum 1) s
     = (Normal VUndefined,
        log (Errored "Error in operation step transform:" (Error "boom"))
          (log (Called 3 (VNum 2)) (log (Called 6 (VNum 1)) s))).
Proof. split; vm_compute; reflexivity. Qed.

(** Debounce(10) with emissions at 0 and 5: nothing is delivered by 14, and
    by 15 the listener has been called once, with the payload of 5. *)
Example debounce_scenario :
  let s := debounced_listener U 1 0%nat in
  let burst := [(0, VNum 42); (5, VNum 43)] in
  trace (after (emit_at_then_wait U call "e" burst 14) s) = []
  /\ trace (after (emit_at_then_wait U call "e" burst 15) s) = [Called 1 (VNum 43)]
  /\ clock (after (emit_at_then_wait U call "e" burst 15) s) = 15.
Proof. repeat split; vm_compute; reflexivity. Qed.

(** The same handler subscribed twice: one [off] removes both
    registrations and keeps the other handler's, a second [off] returns
    false. *)
Example off_twice_scenario :
  let s := subscribed_twice U 1 2 0%nat in
  let s1 := after (off U "e" (inr 1%positive)) s in
  listenerCount (this s) "e" = 3
  /\ fst (off U "e" (inr 1%positive) s) = Normal true
  /\ listeners (this s1) !! "e" = Some [{| l_id := "1"; l_handler := 2 |}]
  /\ fst (off U "e" (inr 1%positive) s1) = Normal false.
Proof. repeat split; vm_compute; reflexivity. Qed.

(** Targeted emission on a debounced name is delivered at once. *)
Example emitToListener_scenario :
  let s := debounced_listener U 1 0%nat in
  emitToListener U call "e" (VNum 7) "0" s = (Normal true, log (Called 1 (VNum 7)) s)
  /\ emitToListener U call "e" (VNum 7) "1" s = (Normal false, s).
Proof. split; vm_compute; reflexivity. Qed.

Lemma execute_failure_policy_witness :
  let s := fresh U 0%nat in
  execute U call {| eventType := "e"; steps := [T 6; T 3; T 6] |} (VNum 1) s
  = (Normal VUndefined,
     log (Errored "Error in operation step transform:" (Error "boom"))
       (log (Called 3 (VNum 2)) (log (Called 6 (VNum 1)) s))).
Proof.
  intros s.
  exact (proj1 (proj2 (execute_failure_policy U call))
           {| eventType := "e"; steps := [T 6; T 3; T 6] |} [T 6] (T 3) [T 6]
           (VNum 1) (VNum 2) (Error "boom") 0%nat s (log (Called 6 (VNum 1)) s)
           eq_refl eq_refl eq_refl).
Defined.

Lemma emitToListener_spec_witness :
  let s := numbers U 6 7 1 2 0%nat in
  emitToListener U call "n" (VNum 3) "0" s
  = (Normal true,
     log (Called 1 (VNum 4)) (log (Called 7 (VNum 4)) (log (Called 6 (VNum 3)) s)))
  /\ emitToListener U call "n" (VNum 3) "5" s = (Normal false, s).
Proof.
  intros s.
  destruct (emitToListener_spec U call "n" (VNum 3) "0" s) as (_ & _ & _ & _ & H5).
  destruct (emitToListener_spec U call "n" (VNum 3) "5" s) as (_ & _ & _ & H4 & _).
  split.
  - destruct (H5 [{| l_id := "0"; l_handler := 1 |}] {| l_id := "0"; l_handler := 1 |}
                eq_refl eq_refl) as (_ & _ & v & s1 & Hrun & Hm).
    vm_compute in Hrun. injection Hrun as <- <-. exact Hm.
  - apply (H4 [{| l_id := "0"; l_handler := 1 |}] eq_refl).
    intros l [<-|[]]. discriminate.
Defined.

Lemma filter_false_suppresses_witness :
  let s := numbers U 6 7 1 2 0%nat in
  let s2 := log (Called 7 (VNum 6)) (log (Called 6 (VNum 5)) s) in
  execute U call {| eventType := "n"; steps := [T 6; F 7] |} (VNum 5) s
  = (Normal VUndefined, s2)
  /\ _emitInternal U call "n" (VNum 5) s = (Normal false, s2)
  /\ emitToListener U call "n" (VNum 5) "0" s = (Normal false, s2).
Proof.
  intros s s2.
  destruct (filter_false_suppresses U call {| eventType := "n"; steps := [T 6; F 7] |}
              [T 6] 7%positive [] (VNum 5) (VNum 6) (VBool false) 0%nat s
              (log (Called 6 (VNum 5)) s) eq_refl eq_refl eq_refl eq_refl)
    as (H1 & _ & H2 & _ & H3).
  split; [exact H1|]. split.
  - apply (H2 "n" [{| l_id := "0"; l_handler := 1 |}]); [reflexivity | reflexivity |].
    intros Hnil. inversion Hnil.
  - apply (H3 "n" "0" [{| l_id := "0"; l_handler := 1 |}] {| l_id := "0"; l_handler := 1 |});
      reflexivity.
Defined.

Lemma emit_suppressed_per_name_witness :
  let s := with_wildcard U 5 1 2 0%nat in
  let s1 := log (Errored "Error in operation step transform:" (Error "not ready"))
              (with_user 1%nat (log (Called 5 (VNum 1)) s)) in
  let ls := [{| l_id := "0"; l_handler := 1 |}] in
  let chain := operationChains (this s1) !! "e" in
  let s2 := snd (run_chain U call chain (VNum 1) s1) in
  _emitInternal U call "e" (VNum 1) s = (Normal false, s1)
  /\ _emitInternal U call "e" (VNum 1) s1
     = for_wildcards U call (wildcardListeners (this s1)) chain "e" (VNum 1) true
         (snd (for_listeners U call ls "e" (VNum 1) s2))
  /\ calls_of (trace (snd (_emitInternal U call "e" (VNum 1) s1)))
     = calls_of (trace s1)
       ++ [(5%positive, VNum 1); (1%positive, VNum 1);
           (5%positive, VNum 1); (2%positive, envelope "e" (VNum 1))].
Proof.
  intros s s1 ls chain s2.
  assert (Hne : ls <> []) by discriminate.
  destruct (emit_suppressed_per_name U call "e" (VNum 1) ls s s1 eq_refl Hne eq_refl)
    as (H1 & _ & _ & H4 & _).
  split; [exact H1|]. split; [|vm_compute; reflexivity].
  apply (H4 ls (VNum 1) s1 s2 eq_refl Hne); reflexivity.
Defined.

(** C1, counterexample: the transform 5 throws on its first call only.  The
    per-name evaluation is suppressed; the wildcard pass of the claim would
    evaluate the chain again, get the payload and call the wildcard
    listener, so that [emit] returned true.  The code returns false. *)
Lemma wildcards_after_suppression_counterexample :
  let s := with_wildcard U 5 1 2 0%nat in
  let chain := operationChains (this s) !! "e" in
  let s1 := snd (run_chain U call chain (VNum 1) s) in
  listeners (this s) !! "e" = Some [{| l_id := "0"; l_handler := 1 |}]
  /\ wildcardListeners (this s) = [{| l_id := "1"; l_handler := 2 |}]
  /\ fst (run_chain U call chain (VNum 1) s) = Normal VUndefined
  /\ fst (for_wildcards U call (wildcardListeners (this s)) chain "e" (VNum 1) false s1)
     = Normal true
  /\ emit U call "e" (VNum 1) s = (Normal false, s1)
  /\ trace s1
     = [Called 5 (VNum 1);
        Errored "Error in operation step transform:" (Error "not ready")]
  /\ ~ wildcards_after_suppression_as_stated U call.
Proof.
  intros s chain s1. repeat (split; [vm_compute; reflexivity|]).
  intros H.
  specialize (H "e" (VNum 1) [{| l_id := "0"; l_handler := 1 |}] s s1 eq_refl).
  apply (f_equal fst) in H.
  - vm_compute in H. discriminate H.
  - intros Hnil. inversion Hnil.
  - vm_compute. discriminate.
  - vm_compute. reflexivity.
Qed.



Lemma debounce_defers_witness :
  let s := debounced_listener U 1 0%nat in
  exists fired s',
    emit_at_then_wait U call "e" [(0, VNum 42); (5, VNum 43)] 15 s
    = (Normal ([true; true], fired), s')
    /\ (exists tid,
           filter (fun t => t_event t = "e") fired
           = [{| t_id := tid; t_due := 15; t_event := "e"; t_data := VNum 43 |}])
    /\ debounceTimers (this s') !! "e" = None.
Proof.
  intros s.
  assert (H10 : 10 <> 0) by discriminate.
  destruct (debounce_defers U call "e" 10 H10) as (_ & _ & _ & H).
  destruct (H 0 (VNum 42) [(5, VNum 43)] 15 s) as (rs & fired & s' & Hrun & Hok).
  - split; [intros t []|]. split; [constructor | intros t []].
  - reflexivity.
  - reflexivity.
  - discriminate.
  - simpl. repeat split; discriminate.
  - discriminate.
  - assert (Hrs : rs = [true; true]).
    { pose proof (f_equal (fun x => match fst x with
                                    | Normal (r, _) => r
                                    | Throw _ => []
                                    end) Hrun) as E.
      vm_compute in E. symmetry. exact E. }
    subst rs. exists fired, s'. split; [exact Hrun|]. apply Hok. repeat constructor.
Defined.

(** C5, counterexample: after [operation("e").debounce(0)] an emission is
    not deferred; on an emitter without listeners [emit] returns false.
    After [operation("e").debounce(2147483648)] the emission is deferred,
    but by 1 and not by the configured delay. *)
Lemma debounce_counterexample :
  let s := debounced U 0 0%nat in
  let s' := debounced U 2147483648 0%nat in
  debounceDelays (this s) !! "e" = Some 0
  /\ throttled (this s) (clock s) "e" = false
  /\ emit U call "e" (VNum 1) s = (Normal false, s)
  /\ debounceDelays (this s') !! "e" = Some 2147483648
  /\ timers (snd (emit U call "e" (VNum 1) s'))
     = [{| t_id := 1; t_due := 1; t_event := "e"; t_data := VNum 1 |}]
  /\ ~ debounce_as_stated U call.
Proof.
  intros s s'. repeat (split; [vm_compute; reflexivity|]).
  intros H.
  destruct (H "e" (VNum 1) 0 s eq_refl eq_refl) as [H1 _].
  vm_compute in H1. discriminate H1.
Qed.

Lemma emit_throttle_witness :
  let s := rethrottled U call 10 105 0%nat in
  let s' := rethrottled U call 10 110 0%nat in
  emit U call "e" (VNum 2) s = (Normal false, s)
  /\ throttleTimers (this (snd (emit U call "e" (VNum 2) s'))) !! "e" = Some 110.
Proof.
  intros s s'.
  assert (H10 : 10 <> 0) by discriminate.
  assert (H100 : 100 <> 0) by discriminate.
  split.
  - apply (proj1 (emit_throttle U call "e" (VNum 2) 10 100 s eq_refl H10 eq_refl H100)).
    reflexivity.
  - apply (proj2 (emit_throttle U call "e" (VNum 2) 10 100 s' eq_refl H10 eq_refl H100)).
    discriminate.
Defined.

(** C6, counterexample: the delay was set to 10, an emission at 100 was
    recorded, and the delay was then set to 0.  At 120 the claim has the
    emission record 120; the record stays at 100. *)
Lemma throttle_counterexample :
  let s := rethrottled U call 0 120 0%nat in
  throttleDelays (this s) !! "e" = Some 0
  /\ throttleTimers (this s) !! "e" = Some 100
  /\ clock s = 120
  /\ throttleTimers (this (snd (emit U call "e" (VNum 2) s))) !! "e" = Some 100
  /\ ~ throttle_as_stated U call.
Proof.
  intros s. repeat (split; [vm_compute; reflexivity|]).
  intros H.
  destruct (H "e" (VNum 2) 0 100 s eq_refl eq_refl) as [_ H2].
  assert (Hle : 0 <= clock s - 100) by discriminate.
  specialize (H2 Hle). vm_compute in H2. discriminate H2.
Qed.

Lemma removeAllListeners_frame_witness :
  let s := run_ops U call
             [Op_on "a" 1 None; Op_on "b" 1 None; Op_on "*" 2 None;
              Op_debounce "a" 10; Op_throttle "a" 100; Op_debounce "b" 10;
              Op_advance 5; Op_emit "a" (VNum 1); Op_emit "b" (VNum 2)]
             (fresh U 0%nat) in
  let s1 := snd (removeAllListeners U (Some "a") s) in
  let s0 := snd (removeAllListeners U (Some "") s) in
  (map t_event (timers s) = ["a"; "b"]
   /\ debounceTimers (this s) !! "a" = Some 1%positive
   /\ throttleTimers (this s) !! "a" = Some 5
   /\ listenerCount (this s) "a" = 1)
  /\ (listenerCount (this s1) "a" = 0
      /\ debounceTimers (this s1) !! "a" = None
      /\ throttleTimers (this s1) !! "a" = None
      /\ (forall t, In t (timers s1) <-> In t (timers s) /\ t_id t <> 1%positive)
      /\ operationChains (this s1) = operationChains (this s)
      /\ debounceDelays (this s1) = debounceDelays (this s)
      /\ throttleDelays (this s1) = throttleDelays (this s)
      /\ listenerCount (this s1) "*" = 1
      /\ registrations (this s1) "b" = registrations (this s) "b"
      /\ debounceTimers (this s1) !! "b" = debounceTimers (this s) !! "b")
  /\ (listenerCount (this s0) "a" = 0
      /\ listenerCount (this s0) "b" = 0
      /\ listenerCount (this s0) "*" = 0).
Proof.
  intros s s1 s0.
  assert (Hne : "a" <> "") by discriminate.
  assert (Hstar : "a" <> "*") by discriminate.
  assert (Hb : "b" <> "a") by discriminate.
  destruct (removeAllListeners_frame U "a" s) as (H & _ & _ & _ & H0 & _).
  destruct (H Hne)
    as (s1' & Heq & _ & Hcount & Hdt & Htt & Hts & _ & Hc & Hdd & Htd & _ & Hw & _ & _
        & Hother & _).
  assert (Hs1 : s1' = s1) by (unfold s1; rewrite Heq; reflexivity). subst s1'.
  split; [repeat split; reflexivity|]. split.
  - split; [apply Hcount, Hstar|]. split; [exact Hdt|]. split; [exact Htt|].
    split; [apply Hts; reflexivity|]. split; [exact Hc|]. split; [exact Hdd|].
    split; [exact Htd|]. split; [exact Hw|]. split; apply (Hother "b" Hb).
  - split; [apply H0|]. split; apply H0.
Defined.

(** C8, the failing inputs: with listeners on "a" and on the empty name
    and a wildcard listener, [removeAllListeners("")] takes the branch of a
    call without argument and removes the listeners of "a" and the wildcard
    listener as well; [removeAllListeners("*")] removes nothing. *)
Lemma removeAllListeners_counterexample :
  let s := two_names U 1 2 0%nat in
  let s1 := after (removeAllListeners U (Some "")) s in
  let s2 := after (removeAllListeners U (Some "*")) s in
  registrations (this s) "a" = [{| l_id := "0"; l_handler := 1 |}]
  /\ registrations (this s) "*" = [{| l_id := "2"; l_handler := 2 |}]
  /\ registrations (this s1) "a" = []
  /\ registrations (this s1) "*" = []
  /\ registrations (this s2) "*" = [{| l_id := "2"; l_handler := 2 |}]
  /\ listenerCount (this s2) "*" = 1
  /\ ~ removeAllListeners_as_stated U.
Proof.
  intros s s1 s2. repeat (split; [vm_compute; reflexivity|]).
  intros H.
  destruct (H "" s) as (_ & _ & _ & _ & _ & _ & Hother).
  assert (Hne : "a" <> "") by discriminate.
  specialize (Hother "a" Hne). vm_compute in Hother. discriminate Hother.
Qed.

(** ** Instances of the further properties *)

(** X4 at work: the first listener of "e" throws, the second is called all
    the same, and the delivery returns true. *)
Lemma per_name_delivery_witness :
  let s := run_ops U call [Op_on "e" 3 None; Op_on "e" 6 None; Op_on "*" 1 None]
             (fresh U 0%nat) in
  let ls := [{| l_id := "0"; l_handler := 3 |}; {| l_id := "1"; l_handler := 6 |}] in
  let s2 := snd (for_listeners U call ls "e" (VNum 1) s) in
  calls_of (trace s2) = calls_of (trace s) ++ [(3%positive, VNum 1); (6%positive, VNum 1)]
  /\ _emitInternal U call "e" (VNum 1) s
     = for_wildcards U call (wildcardListeners (this s)) None "e" (VNum 1) true s2
  /\ fst (_emitInternal U call "e" (VNum 1) s) = Normal true.
Proof.
  intros s ls s2.
  apply (per_name_delivery U call "e" (VNum 1) ls (VNum 1) s s);
    [reflexivity | discriminate | reflexivity | reflexivity].
Defined.

(** X5 at work: two listeners of "e" and two wildcard listeners. *)
Lemma emit_fan_out_order_witness :
  let s := run_ops U call
             [Op_on "*" 1 None; Op_on "e" 3 None; Op_on "*" 2 None; Op_on "e" 6 None]
             (fresh U 0%nat) in
  calls_of (trace (snd (emit U call "e" (VNum 1) s)))
  = [(3%positive, VNum 1); (6%positive, VNum 1);
     (1%positive, envelope "e" (VNum 1)); (2%positive, envelope "e" (VNum 1))]
  /\ fst (emit U call "e" (VNum 1) s) = Normal true.
Proof.
  intros s.
  destruct (emit_fan_out_order U call "e" (VNum 1) s) as [Hcalls Htrue];
    try reflexivity.
  split; [exact Hcalls | apply Htrue; discriminate].
Defined.

(** X6 at work: the only recipient is a wildcard listener that throws. *)
Lemma throwing_wildcards_do_not_count_witness :
  let s := run_ops U call [Op_on "*" 3 None] (fresh U 0%nat) in
  fst (_emitInternal U call "e" (VNum 1) s) = Normal false
  /\ calls_of (trace (snd (_emitInternal U call "e" (VNum 1) s)))
     = [(3%positive, envelope "e" (VNum 1))].
Proof.
  intros s.
  destruct (throwing_wildcards_do_not_count U call "e" (VNum 1) s) as [Hfalse Hcalls].
  - reflexivity.
  - intros l arg u [<-|[]]. simpl. eauto.
  - split; [exact Hfalse | apply Hcalls; reflexivity].
Defined.
(** X8 at work: a listener, a debounced emission, time passing. *)
Lemma reachable_invariants_witness :
  let s := run_ops U call
             [Op_on "e" 6 None; Op_debounce "e" 10; Op_emit "e" (VNum 1); Op_advance 3]
             (initial_state U (empty_emitter 10) 0%nat) in
  timers_recorded U s /\ ids_issued (this s) /\ listeners (this s) !! "*" = None.
Proof.
  intros s. apply (reachable_invariants U call None (empty_emitter 10) 0%nat). reflexivity.
Defined.

(** X10 at work: of the two listeners of "e", the one with id "0" goes. *)
Lemma off_by_id_removes_one_witness :
  let s := run_ops U call [Op_on "e" 3 None; Op_on "e" 6 None; Op_on "f" 1 None]
             (fresh U 0%nat) in
  exists s1,
    off U "e" (inl "0") s = (Normal true, s1)
    /\ registrations (this s1) "e"
       = filter (fun l => l_id l <> "0") (registrations (this s) "e")
    /\ listenerCount (this s) "e" = 2
    /\ listenerCount (this s1) "e" = 1.
Proof.
  intros s.
  assert (Hids : ids_issued (this s)).
  { apply (run_ops_invariants U call);
      [apply initial_state_recorded | apply empty_emitter_ids_issued | reflexivity]. }
  destruct (off_by_id_removes_one U "e" "0" s Hids) as (s1 & Hoff & Hregs & Hcount & _).
  exists s1. split; [exact Hoff|]. split; [exact Hregs|]. split; [reflexivity | exact Hcount].
Defined.

(** X11 at work: the fourth subscription is taken back. *)
Lemma on_then_off_by_id_witness :
  let s := run_ops U call [Op_on "e" 3 None; Op_on "e" 6 None; Op_on "f" 1 None]
             (fresh U 0%nat) in
  let s1 := snd (on U "e" 7 None s) in
  exists s2,
    off U "e" (inl "3") s1 = (Normal true, s2)
    /\ (forall name, registrations (this s2) name = registrations (this s) name)
    /\ idCounter (this s2) = 4%nat.
Proof.
  intros s s1.
  assert (Hids : ids_issued (this s)).
  { apply (run_ops_invariants U call);
      [apply initial_state_recorded | apply empty_emitter_ids_issued | reflexivity]. }
  destruct (on_then_off_by_id U "e" 7 None s "3" s1 Hids eq_refl)
    as (s2 & Hoff & Hregs & _ & _ & _ & _ & Hn).
  exists s2. split; [exact Hoff|]. split; [exact Hregs | exact Hn].
Defined.

(** X12 at work. *)
Lemma unsubscribed_not_targeted_witness :
  let s := run_ops U call [Op_on "e" 6 None] (fresh U 0%nat) in
  let s1 := snd (off U "e" (inl "0") s) in
  fst (emitToListener U call "e" (VNum 1) "0" s) = Normal true
  /\ emitToListener U call "e" (VNum 1) "0" s1 = (Normal false, s1).
Proof.
  intros s s1. split; [reflexivity|].
  apply (unsubscribed_not_targeted U call "e" "0" (VNum 1) s). discriminate.
Defined.

(** X14 at work: [removeAllListeners("")] on an emitter with a listener, a
    wildcard listener and a pending deferred emission. *)
Lemma removeAllListeners_clears_all_witness :
  let s := run_ops U call
             [Op_on "e" 6 None; Op_on "*" 1 None; Op_debounce "e" 10; Op_emit "e" (VNum 1)]
             (fresh U 0%nat) in
  let s1 := snd (removeAllListeners U (Some "") s) in
  length (timers s) = 1%nat
  /\ listenerCount (this s1) "e" = 0 /\ listenerCount (this s1) "*" = 0
  /\ timers s1 = []
  /\ advance U call 100 s1 = (Normal [], with_clock U (Z.max (clock s1) 100) s1).
Proof.
  intros s s1.
  assert (Hwf : timers_recorded U s).
  { apply (run_ops_invariants U call);
      [apply initial_state_recorded | apply empty_emitter_ids_issued | reflexivity]. }
  destruct (removeAllListeners_clears_all U call (Some "") s eq_refl Hwf)
    as (_ & Hregs & Ht & _ & _ & _ & _ & Hadv).
  split; [reflexivity|]. split; [apply Hregs|]. split; [apply Hregs|].
  split; [exact Ht | apply Hadv].
Defined.

(** X15 at work: the name had a filter that lets nothing through and a
    debounce delay. *)
Lemma removeAllOperations_ungates_witness :
  let s := run_ops U call
             [Op_on "e" 6 None; Op_step "e" {| s_type := filter_t; s_handler := 4 |};
              Op_debounce "e" 10]
             (fresh U 0%nat) in
  let s1 := snd (removeAllOperations U (Some "e") s) in
  emit U call "e" (VNum 1) s1 = _emitInternal U call "e" (VNum 1) s1
  /\ run_chain U call (operationChains (this s1) !! "e") (VNum 1) s1 = (Normal (VNum 1), s1).
Proof.
  intros s s1.
  assert (Hne : "e" <> "") by discriminate.
  destruct (removeAllOperations_ungates U call "e" (VNum 1) s Hne)
    as (_ & _ & _ & _ & _ & _ & _ & _ & _ & Hemit & Hrun).
  split; [exact Hemit | exact Hrun].
Defined.

(** X16 at work: a deferred emission of "e" is pending when the debounce
    is removed. *)
Lemma cancelled_debounce_never_fires_witness :
  let s := run_ops U call
             [Op_on "e" 6 None; Op_debounce "e" 10; Op_emit "e" (VNum 1)] (fresh U 0%nat) in
  let s1 := snd (removeDebounce U "e" s) in
  length (timers s) = 1%nat
  /\ debounceTimers (this s1) !! "e" = None
  /\ (forall t, In t (timers s1) -> In t (timers s) /\ t_event t <> "e")
  /\ (forall until fired s2,
        advance U call until s1 = (Normal fired, s2) ->
        forall t, In t fired -> In t (timers s) /\ t_event t <> "e").
Proof.
  intros s s1.
  assert (Hwf : timers_recorded U s).
  { apply (run_ops_invariants U call);
      [apply initial_state_recorded | apply empty_emitter_ids_issued | reflexivity]. }
  assert (Hne : "e" <> "") by discriminate.
  destruct (cancelled_debounce_never_fires U call "e" s Hne Hwf) as (H & _).
  split; [reflexivity | exact H].
Defined.

(** X17 at work: a throttle of 100, an emission at time 5, another at 50. *)
Lemma throttle_window_witness :
  let s := run_ops U call [Op_on "e" 6 None; Op_throttle "e" 100; Op_advance 5]
             (fresh U 0%nat) in
  let s1 := snd (emit U call "e" (VNum 1) s) in
  let s2 := snd (advance U call 50 s1) in
  fst (emit U call "e" (VNum 1) s) = Normal true
  /\ emit U call "e" (VNum 2) s2 = (Normal false, s2).
Proof.
  intros s s1 s2. split; [reflexivity|].
  apply (throttle_window U call "e" (VNum 1) (VNum 2) 100 50 s);
    [reflexivity | lia | reflexivity | discriminate | vm_compute; split; [discriminate | reflexivity]].
Defined.

(** X18 at work: one tap, one listener of the name, two wildcard
    listeners: the tap runs three times. *)
Lemma chain_evaluated_per_recipient_witness :
  let s := run_ops U call
             [Op_step "e" {| s_type := tap_t; s_handler := 2 |};
              Op_on "e" 6 None; Op_on "*" 1 None; Op_on "*" 8 None]
             (fresh U 0%nat) in
  calls_of (trace (snd (emit U call "e" (VNum 1) s)))
  = [(2%positive, VNum 1); (6%positive, VNum 1);
     (2%positive, VNum 1); (1%positive, envelope "e" (VNum 1));
     (2%positive, VNum 1); (8%positive, envelope "e" (VNum 1))].
Proof.
  intros s.
  apply (chain_evaluated_per_recipient U call "e" (VNum 1)
           {| eventType := "e"; steps := [{| s_type := tap_t; s_handler := 2 |}] |} s);
    reflexivity.
Defined.

(** X19 at work: a tap, a filter that rejects 9, a tap that is not
    reached. *)
Lemma execute_without_transform_witness :
  let c := {| eventType := "e";
              steps := [{| s_type := tap_t; s_handler := 2 |};
                        {| s_type := filter_t; s_handler := 7 |};
                        {| s_type := tap_t; s_handler := 1 |}] |} in
  exists r s' k,
    execute U call c (VNum 9) (fresh U 0%nat) = (Normal r, s')
    /\ (r = VNum 9 \/ r = VUndefined)
    /\ (is_undefined r = false -> k = length (steps c))
    /\ calls_of (trace s')
       = calls_of (trace (fresh U 0%nat))
         ++ map (fun st => (s_handler st, VNum 9)) (firstn k (steps c)).
Proof.
  intros c. apply (execute_without_transform U call c (VNum 9) (fresh U 0%nat)).
  intros st [<-|[<-|[<-|[]]]]; discriminate.
Defined.

(** X21 at work: inside the throttle window, [removeAllListeners("e")]
    lets the next emission through. *)
Lemma throttle_record_forgotten_witness :
  let s := run_ops U call
             [Op_on "*" 1 None; Op_throttle "e" 100; Op_advance 5; Op_emit "e" (VNum 1)]
             (fresh U 0%nat) in
  let s1 := snd (removeAllListeners U (Some "e") s) in
  emit U call "e" (VNum 2) s = (Normal false, s)
  /\ emit U call "e" (VNum 2) s1
     = debounce_or_deliver U call "e" (VNum 2) (debounceDelays (this s) !! "e")
         (stamped U "e" s1)
  /\ fst (emit U call "e" (VNum 2) s1) = Normal true.
Proof.
  intros s s1.
  assert (Hne : "e" <> "") by discriminate.
  destruct (throttle_record_forgotten U call "e" (VNum 2) s Hne) as (_ & _ & H).
  split; [reflexivity|]. split; [exact H | reflexivity].
Defined.

(** X22 at work: two deferred emissions of "e" and one of "f". *)
Lemma one_pending_emission_per_name_witness :
  let s := run_ops U call
             [Op_debounce "e" 10; Op_debounce "f" 20; Op_emit "e" (VNum 1);
              Op_emit "f" (VNum 2); Op_emit "e" (VNum 3)]
             (initial_state U (empty_emitter 10) 0%nat) in
  length (timers s) = 2%nat
  /\ (forall t1 t2, In t1 (timers s) -> In t2 (timers s) ->
                    t_event t1 = t_event t2 -> t1 = t2)
  /\ (forall ev id,
        debounceTimers (this s) !! ev = Some id
        <-> exists t, In t (timers s) /\ t_id t = id /\ t_event t = ev).
Proof.
  intros s. split; [reflexivity|].
  apply (one_pending_emission_per_name U call None (empty_emitter 10) 0%nat). reflexivity.
Defined.

(** X23 at work: the deferred emission of "f" outlives the removal of the
    debounce of "e". *)
Lemma cancelling_spares_other_names_witness :
  let s := run_ops U call
             [Op_debounce "e" 10; Op_debounce "f" 20; Op_emit "e" (VNum 1);
              Op_emit "f" (VNum 2)]
             (fresh U 0%nat) in
  let s1 := snd (removeDebounce U "e" s) in
  map t_event (timers s) = ["e"; "f"]
  /\ map t_event (timers s1) = ["f"]
  /\ (forall t, In t (timers s1) <-> In t (timers s) /\ t_event t <> "e").
Proof.
  intros s s1.
  destruct (run_ops_pending U call
              [Op_debounce "e" 10; Op_debounce "f" 20; Op_emit "e" (VNum 1);
               Op_emit "f" (VNum 2)] (fresh U 0%nat)) as (Hwf & Hpen);
    [apply initial_state_recorded | apply initial_state_pending; reflexivity|].
  assert (Hne : "e" <> "") by discriminate.
  destruct (cancelling_spares_other_names U call "e" (VNum 0) 10 s Hne Hwf Hpen) as (H & _).
  split; [reflexivity|]. split; [reflexivity | exact H].
Defined.

End Concrete.
